(** * ReasonForge: response normalisation, history store and persistence

    A shallow embedding of the data-handling core of [src/app/page.tsx]
    (component [ReasonForgeAI]: the analysis and challenge handlers, the
    history effects, the dashboard's search and topics) and of the decomposed
    variant [src/unnamed/part_000] (component [ReasonForge]: its run and
    challenge handlers, its history effects, its navigation):

    - JavaScript strings are sequences of UTF-16 code units ([list N]);
    - [JSON.parse] / [JSON.stringify] are the platform's, modelled after
      ECMA-404 on a JSON value type (numbers are exact decimals: binary64
      rounding and overflow are outside the model);
    - [localStorage] is a finite map from keys to strings;
    - exceptions are a completion type ([Normal] / [Throw]) threaded through
      a small state monad over the component state;
    - the awaited gateway call is an explicit interaction node. *)

From Stdlib Require Import ZArith NArith List Bool Lia String Ascii.
From stdpp Require Import gmap.
Import ListNotations.

(** ** JavaScript strings *)

Abbreviation jsstring := (list N).

(** A string literal of the source, as code units. *)
Definition lit (s : string) : jsstring :=
  List.map N_of_ascii (list_ascii_of_string s).

(** Same, with every apostrophe standing for a double quote (so that JSON
    text can be written inline). *)
Definition jlit (s : string) : jsstring :=
  List.map (fun c => if (c =? 39)%N then 34%N else c) (lit s).

Definition LF : N := 10.

Fixpoint jsstring_eqb (a b : jsstring) : bool :=
  match a, b with
  | [], [] => true
  | x :: a', y :: b' => (x =? y)%N && jsstring_eqb a' b'
  | _, _ => false
  end.

(** [s.startsWith(p)] *)
Fixpoint starts_with (p s : jsstring) : bool :=
  match p, s with
  | [], _ => true
  | a :: p', b :: s' => (a =? b)%N && starts_with p' s'
  | _ :: _, [] => false
  end.

(** [s.includes(p)] *)
Fixpoint includes (p s : jsstring) : bool :=
  starts_with p s ||
  match s with
  | [] => false
  | _ :: t => includes p t
  end.

(** *** [String.prototype.trim]

    ECMA-262 WhiteSpace and LineTerminator code points. *)
Definition isWhiteSpace (c : N) : bool :=
  ((c =? 9) || (c =? 10) || (c =? 11) || (c =? 12) || (c =? 13) ||
   (c =? 32) || (c =? 160) || (c =? 5760) ||
   ((8192 <=? c) && (c <=? 8202)) ||
   (c =? 8232) || (c =? 8233) || (c =? 8239) || (c =? 8287) ||
   (c =? 12288) || (c =? 65279))%N.

Fixpoint trimStart (s : jsstring) : jsstring :=
  match s with
  | [] => []
  | c :: t => if isWhiteSpace c then trimStart t else s
  end.

Definition trimEnd (s : jsstring) : jsstring := rev (trimStart (rev s)).

Definition trim (s : jsstring) : jsstring := trimEnd (trimStart s).

(** *** [s.replace(/<pat>\n?/g, '')] for a literal, non-empty [pat]

    The scan goes left to right; at a position where [pat] starts, the match
    (the pattern and one line feed if it follows) is dropped and the scan
    resumes behind it.  [skip] counts the code units of the current match
    that are still to be dropped. *)
Fixpoint replace_fence (pat : jsstring) (skip : nat) (s : jsstring) : jsstring :=
  match s with
  | [] => []
  | c :: t =>
      match skip with
      | S k => replace_fence pat k t
      | O =>
          if starts_with pat s then
            replace_fence pat
              (length pat - 1 +
               (if starts_with [LF] (skipn (length pat) s) then 1 else 0)) t
          else c :: replace_fence pat 0 t
      end
  end.

Definition FENCE : jsstring := lit "```".
Definition FENCE_JSON : jsstring := lit "```json".

(** [response.replace(/```json\n?/g, '').replace(/```\n?/g, '').trim()]
    (page.tsx, handleAnalyze and handleChallenge). *)
Definition cleanJson (response : jsstring) : jsstring :=
  trim (replace_fence FENCE 0 (replace_fence FENCE_JSON 0 response)).

(** A JSON document wrapped in a markdown code fence, tagged [json] or not. *)
Definition fenced (tagged : bool) (doc : jsstring) : jsstring :=
  (if tagged then FENCE_JSON else FENCE) ++ [LF] ++ doc ++ [LF] ++ FENCE.

(** ** JSON values

    A number [VNum m e] is the decimal [m * 10^e], kept in normal form:
    [e <= 0], and [m] does not end in a zero digit when [e < 0].  An object
    keeps its members in insertion order.

    The engine holds a number as a binary64: a text beyond that range is
    read as Infinity, which [JSON.stringify] writes as [null], and [-0] is
    written as [0].  Neither is in this model, so what is stated of a round
    trip through storage is stated of the values that [wf_value] admits,
    taken as numbers that the engine holds as written. *)

Unset Elimination Schemes.
Inductive value : Type :=
| VNull
| VBool (b : bool)
| VNum (m e : Z)
| VStr (s : jsstring)
| VArr (items : list value)
| VObj (members : list (jsstring * value)).
Set Elimination Schemes.

Section value_induction.
Variable P : value -> Prop.
Hypothesis Hnull : P VNull.
Hypothesis Hbool : forall b, P (VBool b).
Hypothesis Hnum : forall m e, P (VNum m e).
Hypothesis Hstr : forall s, P (VStr s).
Hypothesis Harr : forall items, Forall P items -> P (VArr items).
Hypothesis Hobj :
  forall members, Forall (fun kv => P (snd kv)) members -> P (VObj members).

Fixpoint value_ind (v : value) : P v :=
  match v with
  | VNull => Hnull
  | VBool b => Hbool b
  | VNum m e => Hnum m e
  | VStr s => Hstr s
  | VArr items =>
      Harr items
        ((fix go (l : list value) : Forall P l :=
            match l with
            | [] => @List.Forall_nil _ _
            | x :: l' => @List.Forall_cons _ _ x l' (value_ind x) (go l')
            end) items)
  | VObj members =>
      Hobj members
        ((fix go (l : list (jsstring * value)) : Forall (fun kv => P (snd kv)) l :=
            match l with
            | [] => @List.Forall_nil _ _
            | kv :: l' => @List.Forall_cons _ _ kv l' (value_ind (snd kv)) (go l')
            end) members)
  end.
End value_induction.

(** Property read [o[key]] on the members of an object. *)
Fixpoint get_member (key : jsstring) (members : list (jsstring * value))
  : option value :=
  match members with
  | [] => None
  | (k, v) :: rest => if jsstring_eqb k key then Some v else get_member key rest
  end.

(** Property write [o[key] = v]: an existing key keeps its place. *)
Fixpoint set_member (key : jsstring) (v : value)
  (members : list (jsstring * value)) : list (jsstring * value) :=
  match members with
  | [] => [(key, v)]
  | (k, w) :: rest =>
      if jsstring_eqb k key then (k, v) :: rest
      else (k, w) :: set_member key v rest
  end.

(** ** JSON text: tokens *)

Inductive token : Type :=
| TLBrace | TRBrace | TLBrack | TRBrack | TComma | TColon
| TString (s : jsstring)
| TNumber (m e : Z)
| TTrue | TFalse | TNull.

Inductive keyword : Type := KTrue | KFalse | KNull.

Definition keyword_text (k : keyword) : jsstring :=
  match k with
  | KTrue => lit "true"
  | KFalse => lit "false"
  | KNull => lit "null"
  end.

Definition keyword_token (k : keyword) : token :=
  match k with
  | KTrue => TTrue
  | KFalse => TFalse
  | KNull => TNull
  end.

(** *** Numbers *)

Definition signed (neg : bool) (n : N) : Z :=
  if neg then (- Z.of_N n)%Z else Z.of_N n.

(** Cancel up to [fuel] trailing zero digits of the mantissa against a
    negative exponent. *)
Fixpoint strip_zeros (fuel : nat) (m e : Z) : Z * Z :=
  match fuel with
  | O => (m, e)
  | S k => if (m mod 10 =? 0)%Z then strip_zeros k (m / 10)%Z (e + 1)%Z
           else (m, e)
  end.

Definition normalise (m e : Z) : Z * Z :=
  if (0 <=? e)%Z then ((m * 10 ^ e)%Z, 0%Z)
  else strip_zeros (Z.to_nat (- e)) m e.

Definition number_token (neg : bool) (mant : N) (flen : nat)
  (eneg : bool) (ev : N) : token :=
  let '(m, e) := normalise (signed neg mant) (signed eneg ev - Z.of_nat flen) in
  TNumber m e.

(** *** The scanner

    One code unit at a time.  [InStr acc] is inside a string literal ([acc]
    holds the units read so far, last first), [InEsc] behind a backslash,
    [InHex acc k v] inside a [\u] escape with [k] hex digits to come,
    [InKw kw pos] inside [true], [false] or [null]; the [Num*] modes follow
    the number grammar: an optional minus, then 0 or a non-zero digit and
    further digits, then optionally a dot and digits, then optionally e or E,
    an optional sign and digits. *)
Inductive mode : Type :=
| Idle
| InStr (acc : jsstring)
| InEsc (acc : jsstring)
| InHex (acc : jsstring) (k : nat) (v : N)
| InKw (kw : keyword) (pos : nat)
| NumMinus
| NumZero (neg : bool)
| NumInt (neg : bool) (mant : N)
| NumDot (neg : bool) (mant : N)
| NumFrac (neg : bool) (mant : N) (flen : nat)
| NumE (neg : bool) (mant : N) (flen : nat)
| NumESign (neg : bool) (mant : N) (flen : nat) (eneg : bool)
| NumExp (neg : bool) (mant : N) (flen : nat) (eneg : bool) (ev : N).

Definition is_digit (c : N) : bool := ((48 <=? c) && (c <=? 57))%N.
Definition is_exp (c : N) : bool := ((c =? 101) || (c =? 69))%N.
Definition json_ws (c : N) : bool :=
  ((c =? 32) || (c =? 9) || (c =? 10) || (c =? 13))%N.

Definition hex_val (c : N) : option N :=
  if is_digit c then Some (c - 48)%N
  else if ((97 <=? c) && (c <=? 102))%N then Some (c - 87)%N
  else if ((65 <=? c) && (c <=? 70))%N then Some (c - 55)%N
  else None.

(** The unit denoted by a one-letter escape. *)
Definition unescape (c : N) : option N :=
  (if c =? 34 then Some 34 else if c =? 92 then Some 92
   else if c =? 47 then Some 47 else if c =? 98 then Some 8
   else if c =? 102 then Some 12 else if c =? 110 then Some 10
   else if c =? 114 then Some 13 else if c =? 116 then Some 9
   else None)%N.

(** The number read so far, if the scanner may stop here. *)
Definition close (m : mode) : option token :=
  match m with
  | NumZero neg => Some (number_token neg 0 0 false 0)
  | NumInt neg mant => Some (number_token neg mant 0 false 0)
  | NumFrac neg mant flen => Some (number_token neg mant flen false 0)
  | NumExp neg mant flen eneg ev => Some (number_token neg mant flen eneg ev)
  | _ => None
  end.

(** One more unit of the number being read, if it belongs to it. *)
Definition in_number (m : mode) (c : N) : option mode :=
  let d := (c - 48)%N in
  match m with
  | NumMinus =>
      if (c =? 48)%N then Some (NumZero true)
      else if is_digit c then Some (NumInt true d) else None
  | NumZero neg =>
      if (c =? 46)%N then Some (NumDot neg 0)
      else if is_exp c then Some (NumE neg 0 0) else None
  | NumInt neg mant =>
      if is_digit c then Some (NumInt neg (mant * 10 + d))
      else if (c =? 46)%N then Some (NumDot neg mant)
      else if is_exp c then Some (NumE neg mant 0) else None
  | NumDot neg mant =>
      if is_digit c then Some (NumFrac neg (mant * 10 + d) 1) else None
  | NumFrac neg mant flen =>
      if is_digit c then Some (NumFrac neg (mant * 10 + d) (S flen))
      else if is_exp c then Some (NumE neg mant flen) else None
  | NumE neg mant flen =>
      if (c =? 43)%N then Some (NumESign neg mant flen false)
      else if (c =? 45)%N then Some (NumESign neg mant flen true)
      else if is_digit c then Some (NumExp neg mant flen false d) else None
  | NumESign neg mant flen eneg =>
      if is_digit c then Some (NumExp neg mant flen eneg d) else None
  | NumExp neg mant flen eneg ev =>
      if is_digit c then Some (NumExp neg mant flen eneg (ev * 10 + d)) else None
  | _ => None
  end.

Definition lexstate : Type := list token * mode.

(** Between tokens. *)
Definition idle_step (toks : list token) (c : N) : option lexstate :=
  (if json_ws c then Some (toks, Idle)
   else if c =? 123 then Some (TLBrace :: toks, Idle)
   else if c =? 125 then Some (TRBrace :: toks, Idle)
   else if c =? 91 then Some (TLBrack :: toks, Idle)
   else if c =? 93 then Some (TRBrack :: toks, Idle)
   else if c =? 44 then Some (TComma :: toks, Idle)
   else if c =? 58 then Some (TColon :: toks, Idle)
   else if c =? 34 then Some (toks, InStr [])
   else if c =? 45 then Some (toks, NumMinus)
   else if c =? 48 then Some (toks, NumZero false)
   else if is_digit c then Some (toks, NumInt false (c - 48))
   else if c =? 116 then Some (toks, InKw KTrue 1)
   else if c =? 102 then Some (toks, InKw KFalse 1)
   else if c =? 110 then Some (toks, InKw KNull 1)
   else None)%N.

Definition step (st : lexstate) (c : N) : option lexstate :=
  let '(toks, m) := st in
  match m with
  | Idle => idle_step toks c
  | InStr acc =>
      if (c =? 34)%N then Some (TString (rev acc) :: toks, Idle)
      else if (c =? 92)%N then Some (toks, InEsc acc)
      else if (c <? 32)%N then None
      else Some (toks, InStr (c :: acc))
  | InEsc acc =>
      match unescape c with
      | Some u => Some (toks, InStr (u :: acc))
      | None => if (c =? 117)%N then Some (toks, InHex acc 3 0) else None
      end
  | InHex acc k v =>
      match hex_val c with
      | None => None
      | Some d =>
          match k with
          | O => Some (toks, InStr ((v * 16 + d)%N :: acc))
          | S k' => Some (toks, InHex acc k' (v * 16 + d))
          end
      end
  | InKw kw pos =>
      match nth_error (keyword_text kw) pos with
      | Some x =>
          if (c =? x)%N then
            if (S pos =? length (keyword_text kw))%nat
            then Some (keyword_token kw :: toks, Idle)
            else Some (toks, InKw kw (S pos))
          else None
      | None => None
      end
  | _ =>
      match in_number m c with
      | Some m' => Some (toks, m')
      | None =>
          match close m with
          | Some t => idle_step (t :: toks) c
          | None => None
          end
      end
  end.

Fixpoint run (st : lexstate) (s : jsstring) : option lexstate :=
  match s with
  | [] => Some st
  | c :: t =>
      match step st c with
      | Some st' => run st' t
      | None => None
      end
  end.

(** End of input. *)
Definition finish (st : lexstate) : option (list token) :=
  let '(toks, m) := st in
  match m with
  | Idle => Some (rev toks)
  | _ =>
      match close m with
      | Some t => Some (rev (t :: toks))
      | None => None
      end
  end.

Definition lex (s : jsstring) : option (list token) :=
  match run ([], Idle) s with
  | Some st => finish st
  | None => None
  end.

(** *** The grammar, on tokens *)

Fixpoint parse_value (fuel : nat) (ts : list token) : option (value * list token) :=
  match fuel with
  | O => None
  | S n =>
      match ts with
      | TNull :: r => Some (VNull, r)
      | TTrue :: r => Some (VBool true, r)
      | TFalse :: r => Some (VBool false, r)
      | TNumber m e :: r => Some (VNum m e, r)
      | TString s :: r => Some (VStr s, r)
      | TLBrack :: TRBrack :: r => Some (VArr [], r)
      | TLBrack :: r => parse_elements n [] r
      | TLBrace :: TRBrace :: r => Some (VObj [], r)
      | TLBrace :: r => parse_members n [] r
      | _ => None
      end
  end
with parse_elements (fuel : nat) (acc : list value) (ts : list token)
  : option (value * list token) :=
  match fuel with
  | O => None
  | S n =>
      match parse_value n ts with
      | Some (v, TComma :: r) => parse_elements n (v :: acc) r
      | Some (v, TRBrack :: r) => Some (VArr (rev (v :: acc)), r)
      | _ => None
      end
  end
with parse_members (fuel : nat) (acc : list (jsstring * value)) (ts : list token)
  : option (value * list token) :=
  match fuel with
  | O => None
  | S n =>
      match ts with
      | TString k :: TColon :: r =>
          match parse_value n r with
          | Some (v, TComma :: r') => parse_members n (set_member k v acc) r'
          | Some (v, TRBrace :: r') => Some (VObj (set_member k v acc), r')
          | _ => None
          end
      | _ => None
      end
  end.

(** ** Completions *)

Inductive error : Type :=
| SyntaxError                 (* thrown by JSON.parse *)
| TypeError                   (* property read on null *)
| Rejected (reason : value).  (* a rejected gateway promise *)

Inductive completion (A : Type) : Type :=
| Normal (a : A)
| Throw (e : error).
Arguments Normal {A} a.
Arguments Throw {A} e.

(** [JSON.parse(text)] *)
Definition JSON_parse (text : jsstring) : completion value :=
  match lex text with
  | Some ts =>
      match parse_value (S (length ts)) ts with
      | Some (v, []) => Normal v
      | _ => Throw SyntaxError
      end
  | None => Throw SyntaxError
  end.

(** ** [JSON.stringify] *)

(** Decimal digits of [n], most significant first. *)
Fixpoint digits_fuel (fuel : nat) (n : N) : jsstring :=
  match fuel with
  | O => []
  | S k =>
      if (n <? 10)%N then [(48 + n)%N]
      else digits_fuel k (n / 10)%N ++ [(48 + n mod 10)%N]
  end.

Definition digits (n : N) : jsstring := digits_fuel (S (N.to_nat (N.size n))) n.

(** The text of a number: an integer is written out in digits; a proper
    fraction [m * 10^e] is written [m] followed by the exponent part (one of
    the spellings that [JSON.parse] reads back as the same number; which
    spelling the engine picks is not modelled). *)
Definition number_text (m e : Z) : jsstring :=
  (if (m <? 0)%Z then [45%N] else []) ++ digits (Z.abs_N m) ++
  (if (e =? 0)%Z then []
   else 101%N :: (if (e <? 0)%Z then [45%N] else []) ++ digits (Z.abs_N e)).

Definition hex_digit (d : N) : N := if (d <? 10)%N then (48 + d)%N else (87 + d)%N.

(** QuoteJSONString, per code unit (lone surrogates, which the engine writes
    as [\u] escapes, are written as they are). *)
Definition escape_unit (c : N) : jsstring :=
  (if c =? 34 then [92; 34] else if c =? 92 then [92; 92]
   else if c =? 8 then [92; 98] else if c =? 12 then [92; 102]
   else if c =? 10 then [92; 110] else if c =? 13 then [92; 114]
   else if c =? 9 then [92; 116]
   else if c <? 32 then [92; 117; 48; 48; hex_digit (c / 16); hex_digit (c mod 16)]
   else [c])%N.

Definition quote (s : jsstring) : jsstring :=
  34%N :: flat_map escape_unit s ++ [34%N].

Fixpoint join {A : Type} (sep : list A) (parts : list (list A)) : list A :=
  match parts with
  | [] => []
  | [x] => x
  | x :: rest => x ++ sep ++ join sep rest
  end.

Fixpoint JSON_stringify (v : value) : jsstring :=
  match v with
  | VNull => lit "null"
  | VBool true => lit "true"
  | VBool false => lit "false"
  | VNum m e => number_text m e
  | VStr s => quote s
  | VArr items => 91%N :: join [44%N] (List.map JSON_stringify items) ++ [93%N]
  | VObj members =>
      123%N ::
      join [44%N]
        (List.map (fun kv => quote (fst kv) ++ 58%N :: JSON_stringify (snd kv))
           members) ++ [125%N]
  end.

(** The tokens of a value's text. *)
Fixpoint tokens (v : value) : list token :=
  match v with
  | VNull => [TNull]
  | VBool true => [TTrue]
  | VBool false => [TFalse]
  | VNum m e => [TNumber m e]
  | VStr s => [TString s]
  | VArr items => TLBrack :: join [TComma] (List.map tokens items) ++ [TRBrack]
  | VObj members =>
      TLBrace ::
      join [TComma]
        (List.map (fun kv => TString (fst kv) :: TColon :: tokens (snd kv))
           members) ++ [TRBrace]
  end.

(** *** Values as the engine holds them *)

Definition normal (m e : Z) : bool :=
  ((e <=? 0) && ((e =? 0) || negb (m mod 10 =? 0)))%Z.

Fixpoint distinct (keys : list jsstring) : bool :=
  match keys with
  | [] => true
  | k :: rest => negb (existsb (jsstring_eqb k) rest) && distinct rest
  end.

(** Numbers are in normal form and no object has two members of one name. *)
Fixpoint wf_value (v : value) : bool :=
  match v with
  | VNum m e => normal m e
  | VArr items => forallb wf_value items
  | VObj members =>
      distinct (List.map fst members) &&
      forallb (fun kv => wf_value (snd kv)) members
  | _ => true
  end.

(** A number token is in normal form. *)
Definition token_wf (t : token) : bool :=
  match t with
  | TNumber m e => normal m e
  | _ => true
  end.

Definition is_delim (c : N) : bool := ((c =? 44) || (c =? 93) || (c =? 125))%N.

Definition delimited (rest : jsstring) : Prop :=
  exists c r, rest = c :: r /\ is_delim c = true.

(** ** Reading properties of a response *)

(** ToBoolean *)
Definition truthy (v : value) : bool :=
  match v with
  | VNull => false
  | VBool b => b
  | VNum m _ => negb (m =? 0)%Z
  | VStr s => match s with [] => false | _ => true end
  | VArr _ | VObj _ => true
  end.

(** [v.key] for a name that no prototype defines: a member of an object,
    [undefined] ([None]) on anything else, a TypeError on [null]. *)
Definition get_prop (v : value) (key : jsstring) : completion (option value) :=
  match v with
  | VNull => Throw TypeError
  | VObj members => Normal (get_member key members)
  | _ => Normal None
  end.

Definition ZERO : value := VNum 0 0.

(** [o || 0] *)
Definition or_zero (o : option value) : value :=
  match o with
  | Some v => if truthy v then v else ZERO
  | None => ZERO
  end.

(** [parsedResult.uncertainty_assessment?.overall_confidence || 0] *)
Definition overall_confidence (parsedResult : value) : completion value :=
  match get_prop parsedResult (lit "uncertainty_assessment") with
  | Throw e => Throw e
  | Normal None | Normal (Some VNull) => Normal ZERO
  | Normal (Some ua) =>
      match get_prop ua (lit "overall_confidence") with
      | Throw e => Throw e
      | Normal oc => Normal (or_zero oc)
      end
  end.

(** The normalisation of [handleAnalyze]: a string is cleaned and parsed, any
    other response is taken as the result. *)
Definition normalize (response : value) : completion value :=
  match response with
  | VStr s => JSON_parse (cleanJson s)
  | _ => Normal response
  end.

(** ** Analysis records (page.tsx, [AnalysisItem]) *)

Inductive Status : Type := completed | in_progress | failed.

Record AnalysisItem : Type := {
  id : jsstring;
  problem : jsstring;
  timestamp : Z;
  confidence : value;
  status : Status;
  result : option value;
  topic : option jsstring
}.

Definition Status_eqb (a b : Status) : bool :=
  match a, b with
  | completed, completed | in_progress, in_progress | failed, failed => true
  | _, _ => false
  end.

Definition status_text (s : Status) : jsstring :=
  match s with
  | completed => lit "completed"
  | in_progress => lit "in_progress"
  | failed => lit "failed"
  end.

(** The record as the object the engine holds: the properties of the literal
    in creation order, [result] (added by the update) last; an absent property
    is left out. *)
Definition toJS (item : AnalysisItem) : value :=
  VObj ([ (lit "id", VStr (id item));
          (lit "problem", VStr (problem item));
          (lit "timestamp", VNum (timestamp item) 0);
          (lit "confidence", confidence item);
          (lit "status", VStr (status_text (status item))) ]
        ++ match topic item with
           | Some t => [(lit "topic", VStr t)]
           | None => []
           end
        ++ match result item with
           | Some r => [(lit "result", r)]
           | None => []
           end).

Definition toJS_history (items : list AnalysisItem) : value :=
  VArr (List.map toJS items).

(** The typed reading of a parsed value ([as AnalysisItem]): [None] when the
    value does not have the shape of the interface. *)
Definition status_of_text (s : jsstring) : option Status :=
  if jsstring_eqb s (lit "completed") then Some completed
  else if jsstring_eqb s (lit "in_progress") then Some in_progress
  else if jsstring_eqb s (lit "failed") then Some failed
  else None.

Definition fromJS (v : value) : option AnalysisItem :=
  match v with
  | VObj members =>
      match get_member (lit "id") members,
            get_member (lit "problem") members,
            get_member (lit "timestamp") members,
            get_member (lit "confidence") members,
            get_member (lit "status") members with
      | Some (VStr i), Some (VStr p), Some (VNum t 0), Some c, Some (VStr s) =>
          match status_of_text s, get_member (lit "topic") members with
          | Some st, Some (VStr t') =>
              Some {| id := i; problem := p; timestamp := t; confidence := c;
                      status := st; result := get_member (lit "result") members;
                      topic := Some t' |}
          | Some st, None =>
              Some {| id := i; problem := p; timestamp := t; confidence := c;
                      status := st; result := get_member (lit "result") members;
                      topic := None |}
          | _, _ => None
          end
      | _, _, _, _, _ => None
      end
  | _ => None
  end.

Fixpoint fromJS_items (l : list value) : option (list AnalysisItem) :=
  match l with
  | [] => Some []
  | v :: rest =>
      match fromJS v, fromJS_items rest with
      | Some item, Some items => Some (item :: items)
      | _, _ => None
      end
  end.

Definition fromJS_history (v : value) : option (list AnalysisItem) :=
  match v with
  | VArr l => fromJS_items l
  | _ => None
  end.

(** A record whose untyped parts are values as the engine holds them. *)
Definition wf_item (item : AnalysisItem) : bool :=
  wf_value (confidence item) &&
  match result item with
  | Some r => wf_value r
  | None => true
  end.

(** *** The store operations *)

(** [[record, ...prev]] *)
Definition append (record : AnalysisItem) (prev : list AnalysisItem)
  : list AnalysisItem := record :: prev.

(** The properties written behind [...item] in an update. *)
Record Patch : Type := {
  patch_result : option value;
  patch_confidence : option value;
  patch_status : option Status
}.

(** [{ ...item, <patch> }] *)
Definition spread (item : AnalysisItem) (patch : Patch) : AnalysisItem :=
  {| id := id item;
     problem := problem item;
     timestamp := timestamp item;
     confidence := match patch_confidence patch with
                   | Some c => c
                   | None => confidence item
                   end;
     status := match patch_status patch with
               | Some s => s
               | None => status item
               end;
     result := match patch_result patch with
               | Some r => Some r
               | None => result item
               end;
     topic := topic item |}.

(** [prev.map(item => item.id === analysisId ? { ...item, <patch> } : item)] *)
Definition updateById (analysisId : jsstring) (patch : Patch)
  (prev : list AnalysisItem) : list AnalysisItem :=
  List.map (fun item =>
              if jsstring_eqb (id item) analysisId then spread item patch
              else item) prev.

(** [{ result: parsedResult, confidence, status: 'completed' }] *)
Definition completed_patch (parsedResult conf : value) : Patch :=
  {| patch_result := Some parsedResult;
     patch_confidence := Some conf;
     patch_status := Some completed |}.

(** [{ status: 'failed' }] *)
Definition failed_patch : Patch :=
  {| patch_result := None; patch_confidence := None; patch_status := Some failed |}.

(** ** Device-local storage *)

Abbreviation Storage := (gmap jsstring jsstring).

Definition HISTORY_KEY : jsstring := lit "reasonforge_history".

(** The save effect:
    [if (analysisHistory.length > 0) localStorage.setItem(KEY, JSON.stringify(analysisHistory))] *)
Definition saveEffect (analysisHistory : list AnalysisItem) (storage : Storage)
  : Storage :=
  if (0 <? length analysisHistory)%nat
  then <[HISTORY_KEY := JSON_stringify (toJS_history analysisHistory)]> storage
  else storage.

(** [try { body } catch (e) { handler(e) }] on completions. *)
Definition try_catch {A : Type} (body : completion A) (handler : error -> completion A)
  : completion A :=
  match body with
  | Normal a => Normal a
  | Throw e => handler e
  end.

(** The load effect: the value handed to [setAnalysisHistory], or [None] when
    the setter is not called.
    [if (saved) { try { setAnalysisHistory(JSON.parse(saved)) } catch (e) { console.error(..) } }] *)
Definition loadEffect (storage : Storage) : completion (option value) :=
  match storage !! HISTORY_KEY with
  | Some saved =>
      match saved with
      | [] => Normal None
      | _ =>
          try_catch
            (match JSON_parse saved with
             | Normal v => Normal (Some v)
             | Throw e => Throw e
             end)
            (fun e => Normal None)
      end
  | None => Normal None
  end.

(** The history after the load effect: the initial state [useState([])] when
    the setter was not called, else the typed reading of the loaded value
    ([None]: the blob is not an array of records, and the component state is
    outside this model). *)
Definition history_after_load (loaded : option value) : option (list AnalysisItem) :=
  match loaded with
  | None => Some []
  | Some v => fromJS_history v
  end.

(** Startup.  Both effects run behind the first render, in which the history
    is still the initial [[]]; when the load effect has set a history, the
    save effect runs again with it.  The result is the history after startup
    (see [history_after_load]) and the storage. *)
Definition mount (storage : Storage)
  : completion (option (list AnalysisItem) * Storage) :=
  match loadEffect storage with
  | Throw e => Throw e
  | Normal loaded =>
      let storage1 := saveEffect [] storage in
      Normal (history_after_load loaded,
              match loaded, history_after_load loaded with
              | Some _, Some h => saveEffect h storage1
              | _, _ => storage1
              end)
  end.

(** The history is persisted by the save effect and read back by the load
    effect of the next start. *)
Definition persist_then_reload (h : list AnalysisItem) (storage : Storage)
  : option (list AnalysisItem) :=
  match loadEffect (saveEffect h storage) with
  | Normal loaded => history_after_load loaded
  | Throw _ => None
  end.

(** ** The component [ReasonForgeAI] (page.tsx) *)

(** The state the analysis handler reads and writes, and the alerts shown so
    far (latest first).  Console output is not part of the model. *)
Record AppState : Type := {
  analysisHistory : list AnalysisItem;
  currentProblem : jsstring;
  isAnalyzing : bool;
  currentAnalysis : option value;
  alerts : list jsstring
}.

Definition initialState : AppState :=
  {| analysisHistory := []; currentProblem := []; isAnalyzing := false;
     currentAnalysis := None; alerts := [] |}.

(** *** State and exceptions *)

Definition M (St A : Type) : Type := St -> completion A * St.

Definition ret {St A : Type} (a : A) : M St A := fun st => (Normal a, st).

Definition bind {St A B : Type} (m : M St A) (k : A -> M St B) : M St B :=
  fun st =>
    match m st with
    | (Normal a, st') => k a st'
    | (Throw e, st') => (Throw e, st')
    end.

Notation "'let*' x ':=' m 'in' k" := (bind m (fun x => k))
  (at level 10, x name, m at level 100, k at level 200).
Notation "m ';;' k" := (bind m (fun _ => k))
  (at level 100, k at level 200, right associativity).

(** A completion computed without touching the state ([await] of a settled
    promise, a call that may throw). *)
Definition lift {St A : Type} (c : completion A) : M St A := fun st => (c, st).

Definition modify {St : Type} (f : St -> St) : M St unit :=
  fun st => (Normal tt, f st).

(** [try { body } catch (error) { handler(error) } finally { final }] *)
Definition try_catch_finally {St : Type} (body : M St unit)
  (handler : error -> M St unit) (final : M St unit) : M St unit :=
  fun st =>
    let '(c, st1) :=
      match body st with
      | (Normal a, st') => (Normal a, st')
      | (Throw e, st') => handler e st'
      end in
    match final st1 with
    | (Normal _, st2) => (c, st2)
    | (Throw e, st2) => (Throw e, st2)
    end.

(** *** Handlers that await the gateway

    A handler runs until it returns ([Done]) or awaits [callAIAgent(...args)]
    ([Await]); the rest of it is resumed with the settled promise and the
    state of that moment. *)
Inductive Prog (St : Type) : Type :=
| Done (c : completion unit) (st : St)
| Await (args : list value) (st : St)
    (resume : completion value -> St -> Prog St).
Arguments Done {St} c st.
Arguments Await {St} args st resume.

(** The handler run to its end against a gateway that settles every call at
    once: the completion, the final state, and the calls made.  The gateway
    ([callAIAgent], whose module is not among the sources) is a parameter: it
    may resolve with any value or reject. *)
Fixpoint perform {St : Type} (gateway : list value -> completion value)
  (p : Prog St) : completion unit * St * list (list value) :=
  match p with
  | Done c st => (c, st, [])
  | Await args st resume =>
      let '(c, st', calls) := perform gateway (resume (gateway args) st) in
      (c, st', args :: calls)
  end.

(** *** The setters *)

Definition setAnalysisHistory (f : list AnalysisItem -> list AnalysisItem)
  : M AppState unit :=
  modify (fun st =>
    {| analysisHistory := f (analysisHistory st);
       currentProblem := currentProblem st; isAnalyzing := isAnalyzing st;
       currentAnalysis := currentAnalysis st; alerts := alerts st |}).

Definition setCurrentProblem (p : jsstring) : M AppState unit :=
  modify (fun st =>
    {| analysisHistory := analysisHistory st;
       currentProblem := p; isAnalyzing := isAnalyzing st;
       currentAnalysis := currentAnalysis st; alerts := alerts st |}).

Definition setIsAnalyzing (b : bool) : M AppState unit :=
  modify (fun st =>
    {| analysisHistory := analysisHistory st;
       currentProblem := currentProblem st; isAnalyzing := b;
       currentAnalysis := currentAnalysis st; alerts := alerts st |}).

Definition setCurrentAnalysis (r : option value) : M AppState unit :=
  modify (fun st =>
    {| analysisHistory := analysisHistory st;
       currentProblem := currentProblem st; isAnalyzing := isAnalyzing st;
       currentAnalysis := r; alerts := alerts st |}).

Definition alert (message : jsstring) : M AppState unit :=
  modify (fun st =>
    {| analysisHistory := analysisHistory st;
       currentProblem := currentProblem st; isAnalyzing := isAnalyzing st;
       currentAnalysis := currentAnalysis st; alerts := message :: alerts st |}).

(** *** [extractTopic] *)

(** [toLowerCase] on the ASCII letters (other code units are kept: Unicode
    case mapping is not modelled). *)
Definition toLowerCase (s : jsstring) : jsstring :=
  List.map (fun c => if ((65 <=? c) && (c <=? 90))%N then (c + 32)%N else c) s.

Definition toUpperCase (s : jsstring) : jsstring :=
  List.map (fun c => if ((97 <=? c) && (c <=? 122))%N then (c - 32)%N else c) s.

(** [s.split(' ')] *)
Fixpoint split_spaces (s : jsstring) : list jsstring :=
  match s with
  | [] => [[]]
  | c :: t =>
      if (c =? 32)%N then [] :: split_spaces t
      else match split_spaces t with
           | w :: ws => (c :: w) :: ws
           | [] => [[c]]
           end
  end.

Definition keywords : list jsstring :=
  [lit "employee"; lit "student"; lit "climate"; lit "business";
   lit "health"; lit "technology"; lit "education"].

Definition extractTopic (problem : jsstring) : jsstring :=
  let words := split_spaces (toLowerCase problem) in
  match List.find (fun keyword => existsb (includes keyword) words) keywords with
  | Some keyword => toUpperCase (firstn 1 keyword) ++ skipn 1 keyword
  | None => lit "General"
  end.

(** *** [handleAnalyze] *)

Definition REASONING_ORCHESTRATOR_ID : jsstring := lit "69858540b90162af337b1e2d".

(** [Date.now().toString()] *)
Definition Number_toString (n : Z) : jsstring := number_text n 0.

Definition MIN_LENGTH_ALERT : jsstring :=
  lit "Please enter a problem statement (minimum 10 characters)".
Definition FAILED_ALERT : jsstring := lit "Analysis failed. Please try again.".

(** The length gate: [!currentProblem.trim() || currentProblem.length < 10]. *)
Definition rejects (currentProblem : jsstring) : bool :=
  negb (truthy (VStr (trim currentProblem))) ||
  (length currentProblem <? 10)%nat.

(** The [try] block behind the [await]. *)
Definition on_response (analysisId : jsstring) (settled : completion value)
  : M AppState unit :=
  let* response := lift settled in
  let* parsedResult := lift (normalize response) in
  let* conf := lift (overall_confidence parsedResult) in
  setCurrentAnalysis (Some parsedResult) ;;
  setAnalysisHistory (updateById analysisId (completed_patch parsedResult conf)).

(** The [catch] block. *)
Definition on_error (analysisId : jsstring) (e : error) : M AppState unit :=
  setAnalysisHistory (updateById analysisId failed_patch) ;;
  alert FAILED_ALERT.

(** The handler from the [await] on. *)
Definition resume_analysis (analysisId : jsstring) (settled : completion value)
  (st : AppState) : Prog AppState :=
  let '(c, st') :=
    try_catch_finally (on_response analysisId settled) (on_error analysisId)
      (setIsAnalyzing false) st in
  Done c st'.

(** The record of a new submission; [now_id] and [now_ts] are the two
    readings of [Date.now()]. *)
Definition newAnalysis (now_id now_ts : Z) (currentProblem : jsstring)
  : AnalysisItem :=
  {| id := Number_toString now_id;
     problem := currentProblem;
     timestamp := now_ts;
     confidence := ZERO;
     status := in_progress;
     result := None;
     topic := Some (extractTopic currentProblem) |}.

Definition handleAnalyze (now_id now_ts : Z) (st : AppState) : Prog AppState :=
  if rejects (currentProblem st) then
    let '(c, st') := alert MIN_LENGTH_ALERT st in Done c st'
  else
    let analysisId := Number_toString now_id in
    let '(_, st') :=
      (setIsAnalyzing true ;;
       setCurrentAnalysis None ;;
       setAnalysisHistory (append (newAnalysis now_id now_ts (currentProblem st))))
        st in
    Await [VStr REASONING_ORCHESTRATOR_ID; VStr (currentProblem st); VArr []]
      st' (resume_analysis analysisId).

(** The state while the gateway call is awaited: the new record is at the
    head of the history, in progress. *)
Definition awaiting (now_id now_ts : Z) (st : AppState) : AppState :=
  {| analysisHistory :=
       append (newAnalysis now_id now_ts (currentProblem st)) (analysisHistory st);
     currentProblem := currentProblem st;
     isAnalyzing := true;
     currentAnalysis := None;
     alerts := alerts st |}.

(** The state behind the [catch] and [finally] blocks. *)
Definition failed_state (analysisId : jsstring) (st : AppState) : AppState :=
  {| analysisHistory := updateById analysisId failed_patch (analysisHistory st);
     currentProblem := currentProblem st;
     isAnalyzing := false;
     currentAnalysis := currentAnalysis st;
     alerts := FAILED_ALERT :: alerts st |}.

(** The state behind a [try] block that ran to its end, and [finally]. *)
Definition completed_state (analysisId : jsstring) (parsedResult conf : value)
  (st : AppState) : AppState :=
  {| analysisHistory :=
       updateById analysisId (completed_patch parsedResult conf) (analysisHistory st);
     currentProblem := currentProblem st;
     isAnalyzing := false;
     currentAnalysis := Some parsedResult;
     alerts := alerts st |}.

Definition orchestrator_call (st : AppState) : list value :=
  [VStr REASONING_ORCHESTRATOR_ID; VStr (currentProblem st); VArr []].

(** ** The rest of the component [ReasonForgeAI] (page.tsx)

    The state cells beside those of the analysis handler.  The cell behind
    [setIsChallenging] is declared as [isChallengng] in the source, and the
    render reads [isChallenging]: see [render_modal] below. *)

Inductive View : Type := dashboard | workspace.

Record PageState : Type := {
  analysis : AppState;
  view : View;
  searchQuery : jsstring;
  showChallengeModal : bool;
  challengeResult : value;
  selectedConclusion : jsstring;
  isChallengng : bool
}.

(** A step of the analysis cells, as a step of the page. *)
Definition on_analysis (m : M AppState unit) : M PageState unit :=
  fun pg =>
    let '(c, st) := m (analysis pg) in
    (c, {| analysis := st; view := view pg; searchQuery := searchQuery pg;
           showChallengeModal := showChallengeModal pg;
           challengeResult := challengeResult pg;
           selectedConclusion := selectedConclusion pg;
           isChallengng := isChallengng pg |}).

Definition setView (v : View) : M PageState unit :=
  modify (fun pg =>
    {| analysis := analysis pg; view := v; searchQuery := searchQuery pg;
       showChallengeModal := showChallengeModal pg;
       challengeResult := challengeResult pg;
       selectedConclusion := selectedConclusion pg;
       isChallengng := isChallengng pg |}).

Definition setShowChallengeModal (b : bool) : M PageState unit :=
  modify (fun pg =>
    {| analysis := analysis pg; view := view pg; searchQuery := searchQuery pg;
       showChallengeModal := b;
       challengeResult := challengeResult pg;
       selectedConclusion := selectedConclusion pg;
       isChallengng := isChallengng pg |}).

Definition setChallengeResult (r : value) : M PageState unit :=
  modify (fun pg =>
    {| analysis := analysis pg; view := view pg; searchQuery := searchQuery pg;
       showChallengeModal := showChallengeModal pg;
       challengeResult := r;
       selectedConclusion := selectedConclusion pg;
       isChallengng := isChallengng pg |}).

Definition setSelectedConclusion (c : jsstring) : M PageState unit :=
  modify (fun pg =>
    {| analysis := analysis pg; view := view pg; searchQuery := searchQuery pg;
       showChallengeModal := showChallengeModal pg;
       challengeResult := challengeResult pg;
       selectedConclusion := c;
       isChallengng := isChallengng pg |}).

Definition setIsChallenging (b : bool) : M PageState unit :=
  modify (fun pg =>
    {| analysis := analysis pg; view := view pg; searchQuery := searchQuery pg;
       showChallengeModal := showChallengeModal pg;
       challengeResult := challengeResult pg;
       selectedConclusion := selectedConclusion pg;
       isChallengng := b |}).

(** *** [handleChallenge] *)

Definition REASONING_CHALLENGER_ID : jsstring := lit "69858572ab4bf65a66ad076c".

Definition CHALLENGE_FAILED_ALERT : jsstring :=
  lit "Challenge failed. Please try again.".

(** The template literal of the prompt: the conclusion in double quotes, an
    empty line, the problem. *)
Definition challengePrompt (conclusion currentProblem : jsstring) : jsstring :=
  jlit "Challenge this conclusion: '" ++ conclusion ++ jlit "'" ++ [LF; LF] ++
  lit "Original problem: " ++ currentProblem.

Definition challenger_call (conclusion : jsstring) (pg : PageState) : list value :=
  [VStr REASONING_CHALLENGER_ID;
   VStr (challengePrompt conclusion (currentProblem (analysis pg)));
   VArr []].

(** The [try] block behind the [await]. *)
Definition on_challenge_response (settled : completion value) : M PageState unit :=
  let* response := lift settled in
  let* parsedResult := lift (normalize response) in
  setChallengeResult parsedResult.

(** The handler from the [await] on. *)
Definition resume_challenge (settled : completion value) (pg : PageState)
  : Prog PageState :=
  let '(c, pg') :=
    try_catch_finally (on_challenge_response settled)
      (fun _ => on_analysis (alert CHALLENGE_FAILED_ALERT))
      (setIsChallenging false) pg in
  Done c pg'.

Definition handleChallenge (conclusion : jsstring) (pg : PageState)
  : Prog PageState :=
  let '(_, pg') :=
    (setSelectedConclusion conclusion ;;
     setShowChallengeModal true ;;
     setIsChallenging true ;;
     setChallengeResult VNull) pg in
  Await (challenger_call conclusion pg) pg' resume_challenge.

(** The state while the challenger is awaited. *)
Definition challenging (conclusion : jsstring) (pg : PageState) : PageState :=
  {| analysis := analysis pg; view := view pg; searchQuery := searchQuery pg;
     showChallengeModal := true;
     challengeResult := VNull;
     selectedConclusion := conclusion;
     isChallengng := true |}.

(** The state behind a [try] block that ran to its end, and [finally]. *)
Definition challenge_shown (parsedResult : value) (pg : PageState) : PageState :=
  {| analysis := analysis pg; view := view pg; searchQuery := searchQuery pg;
     showChallengeModal := showChallengeModal pg;
     challengeResult := parsedResult;
     selectedConclusion := selectedConclusion pg;
     isChallengng := false |}.

(** The state behind the [catch] and [finally] blocks. *)
Definition challenge_failed (pg : PageState) : PageState :=
  {| analysis := snd (alert CHALLENGE_FAILED_ALERT (analysis pg));
     view := view pg; searchQuery := searchQuery pg;
     showChallengeModal := showChallengeModal pg;
     challengeResult := challengeResult pg;
     selectedConclusion := selectedConclusion pg;
     isChallengng := false |}.

(** *** The render of the challenge modal

    [{showChallengeModal && (<ChallengeModal selectedConclusion={selectedConclusion}
      isChallenging={isChallenging} challengeResult={challengeResult} onClose={...} />)}]

    When the guard is true the props are evaluated.  The component declares
    the cell as [isChallengng]; no [isChallenging] is declared in its scope,
    imported or global, so reading it throws a ReferenceError. *)
Inductive Rendering : Type :=
| Rendered
| ReferenceError (name : jsstring).

Definition render_modal (pg : PageState) : Rendering :=
  if showChallengeModal pg then ReferenceError (lit "isChallenging") else Rendered.

(** The component between two events, as far as the modal goes: mounted with
    its state, or taken down by a render that threw.  The sources have no
    error boundary: React takes down a component whose render throws, with
    its state, and ignores the setters called on it afterwards; what [alert]
    has shown stays shown. *)
Inductive Lifecycle : Type :=
| Mounted (pg : PageState)
| Unmounted (shown : list jsstring).

(** The render behind an event that set a state. *)
Definition commit (pg : PageState) : Lifecycle :=
  match render_modal pg with
  | Rendered => Mounted pg
  | ReferenceError _ => Unmounted (alerts (analysis pg))
  end.

(** What the setters of an unmounted component write to: a state of which
    only the alerts are kept. *)
Definition dropped (shown : list jsstring) : PageState :=
  {| analysis :=
       {| analysisHistory := []; currentProblem := []; isAnalyzing := false;
          currentAnalysis := None; alerts := shown |};
     view := dashboard; searchQuery := [];
     showChallengeModal := false; challengeResult := VNull;
     selectedConclusion := []; isChallengng := false |}.

(** The rest of a handler, run when its call settles, on the component as
    it is by then. *)
Definition settle (k : completion value -> PageState -> Prog PageState)
  (settled : completion value) (l : Lifecycle) : Lifecycle :=
  match l with
  | Mounted pg =>
      match k settled pg with
      | Done _ pg' | Await _ pg' _ => commit pg'
      end
  | Unmounted shown =>
      match k settled (dropped shown) with
      | Done _ pg' | Await _ pg' _ => Unmounted (alerts (analysis pg'))
      end
  end.

(** A click on a challenge button: the handler up to its [await] (the call
    is made), the render of the state it has set, and the rest of the
    handler when the call settles. *)
Definition challenge (gateway : list value -> completion value)
  (conclusion : jsstring) (pg : PageState) : Lifecycle * list (list value) :=
  match handleChallenge conclusion pg with
  | Await args pg1 k => (settle k (gateway args) (commit pg1), [args])
  | Done _ pg1 => (commit pg1, [])
  end.

(** *** The dashboard *)

(** The [onClick] of a history card. *)
Definition openAnalysis (item : AnalysisItem) : M PageState unit :=
  match result item with
  | Some r =>
      if truthy r then
        on_analysis (setCurrentProblem (problem item)) ;;
        on_analysis (setCurrentAnalysis (Some r)) ;;
        setView workspace
      else ret tt
  | None => ret tt
  end.

(** The callback of [filteredHistory]; an absent topic gives [undefined],
    which the filter takes as false. *)
Definition matches (searchQuery : jsstring) (item : AnalysisItem) : bool :=
  includes (toLowerCase searchQuery) (toLowerCase (problem item)) ||
  match topic item with
  | Some t => includes (toLowerCase searchQuery) (toLowerCase t)
  | None => false
  end.

Definition filteredHistory (analysisHistory : list AnalysisItem)
  (searchQuery : jsstring) : list AnalysisItem :=
  List.filter (matches searchQuery) analysisHistory.

Definition topic_eqb (a b : option jsstring) : bool :=
  match a, b with
  | Some x, Some y => jsstring_eqb x y
  | None, None => true
  | _, _ => false
  end.

(** [Array.from(new Set(l))]: the first occurrence of every element, in the
    order of the list; [seen] holds the elements met so far. *)
Fixpoint Set_from (seen l : list (option jsstring)) : list (option jsstring) :=
  match l with
  | [] => []
  | x :: t =>
      if existsb (topic_eqb x) seen then Set_from seen t
      else x :: Set_from (x :: seen) t
  end.

(** [Boolean] on a topic: [undefined] and the empty string are dropped. *)
Definition Boolean_topic (o : option jsstring) : bool :=
  match o with
  | Some t => truthy (VStr t)
  | None => false
  end.

Definition topTopics (analysisHistory : list AnalysisItem)
  : list (option jsstring) :=
  firstn 3 (Set_from [] (List.filter Boolean_topic (List.map topic analysisHistory))).

(** Code units of the ASCII range, where [toLowerCase] and [toUpperCase] are
    the maps on the letters. *)
Definition is_ascii (s : jsstring) : bool := forallb (fun c => (c <? 128)%N) s.

(** A keyword without a space. *)
Definition spaceless (k : jsstring) : bool := forallb (fun c => negb (c =? 32)%N) k.

(** ** The decomposed variant: component [ReasonForge] (part_000) *)

Module ReasonForge.

(** [AnalysisHistory] *)
Record AnalysisHistory : Type := {
  id : jsstring;
  problem : jsstring;
  date : jsstring;
  confidence : value;
  status : Status;
  causalAnalysis : option value;
  validation : option value;
  uncertainty : option value
}.

Record State : Type := {
  history : list AnalysisHistory;
  currentAnalysis : option AnalysisHistory;
  problemInput : jsstring;
  isAnalyzing : bool;
  analysisStep : jsstring
}.

Definition AGENT_causalAnalysis : jsstring := lit "698584ddc613a65b3c4193c4".
Definition AGENT_commonSenseValidator : jsstring := lit "698584fc49f279d47448a5b9".
Definition AGENT_uncertaintyQuantifier : jsstring := lit "69858517ab4bf65a66ad0765".

(** [parseAgentResponse]: [response.result] if truthy, else [null]; a
    TypeError on an absent or null [response] is caught and gives [null]. *)
Definition parseAgentResponse (response : option value) : value :=
  match response with
  | None => VNull
  | Some r =>
      match get_prop r (lit "result") with
      | Normal (Some x) => if truthy x then x else VNull
      | _ => VNull
      end
  end.

Definition with_status (a : AnalysisHistory) (s : Status) : AnalysisHistory :=
  {| id := id a; problem := problem a; date := date a;
     confidence := confidence a; status := s;
     causalAnalysis := causalAnalysis a; validation := validation a;
     uncertainty := uncertainty a |}.

Definition setAnalysisStep (s : jsstring) (st : State) : State :=
  {| history := history st; currentAnalysis := currentAnalysis st;
     problemInput := problemInput st; isAnalyzing := isAnalyzing st;
     analysisStep := s |}.

Definition setIsAnalyzing (b : bool) (st : State) : State :=
  {| history := history st; currentAnalysis := currentAnalysis st;
     problemInput := problemInput st; isAnalyzing := b;
     analysisStep := analysisStep st |}.

Definition setCurrentAnalysis (a : AnalysisHistory) (st : State) : State :=
  {| history := history st; currentAnalysis := Some a;
     problemInput := problemInput st; isAnalyzing := isAnalyzing st;
     analysisStep := analysisStep st |}.

(** [setHistory(prev => [newAnalysis, ...prev])] *)
Definition prepend (a : AnalysisHistory) (st : State) : State :=
  {| history := a :: history st; currentAnalysis := currentAnalysis st;
     problemInput := problemInput st; isAnalyzing := isAnalyzing st;
     analysisStep := analysisStep st |}.

(** [finally { setIsAnalyzing(false); setAnalysisStep('') }] *)
Definition finally (st : State) : State := setAnalysisStep [] (setIsAnalyzing false st).

(** [catch]: the record is marked failed and shown; it is not stored. *)
Definition failed_run (newAnalysis : AnalysisHistory) (st : State) : Prog State :=
  Done (Normal tt) (finally (setCurrentAnalysis (with_status newAnalysis failed) st)).

(** The settled response, if [response.success] is truthy; a TypeError
    when the gateway resolved with [null]. *)
Definition successful (settled : completion value) : completion (option value) :=
  match settled with
  | Throw e => Throw e
  | Normal r =>
      match get_prop r (lit "success") with
      | Throw e => Throw e
      | Normal (Some ok) => Normal (if truthy ok then Some r else None)
      | Normal None => Normal None
      end
  end.

(** [parseAgentResponse(r.response)] *)
Definition payload (r : value) : value :=
  match get_prop r (lit "response") with
  | Normal o => parseAgentResponse o
  | Throw _ => VNull
  end.

Definition step3 (newAnalysis : AnalysisHistory) (settled : completion value)
  (st : State) : Prog State :=
  match successful settled with
  | Throw _ => failed_run newAnalysis st
  | Normal None =>
      let final := with_status newAnalysis completed in
      Done (Normal tt) (finally (prepend final (setCurrentAnalysis final st)))
  | Normal (Some r) =>
      let uncertaintyData := payload r in
      let a1 :=
        {| id := id newAnalysis; problem := problem newAnalysis;
           date := date newAnalysis; confidence := confidence newAnalysis;
           status := status newAnalysis;
           causalAnalysis := causalAnalysis newAnalysis;
           validation := validation newAnalysis;
           uncertainty := Some uncertaintyData |} in
      match get_prop uncertaintyData (lit "overall_confidence") with
      | Throw _ => failed_run a1 st
      | Normal oc =>
          let final :=
            {| id := id a1; problem := problem a1; date := date a1;
               confidence := or_zero oc; status := completed;
               causalAnalysis := causalAnalysis a1;
               validation := validation a1; uncertainty := uncertainty a1 |} in
          Done (Normal tt) (finally (prepend final (setCurrentAnalysis final st)))
      end
  end.

Definition step2 (problemInput : jsstring) (newAnalysis : AnalysisHistory)
  (settled : completion value) (st : State) : Prog State :=
  match successful settled with
  | Throw _ => failed_run newAnalysis st
  | Normal o =>
      let a1 :=
        match o with
        | Some r =>
            {| id := id newAnalysis; problem := problem newAnalysis;
               date := date newAnalysis; confidence := confidence newAnalysis;
               status := status newAnalysis;
               causalAnalysis := causalAnalysis newAnalysis;
               validation := Some (payload r);
               uncertainty := uncertainty newAnalysis |}
        | None => newAnalysis
        end in
      Await [VStr (lit "Quantify the uncertainty in this analysis: " ++ problemInput);
             VStr AGENT_uncertaintyQuantifier]
        (setAnalysisStep (lit "Quantifying uncertainty...") st)
        (step3 a1)
  end.

Definition step1 (problemInput : jsstring) (newAnalysis : AnalysisHistory)
  (settled : completion value) (st : State) : Prog State :=
  match successful settled with
  | Throw _ => failed_run newAnalysis st
  | Normal o =>
      let a1 :=
        match o with
        | Some r =>
            {| id := id newAnalysis; problem := problem newAnalysis;
               date := date newAnalysis; confidence := confidence newAnalysis;
               status := status newAnalysis;
               causalAnalysis := Some (payload r);
               validation := validation newAnalysis;
               uncertainty := uncertainty newAnalysis |}
        | None => newAnalysis
        end in
      Await [VStr (lit "Validate the reasoning in this problem: " ++ problemInput);
             VStr AGENT_commonSenseValidator]
        (setAnalysisStep (lit "Validating logical consistency...") st)
        (step2 problemInput a1)
  end.

(** [runAnalysis]; [now] is [Date.now()], [iso] is [new Date().toISOString()]. *)
Definition runAnalysis (now : Z) (iso : jsstring) (st : State) : Prog State :=
  if negb (truthy (VStr (trim (problemInput st)))) then Done (Normal tt) st
  else
    let newAnalysis :=
      {| id := Number_toString now; problem := problemInput st; date := iso;
         confidence := ZERO; status := in_progress;
         causalAnalysis := None; validation := None; uncertainty := None |} in
    Await [VStr (lit "Analyze the causal relationships in this problem: "
                 ++ problemInput st);
           VStr AGENT_causalAnalysis]
      (setAnalysisStep (lit "Analyzing causal relationships...") (setIsAnalyzing true st))
      (step1 (problemInput st) newAnalysis).

(** *** The history in storage *)

Definition HISTORY_KEY : jsstring := lit "reasonforge-history".

Definition status_text (s : Status) : jsstring :=
  match s with
  | completed => lit "completed"
  | in_progress => lit "in-progress"
  | failed => lit "failed"
  end.

Definition status_of_text (s : jsstring) : option Status :=
  if jsstring_eqb s (lit "completed") then Some completed
  else if jsstring_eqb s (lit "in-progress") then Some in_progress
  else if jsstring_eqb s (lit "failed") then Some failed
  else None.

Definition optional (key : jsstring) (o : option value) : list (jsstring * value) :=
  match o with
  | Some v => [(key, v)]
  | None => []
  end.

(** The record as the object the engine holds: the properties of the literal,
    then those assigned by the steps of [runAnalysis], in their order. *)
Definition toJS (a : AnalysisHistory) : value :=
  VObj ([ (lit "id", VStr (id a));
          (lit "problem", VStr (problem a));
          (lit "date", VStr (date a));
          (lit "confidence", confidence a);
          (lit "status", VStr (status_text (status a))) ]
        ++ optional (lit "causalAnalysis") (causalAnalysis a)
        ++ optional (lit "validation") (validation a)
        ++ optional (lit "uncertainty") (uncertainty a)).

Definition toJS_history (h : list AnalysisHistory) : value :=
  VArr (List.map toJS h).

Definition fromJS (v : value) : option AnalysisHistory :=
  match v with
  | VObj members =>
      match get_member (lit "id") members,
            get_member (lit "problem") members,
            get_member (lit "date") members,
            get_member (lit "confidence") members,
            get_member (lit "status") members with
      | Some (VStr i), Some (VStr p), Some (VStr d), Some c, Some (VStr s) =>
          match status_of_text s with
          | Some st =>
              Some {| id := i; problem := p; date := d; confidence := c;
                      status := st;
                      causalAnalysis := get_member (lit "causalAnalysis") members;
                      validation := get_member (lit "validation") members;
                      uncertainty := get_member (lit "uncertainty") members |}
          | None => None
          end
      | _, _, _, _, _ => None
      end
  | _ => None
  end.

Fixpoint fromJS_items (l : list value) : option (list AnalysisHistory) :=
  match l with
  | [] => Some []
  | v :: rest =>
      match fromJS v, fromJS_items rest with
      | Some a, Some items => Some (a :: items)
      | _, _ => None
      end
  end.

Definition fromJS_history (v : value) : option (list AnalysisHistory) :=
  match v with
  | VArr l => fromJS_items l
  | _ => None
  end.

Definition wf_optional (o : option value) : bool :=
  match o with
  | Some v => wf_value v
  | None => true
  end.

Definition wf_record (a : AnalysisHistory) : bool :=
  wf_value (confidence a) && wf_optional (causalAnalysis a) &&
  wf_optional (validation a) && wf_optional (uncertainty a).

(** The save effect: [localStorage.setItem(KEY, JSON.stringify(history))],
    whatever the history. *)
Definition saveEffect (history : list AnalysisHistory) (storage : Storage)
  : Storage :=
  <[HISTORY_KEY := JSON_stringify (toJS_history history)]> storage.

(** The load effect: the value handed to [setHistory], if it is called. *)
Definition loadEffect (storage : Storage) : option value :=
  match storage !! HISTORY_KEY with
  | Some saved =>
      if truthy (VStr saved) then
        match JSON_parse saved with
        | Normal v => Some v
        | Throw _ => None
        end
      else None
  | None => None
  end.

(** Startup: the load effect, the save effect of the first render (with the
    initial [[]]) and, when a history was loaded, the save effect again.
    The history is [None] when what was loaded is not an array of records. *)
Definition mount (storage : Storage)
  : option (list AnalysisHistory) * Storage :=
  let storage1 := saveEffect [] storage in
  match loadEffect storage with
  | None => (Some [], storage1)
  | Some v =>
      match fromJS_history v with
      | Some h => (Some h, saveEffect h storage1)
      | None => (None, storage1)
      end
  end.

(** *** The rest of the component state *)

Inductive View : Type := dashboard | analysis.

Record ChallengeModal : Type := {
  isOpen : bool;
  claim : jsstring;
  response : value
}.

Record Page : Type := {
  run : State;
  view : View;
  searchQuery : jsstring;
  challengeModal : ChallengeModal;
  challengeLoading : bool
}.

Definition AGENT_reasoningChallenger : jsstring := lit "69858572ab4bf65a66ad076c".

Definition setChallengeLoading (b : bool) (pg : Page) : Page :=
  {| run := run pg; view := view pg; searchQuery := searchQuery pg;
     challengeModal := challengeModal pg; challengeLoading := b |}.

Definition setChallengeModal (f : ChallengeModal -> ChallengeModal) (pg : Page)
  : Page :=
  {| run := run pg; view := view pg; searchQuery := searchQuery pg;
     challengeModal := f (challengeModal pg);
     challengeLoading := challengeLoading pg |}.

Definition setView (v : View) (pg : Page) : Page :=
  {| run := run pg; view := v; searchQuery := searchQuery pg;
     challengeModal := challengeModal pg;
     challengeLoading := challengeLoading pg |}.

Definition on_run (f : State -> State) (pg : Page) : Page :=
  {| run := f (run pg); view := view pg; searchQuery := searchQuery pg;
     challengeModal := challengeModal pg;
     challengeLoading := challengeLoading pg |}.

Definition challenge_call (claim : jsstring) : list value :=
  [VStr (lit "Challenge this claim and provide alternative explanations: " ++ claim);
   VStr AGENT_reasoningChallenger].

(** [challengeClaim] from the [await] on. *)
Definition resume_challengeClaim (settled : completion value) (pg : Page)
  : Prog Page :=
  match successful settled with
  | Normal (Some r) =>
      Done (Normal tt)
        (setChallengeLoading false
           (setChallengeModal
              (fun prev => {| isOpen := isOpen prev; claim := claim prev;
                              response := payload r |}) pg))
  | Normal None | Throw _ => Done (Normal tt) (setChallengeLoading false pg)
  end.

Definition challengeClaim (claim : jsstring) (pg : Page) : Prog Page :=
  Await (challenge_call claim)
    (setChallengeModal
       (fun _ => {| isOpen := true; claim := claim; response := VNull |})
       (setChallengeLoading true pg))
    resume_challengeClaim.

(** The [onClose] of the challenge dialog. *)
Definition closeChallenge (pg : Page) : Page :=
  setChallengeModal (fun _ => {| isOpen := false; claim := []; response := VNull |}) pg.

(** [viewAnalysis] *)
Definition viewAnalysis (a : AnalysisHistory) (pg : Page) : Page :=
  on_run (fun st =>
    {| history := history st; currentAnalysis := currentAnalysis st;
       problemInput := problem a;
       isAnalyzing := isAnalyzing st; analysisStep := analysisStep st |})
    (setView analysis (on_run (setCurrentAnalysis a) pg)).

Definition totalAnalyses (history : list AnalysisHistory) : nat := length history.

Definition completedCount (history : list AnalysisHistory) : nat :=
  length (List.filter (fun a => Status_eqb (status a) completed) history).

End ReasonForge.

(** ** The status invariant

    The component, the storage and the handler runs that are suspended at
    their [await].  A run is started by [handleAnalyze] and ended by the
    gateway settling its call, in any order; the user may edit the problem
    text in between; the save effect follows every change of the history; a
    reload starts the component again from the storage and drops the
    suspended runs.  [Date.now()] is taken to give an id that no record has
    yet, and the slot to be absent on a device that has not run the component. *)

Abbreviation continuation := (completion value -> AppState -> Prog AppState).

Definition fresh (analysisId : jsstring) (st : AppState) : Prop :=
  ~ In analysisId (List.map id (analysisHistory st)).

Record System : Type := {
  sys_app : AppState;
  sys_storage : Storage;
  sys_suspended : list continuation
}.

(** The component state of a start at which the load effect set [h]. *)
Definition restart (h : list AnalysisItem) : AppState :=
  {| analysisHistory := h; currentProblem := []; isAnalyzing := false;
     currentAnalysis := None; alerts := [] |}.

(** What the gateway hands over is a value as the engine holds it. *)
Definition engine_value (settled : completion value) : Prop :=
  match settled with
  | Normal v => wf_value v = true
  | Throw _ => True
  end.

Inductive reachable : System -> Prop :=
| reach_start (s : Storage) :
    s !! HISTORY_KEY = None ->
    reachable {| sys_app := initialState; sys_storage := s; sys_suspended := [] |}
| reach_edit sys text :
    reachable sys ->
    reachable {| sys_app := snd (setCurrentProblem text (sys_app sys));
                 sys_storage := sys_storage sys; sys_suspended := sys_suspended sys |}
| reach_rejected sys now_id now_ts c st' :
    reachable sys ->
    handleAnalyze now_id now_ts (sys_app sys) = Done c st' ->
    reachable {| sys_app := st'; sys_storage := sys_storage sys;
                 sys_suspended := sys_suspended sys |}
| reach_submitted sys now_id now_ts args st' k :
    reachable sys ->
    fresh (Number_toString now_id) (sys_app sys) ->
    handleAnalyze now_id now_ts (sys_app sys) = Await args st' k ->
    reachable {| sys_app := st';
                 sys_storage := saveEffect (analysisHistory st') (sys_storage sys);
                 sys_suspended := k :: sys_suspended sys |}
| reach_settled sys P1 k P2 settled c st' :
    reachable sys ->
    sys_suspended sys = P1 ++ k :: P2 ->
    engine_value settled ->
    k settled (sys_app sys) = Done c st' ->
    reachable {| sys_app := st';
                 sys_storage := saveEffect (analysisHistory st') (sys_storage sys);
                 sys_suspended := P1 ++ P2 |}
| reach_reload sys h s' :
    reachable sys ->
    mount (sys_storage sys) = Normal (Some h, s') ->
    reachable {| sys_app := restart h; sys_storage := s'; sys_suspended := [] |}.

Definition item_ok (item : AnalysisItem) : Prop :=
  match status item with
  | completed => result item <> None
  | in_progress | failed => result item = None
  end.

(** The slot holds the text of the history, once there is one. *)
Definition persisted (h : list AnalysisItem) (s : Storage) : Prop :=
  s !! HISTORY_KEY =
  match h with
  | [] => None
  | _ => Some (JSON_stringify (toJS_history h))
  end.

Definition invariant (sys : System) : Prop :=
  let h := analysisHistory (sys_app sys) in
  (exists ids,
      sys_suspended sys = List.map resume_analysis ids /\
      List.NoDup ids /\
      forall i, In i ids ->
        exists item, In item h /\ id item = i /\ status item = in_progress) /\
  List.NoDup (List.map id h) /\
  Forall item_ok h /\
  forallb wf_item h = true /\
  persisted h (sys_storage sys).

(** ** Sample data *)

Definition sample_result : value :=
  VObj [(lit "uncertainty_assessment",
         VObj [(lit "overall_confidence", VNum 72 0)])].

Definition sample_item : AnalysisItem :=
  {| id := lit "1700000000000";
     problem := lit "Why do employees leave companies?";
     timestamp := 1700000000000;
     confidence := VNum 72 0;
     status := completed;
     result := Some sample_result;
     topic := Some (lit "Employee") |}.

Definition sample_state : AppState :=
  {| analysisHistory := [sample_item];
     currentProblem := lit "Why do students drop out of school?";
     isAnalyzing := false;
     currentAnalysis := None;
     alerts := [] |}.

Definition short_state : AppState :=
  {| analysisHistory := []; currentProblem := lit "hello"; isAnalyzing := false;
     currentAnalysis := None; alerts := [] |}.

Definition blank_input : ReasonForge.State :=
  {| ReasonForge.history := []; ReasonForge.currentAnalysis := None;
     ReasonForge.problemInput := lit "   "; ReasonForge.isAnalyzing := false;
     ReasonForge.analysisStep := [] |}.

Definition short_input : ReasonForge.State :=
  {| ReasonForge.history := []; ReasonForge.currentAnalysis := None;
     ReasonForge.problemInput := lit "hello"; ReasonForge.isAnalyzing := false;
     ReasonForge.analysisStep := [] |}.

(** A gateway of the decomposed variant that answers every call with
    [{ success: false }]. *)
Definition unsuccessful (args : list value) : completion value :=
  Normal (VObj [(lit "success", VBool false)]).

Definition typed_state : AppState :=
  snd (setCurrentProblem (lit "Why do students drop out of school?") initialState).

Definition awaiting_system : System :=
  {| sys_app := awaiting 5 6 typed_state;
     sys_storage := saveEffect (analysisHistory (awaiting 5 6 typed_state)) ∅;
     sys_suspended := [resume_analysis (Number_toString 5)] |}.

(** Gateways that settle every call the same way. *)
Definition rejecting : list value -> completion value :=
  fun _ => Throw (Rejected VNull).

Definition answering (response : value) : list value -> completion value :=
  fun _ => Normal response.

Definition sample_page : PageState :=
  {| analysis := sample_state; view := dashboard; searchQuery := [];
     showChallengeModal := false; challengeResult := VNull;
     selectedConclusion := []; isChallengng := false |}.

Definition sample_run : ReasonForge.AnalysisHistory :=
  {| ReasonForge.id := lit "1700000000000";
     ReasonForge.problem := lit "Why do employees leave companies?";
     ReasonForge.date := lit "2023-11-14T22:13:20.000Z";
     ReasonForge.confidence := VNum 72 0;
     ReasonForge.status := completed;
     ReasonForge.causalAnalysis := Some VNull;
     ReasonForge.validation := None;
     ReasonForge.uncertainty :=
       Some (VObj [(lit "overall_confidence", VNum 72 0)]) |}.

Definition sample_variant_page : ReasonForge.Page :=
  {| ReasonForge.run :=
       {| ReasonForge.history := [sample_run];
          ReasonForge.currentAnalysis := None;
          ReasonForge.problemInput := [];
          ReasonForge.isAnalyzing := false;
          ReasonForge.analysisStep := [] |};
     ReasonForge.view := ReasonForge.dashboard;
     ReasonForge.searchQuery := [];
     ReasonForge.challengeModal :=
       {| ReasonForge.isOpen := false; ReasonForge.claim := []; ReasonForge.response := VNull |};
     ReasonForge.challengeLoading := false |}.

(** Five characters outside the Basic Multilingual Plane (U+1F600): ten
    code units. *)
Definition five_astral : jsstring :=
  [55357; 56832; 55357; 56832; 55357; 56832; 55357; 56832; 55357; 56832]%N.

(** The state behind a submission whose clock reading is the id of the
    record that [sample_state] holds, and whose call the gateway rejects. *)
Definition collided_state : AppState :=
  snd (fst (perform (fun _ => Throw (Rejected VNull))
              (handleAnalyze 1700000000000 1700000000002 sample_state))).

(** * Properties *)

(** ** Strings *)

Lemma jsstring_eqb_spec a b : reflect (a = b) (jsstring_eqb a b).
Proof.
  revert b; induction a as [|x a IH]; intros [|y b]; simpl;
    try (constructor; congruence).
  destruct (N.eqb_spec x y) as [->|Hne]; simpl.
  - destruct (IH b) as [->|Hne]; constructor; congruence.
  - constructor; congruence.
Qed.

Lemma jsstring_eqb_refl a : jsstring_eqb a a = true.
Proof. destruct (jsstring_eqb_spec a a); congruence. Qed.

(** ** Facts on fence removal *)

Lemma replace_fence_skip pat k s :
  replace_fence pat k s = replace_fence pat 0 (skipn k s).
Proof.
  revert k; induction s as [|c t IH]; intros [|k]; simpl; auto.
Qed.

(** The two equations of the global replace: a match is dropped whole... *)
Lemma replace_fence_match pat s :
  pat <> [] -> starts_with pat s = true ->
  replace_fence pat 0 s =
  replace_fence pat 0
    (skipn (length pat +
            (if starts_with [LF] (skipn (length pat) s) then 1 else 0)) s).
Proof.
  intros Hp Hs. destruct s as [|c t].
  - destruct pat; [congruence | discriminate].
  - cbn [replace_fence]. rewrite Hs, replace_fence_skip.
    destruct pat as [|p0 pat]; [congruence|].
    cbn [length]. rewrite Nat.sub_succ, Nat.sub_0_r. reflexivity.
Qed.

(** ... and any other code unit is kept. *)
Lemma replace_fence_keep pat c t :
  starts_with pat (c :: t) = false ->
  replace_fence pat 0 (c :: t) = c :: replace_fence pat 0 t.
Proof. intros H. simpl. rewrite H. reflexivity. Qed.

Lemma starts_with_prefix p q s :
  starts_with (p ++ q) s = true -> starts_with p s = true.
Proof.
  revert s; induction p as [|a p IH]; intros [|b s]; simpl; auto.
  intros H. apply andb_true_iff in H as [-> H]. simpl. eauto.
Qed.

Lemma FENCE_units : FENCE = [96; 96; 96]%N.
Proof. reflexivity. Qed.

Lemma FENCE_JSON_units : FENCE_JSON = FENCE ++ lit "json".
Proof. reflexivity. Qed.

(** A fence cannot start in front of a line feed that comes within two code
    units. *)
Lemma no_fence_across c doc r :
  starts_with FENCE (c :: doc) = false ->
  starts_with FENCE (c :: doc ++ LF :: r) = false.
Proof.
  rewrite FENCE_units. intros Hc.
  destruct doc as [|d [|d' doc]]; cbn [starts_with app] in *;
    rewrite ?andb_false_r; auto.
Qed.

(** A text without three consecutive backticks is left alone by both
    replacements, also when a line feed and more text follow. *)
Lemma replace_fence_json_id doc r :
  includes FENCE doc = false ->
  replace_fence FENCE_JSON 0 (doc ++ LF :: r) =
  doc ++ LF :: replace_fence FENCE_JSON 0 r.
Proof.
  intros Hdoc. induction doc as [|c doc IH]; cbn [app].
  - rewrite replace_fence_keep; reflexivity.
  - cbn [includes] in Hdoc. apply orb_false_iff in Hdoc as [Hc Hdoc].
    rewrite replace_fence_keep, IH; auto.
    destruct (starts_with FENCE_JSON (c :: doc ++ LF :: r)) eqn:E; auto.
    rewrite FENCE_JSON_units in E. apply starts_with_prefix in E.
    rewrite no_fence_across in E; auto.
Qed.

Lemma replace_fence_id doc r :
  includes FENCE doc = false ->
  replace_fence FENCE 0 (doc ++ LF :: r) = doc ++ LF :: replace_fence FENCE 0 r.
Proof.
  intros Hdoc. induction doc as [|c doc IH]; cbn [app].
  - rewrite replace_fence_keep; reflexivity.
  - cbn [includes] in Hdoc. apply orb_false_iff in Hdoc as [Hc Hdoc].
    rewrite replace_fence_keep, IH; auto using no_fence_across.
Qed.

(** What [cleanJson] computes on a fenced document free of backtick triples:
    the document and the line feed in front of the closing fence. *)
Lemma cleanJson_fenced tagged doc :
  includes FENCE doc = false ->
  cleanJson (fenced tagged doc) = trim (doc ++ [LF]).
Proof.
  intros Hdoc. unfold cleanJson, fenced. f_equal.
  destruct tagged.
  - rewrite (replace_fence_match FENCE_JSON) by (reflexivity || discriminate).
    change (skipn _ (FENCE_JSON ++ [LF] ++ doc ++ [LF] ++ FENCE))
      with (doc ++ LF :: FENCE).
    rewrite replace_fence_json_id by assumption.
    change (replace_fence FENCE_JSON 0 FENCE) with FENCE.
    rewrite replace_fence_id by assumption. reflexivity.
  - change (FENCE ++ [LF] ++ doc ++ [LF] ++ FENCE)
      with (96 :: 96 :: 96 :: LF :: doc ++ LF :: FENCE)%N.
    do 4 (rewrite (replace_fence_keep FENCE_JSON) by reflexivity).
    rewrite replace_fence_json_id by assumption.
    change (replace_fence FENCE_JSON 0 FENCE) with FENCE.
    change (96 :: 96 :: 96 :: LF :: doc ++ LF :: FENCE)%N
      with (FENCE ++ [LF] ++ doc ++ [LF] ++ FENCE).
    rewrite (replace_fence_match FENCE) by (reflexivity || discriminate).
    change (skipn _ (FENCE ++ [LF] ++ doc ++ [LF] ++ FENCE))
      with (doc ++ LF :: FENCE).
    rewrite replace_fence_id by assumption. reflexivity.
Qed.

(** ** White space around a JSON text *)

(** Case analysis on the comparisons of a code unit with constants. *)
Ltac cmp_units :=
  repeat match goal with
    | |- context [N.eqb ?a ?b] =>
        destruct (N.eqb_spec a b); [subst; try discriminate; try lia|]
    | |- context [N.leb ?a ?b] => destruct (N.leb_spec a b); try lia
    | |- context [N.ltb ?a ?b] => destruct (N.ltb_spec a b); try lia
    end.

Lemma isWhiteSpace_cases c :
  isWhiteSpace c = true ->
  (c = 9 \/ c = 10 \/ c = 11 \/ c = 12 \/ c = 13 \/ c = 32 \/ c = 160 \/
   c = 5760 \/ (8192 <= c <= 8202) \/ c = 8232 \/ c = 8233 \/ c = 8239 \/
   c = 8287 \/ c = 12288 \/ c = 65279)%N.
Proof.
  unfold isWhiteSpace. cmp_units; simpl; try discriminate; lia.
Qed.

Lemma json_ws_isWhiteSpace c : json_ws c = true -> isWhiteSpace c = true.
Proof.
  unfold json_ws, isWhiteSpace. cmp_units; simpl; try discriminate; reflexivity.
Qed.

(** Between tokens, white space is skipped when JSON knows it and refused
    otherwise. *)
Lemma idle_step_ws toks c :
  isWhiteSpace c = true ->
  idle_step toks c = if json_ws c then Some (toks, Idle) else None.
Proof.
  intros H. apply isWhiteSpace_cases in H.
  unfold idle_step. destruct (json_ws c) eqn:E; [reflexivity|].
  unfold is_digit. cmp_units; simpl; try reflexivity; exfalso; lia.
Qed.

Lemma in_number_ws m c : isWhiteSpace c = true -> in_number m c = None.
Proof.
  intros H. apply isWhiteSpace_cases in H.
  destruct m; simpl; try reflexivity; unfold is_digit, is_exp;
    cmp_units; simpl; try reflexivity; exfalso; lia.
Qed.

Lemma keyword_unit_not_ws kw pos x :
  nth_error (keyword_text kw) pos = Some x -> isWhiteSpace x = false.
Proof.
  destruct kw; do 6 (try destruct pos as [|pos]); simpl;
    intros H; inversion H; reflexivity.
Qed.

(** A white-space unit in front of the end of an accepted text adds nothing
    to its tokens. *)
Lemma step_ws_finish st c st' ts :
  isWhiteSpace c = true -> step st c = Some st' -> finish st' = Some ts ->
  finish st = Some ts.
Proof.
  intros Hws Hstep Hfin. destruct st as [toks m].
  pose proof (isWhiteSpace_cases c Hws) as Hc.
  destruct m; unfold step in Hstep;
    try (rewrite in_number_ws in Hstep by assumption; cbn [close] in Hstep;
         try discriminate;
         rewrite idle_step_ws in Hstep by assumption;
         destruct (json_ws c); inversion Hstep; subst; exact Hfin).
  - rewrite idle_step_ws in Hstep by assumption.
    destruct (json_ws c); inversion Hstep; subst; exact Hfin.
  - revert Hstep. cmp_units; intros Hstep; inversion Hstep; subst;
      simpl in Hfin; discriminate.
  - revert Hstep. unfold unescape. cmp_units; discriminate.
  - revert Hstep. unfold hex_val, is_digit. cmp_units; simpl; discriminate.
  - destruct (nth_error (keyword_text kw) pos) as [x|] eqn:E; [|discriminate].
    apply keyword_unit_not_ws in E.
    destruct (N.eqb_spec c x); [congruence | discriminate].
Qed.

Lemma step_json_ws st c ts :
  json_ws c = true -> finish st = Some ts ->
  exists st', step st c = Some st' /\ finish st' = Some ts.
Proof.
  intros Hws Hfin. destruct st as [toks m].
  pose proof (json_ws_isWhiteSpace c Hws) as Hw.
  destruct m; simpl in Hfin; try discriminate; unfold step;
    rewrite ?in_number_ws by assumption; cbn [close];
    rewrite idle_step_ws, Hws by assumption; eauto.
Qed.

Lemma run_snoc st s c :
  run st (s ++ [c]) =
  match run st s with
  | Some st' => step st' c
  | None => None
  end.
Proof.
  revert st; induction s as [|x s IH]; intros st; simpl.
  - destruct (step st c); reflexivity.
  - destruct (step st x); auto.
Qed.

Lemma lex_ws_cons c s ts :
  isWhiteSpace c = true -> lex (c :: s) = Some ts -> lex s = Some ts.
Proof.
  unfold lex. simpl. intros Hws. rewrite idle_step_ws by assumption.
  destruct (json_ws c); [auto | discriminate].
Qed.

Lemma lex_ws_snoc c s ts :
  isWhiteSpace c = true -> lex (s ++ [c]) = Some ts -> lex s = Some ts.
Proof.
  unfold lex. rewrite run_snoc. intros Hws.
  destruct (run ([], Idle) s) as [st|]; [|discriminate].
  destruct (step st c) as [st'|] eqn:E; [|discriminate].
  eauto using step_ws_finish.
Qed.

Lemma lex_snoc_json_ws c s ts :
  json_ws c = true -> lex s = Some ts -> lex (s ++ [c]) = Some ts.
Proof.
  unfold lex. rewrite run_snoc. intros Hws.
  destruct (run ([], Idle) s) as [st|]; [|discriminate].
  intros Hfin. destruct (step_json_ws st c ts Hws Hfin) as (st' & -> & ?).
  assumption.
Qed.

Lemma lex_trimStart s ts : lex s = Some ts -> lex (trimStart s) = Some ts.
Proof.
  induction s as [|c s IH]; simpl; auto.
  destruct (isWhiteSpace c) eqn:E; eauto using lex_ws_cons.
Qed.

Lemma lex_trimEnd s ts : lex s = Some ts -> lex (trimEnd s) = Some ts.
Proof.
  unfold trimEnd. rewrite <- (rev_involutive s) at 1.
  induction (rev s) as [|c r IH]; simpl; auto.
  destruct (isWhiteSpace c) eqn:E; eauto using lex_ws_snoc.
Qed.

(** [JSON.parse] does not see what [trim] removes from a text it accepts. *)
Lemma JSON_parse_trim text v :
  JSON_parse text = Normal v -> JSON_parse (trim text) = Normal v.
Proof.
  unfold JSON_parse. destruct (lex text) as [ts|] eqn:E; [|discriminate].
  unfold trim. rewrite (lex_trimEnd _ ts) by (apply lex_trimStart; exact E).
  auto.
Qed.

Lemma JSON_parse_line_feed text v :
  JSON_parse text = Normal v -> JSON_parse (text ++ [LF]) = Normal v.
Proof.
  unfold JSON_parse. destruct (lex text) as [ts|] eqn:E; [|discriminate].
  rewrite (lex_snoc_json_ws LF text ts) by (reflexivity || assumption).
  auto.
Qed.

(** ** Reading back what [JSON.stringify] writes *)

(** *** Digits *)

Section digit_reading.
Variable toks : list token.
Variable start : mode.
Variable reading : N -> mode.
Hypothesis first_digit :
  forall d, (1 <= d <= 9)%N ->
  step (toks, start) (48 + d)%N = Some (toks, reading d).
Hypothesis next_digit :
  forall a d, (d <= 9)%N ->
  step (toks, reading a) (48 + d)%N = Some (toks, reading (a * 10 + d)%N).

Lemma run_digits_fuel k n rest :
  (0 < n)%N -> (n < 2 ^ N.of_nat k)%N ->
  run (toks, start) (digits_fuel (S k) n ++ rest) = run (toks, reading n) rest.
Proof.
  revert n rest. induction k as [|k IH]; intros n rest Hpos Hlt.
  - simpl in Hlt. lia.
  - rewrite Nat2N.inj_succ, N.pow_succ_r' in Hlt.
    change (digits_fuel (S (S k)) n)
      with (if (n <? 10)%N then [(48 + n)%N]
            else digits_fuel (S k) (n / 10)%N ++ [(48 + n mod 10)%N]).
    destruct (N.ltb_spec n 10).
    + cbn [app run]. rewrite first_digit by lia. reflexivity.
    + pose proof (N.div_mod' n 10) as Hdm.
      pose proof (N.mod_lt n 10 ltac:(lia)) as Hm.
      set (p := (2 ^ N.of_nat k)%N) in *. clearbody p.
      set (q := (n / 10)%N) in *. set (r := (n mod 10)%N) in *.
      clearbody q r.
      rewrite <- app_assoc. rewrite IH by lia.
      cbn [app run]. rewrite next_digit by lia.
      replace (q * 10 + r)%N with n by lia. reflexivity.
Qed.

Lemma run_digits n rest :
  (0 < n)%N ->
  run (toks, start) (digits n ++ rest) = run (toks, reading n) rest.
Proof.
  intros Hpos. unfold digits. apply run_digits_fuel; auto.
  rewrite N2Nat.id. apply N.size_gt.
Qed.
End digit_reading.

Lemma is_digit_units d : (d <= 9)%N -> is_digit (48 + d) = true.
Proof. intros H. unfold is_digit. cmp_units; reflexivity. Qed.

Lemma run_int_digits (toks : list token) (neg : bool) (n : N) (rest : jsstring) :
  (0 < n)%N ->
  run (toks, if neg then NumMinus else Idle) (digits n ++ rest) =
  run (toks, NumInt neg n) rest.
Proof.
  apply run_digits with (reading := NumInt neg).
  - intros d Hd. destruct neg; unfold step, idle_step, in_number, json_ws.
    + rewrite is_digit_units by lia. cmp_units. do 2 f_equal. f_equal. lia.
    + rewrite is_digit_units by lia. cmp_units. simpl. do 2 f_equal. f_equal. lia.
  - intros a d Hd. unfold step, in_number. rewrite is_digit_units by lia.
    do 2 f_equal. f_equal. lia.
Qed.

Lemma run_exp_digits (toks : list token) neg mant flen eneg (n : N)
  (rest : jsstring) :
  (0 < n)%N ->
  run (toks, NumESign neg mant flen eneg) (digits n ++ rest) =
  run (toks, NumExp neg mant flen eneg n) rest.
Proof.
  apply run_digits with (reading := NumExp neg mant flen eneg).
  - intros d Hd. unfold step, in_number. rewrite is_digit_units by lia.
    do 2 f_equal. f_equal. lia.
  - intros a d Hd. unfold step, in_number. rewrite is_digit_units by lia.
    do 2 f_equal. f_equal. lia.
Qed.

(** *** Numbers *)

Lemma signed_abs (m : Z) : signed (m <? 0)%Z (Z.abs_N m) = m.
Proof. unfold signed. destruct (Z.ltb_spec m 0); lia. Qed.

Lemma normalise_normal m e : normal m e = true -> normalise m e = (m, e).
Proof.
  unfold normal, normalise. intros H.
  apply andb_true_iff in H as [He H]. apply Z.leb_le in He.
  destruct (Z.leb_spec 0 e).
  - assert (e = 0%Z) as -> by lia. simpl. f_equal. lia.
  - destruct (Z.eqb_spec e 0); [lia|]. simpl in H.
    destruct (Z.to_nat (- e)) as [|k] eqn:E; [lia|].
    simpl. destruct (m mod 10 =? 0)%Z; [discriminate | reflexivity].
Qed.

(** The scanner reads the text of a number up to a mode in which it may
    stop with that number. *)
Lemma run_number (toks : list token) m e (rest : jsstring) :
  normal m e = true ->
  exists M, close M = Some (TNumber m e) /\
            run (toks, Idle) (number_text m e ++ rest) = run (toks, M) rest.
Proof.
  intros Hn. pose proof (normalise_normal m e Hn) as Hnorm.
  unfold normal in Hn. apply andb_true_iff in Hn as [He Hn].
  apply Z.leb_le in He.
  assert (Hclose : forall ev,
             Z.of_N ev = (- e)%Z ->
             number_token (m <? 0)%Z (Z.abs_N m) 0 true ev = TNumber m e).
  { intros ev Hev. unfold number_token. rewrite signed_abs.
    replace (signed true ev - Z.of_nat 0)%Z with e by (unfold signed; lia).
    rewrite Hnorm. reflexivity. }
  assert (Hclose0 : e = 0%Z ->
             number_token (m <? 0)%Z (Z.abs_N m) 0 false 0 = TNumber m e).
  { intros ->. unfold number_token. rewrite signed_abs.
    change (signed false 0 - Z.of_nat 0)%Z with 0%Z.
    rewrite Hnorm. reflexivity. }
  assert (Hint : (0 < Z.abs_N m)%N ->
            forall r, run (toks, Idle)
              (((if (m <? 0)%Z then [45%N] else []) ++ digits (Z.abs_N m)) ++ r) =
            run (toks, NumInt (m <? 0)%Z (Z.abs_N m)) r).
  { intros Hpos r. rewrite <- app_assoc.
    rewrite <- (run_int_digits toks (m <? 0)%Z) by assumption.
    destruct (m <? 0)%Z; reflexivity. }
  unfold number_text. destruct (Z.eqb_spec e 0) as [->|Hne].
  - rewrite app_nil_r. destruct (Z.eqb_spec m 0) as [->|Hm].
    + exists (NumZero false). split; reflexivity.
    + exists (NumInt (m <? 0)%Z (Z.abs_N m)). split.
      * cbn [close]. f_equal. apply Hclose0. reflexivity.
      * apply Hint. lia.
  - assert (e < 0)%Z as Hlt by lia.
    assert (m <> 0%Z) as Hm.
    { intros ->. simpl in Hn. destruct (Z.eqb_spec e 0); [lia | discriminate]. }
    exists (NumExp (m <? 0)%Z (Z.abs_N m) 0 true (Z.abs_N e)). split.
    + cbn [close]. f_equal. apply Hclose. lia.
    + rewrite app_assoc, <- app_assoc. rewrite Hint by lia.
      destruct (Z.ltb_spec e 0); [|lia].
      change ((101%N :: [45%N] ++ digits (Z.abs_N e)) ++ rest)
        with (101%N :: 45%N :: digits (Z.abs_N e) ++ rest).
      rewrite <- (run_exp_digits toks (m <? 0)%Z (Z.abs_N m) 0 true) by lia.
      reflexivity.
Qed.

Lemma in_number_delim m c : is_delim c = true -> in_number m c = None.
Proof.
  unfold is_delim. intros H.
  assert (c = 44 \/ c = 93 \/ c = 125)%N as [->| [->| ->]]
    by (revert H; cmp_units; simpl; intros; try discriminate; lia);
    destruct m; reflexivity.
Qed.

Lemma step_close toks m t c :
  close m = Some t -> in_number m c = None ->
  step (toks, m) c = idle_step (t :: toks) c.
Proof.
  intros Hc Hn. destruct m; try discriminate; unfold step; rewrite Hn, Hc;
    reflexivity.
Qed.

Lemma finish_close toks m t :
  close m = Some t -> finish (toks, m) = Some (rev (t :: toks)).
Proof.
  intros Hc. destruct m; try discriminate; unfold finish; rewrite Hc; reflexivity.
Qed.

(** *** Strings *)

Lemma hex_val_digit d : (d < 16)%N -> hex_val (hex_digit d) = Some d.
Proof.
  intros H. unfold hex_val, hex_digit, is_digit.
  destruct (N.ltb_spec d 10); cmp_units; f_equal; lia.
Qed.

Lemma run_escape_unit toks acc c r :
  run (toks, InStr acc) (escape_unit c ++ r) = run (toks, InStr (c :: acc)) r.
Proof.
  unfold escape_unit.
  destruct (N.eqb_spec c 34) as [->|?]; [reflexivity|].
  destruct (N.eqb_spec c 92) as [->|?]; [reflexivity|].
  destruct (N.eqb_spec c 8) as [->|?]; [reflexivity|].
  destruct (N.eqb_spec c 12) as [->|?]; [reflexivity|].
  destruct (N.eqb_spec c 10) as [->|?]; [reflexivity|].
  destruct (N.eqb_spec c 13) as [->|?]; [reflexivity|].
  destruct (N.eqb_spec c 9) as [->|?]; [reflexivity|].
  destruct (N.ltb_spec c 32) as [Hlt|Hge].
  - pose proof (N.div_mod' c 16) as Hdm.
    pose proof (N.mod_lt c 16 ltac:(lia)) as Hm.
    set (q := (c / 16)%N) in *. set (m := (c mod 16)%N) in *. clearbody q m.
    cbn [app run]. change (step (toks, InStr acc) 92) with (Some (toks, InEsc acc)).
    cbv iota. change (step (toks, InEsc acc) 117) with (Some (toks, InHex acc 3 0)).
    cbv iota. change (step (toks, InHex acc 3 0) 48) with (Some (toks, InHex acc 2 0)).
    cbv iota. change (step (toks, InHex acc 2 0) 48) with (Some (toks, InHex acc 1 0)).
    cbv iota. unfold step at 1. rewrite hex_val_digit by lia.
    unfold step at 1. rewrite hex_val_digit by lia.
    replace ((0 * 16 + q) * 16 + m)%N with c by lia. reflexivity.
  - cbn [app run]. unfold step. cmp_units. reflexivity.
Qed.

Lemma run_string_body toks acc s r :
  run (toks, InStr acc) (flat_map escape_unit s ++ 34%N :: r) =
  run (TString (rev acc ++ s) :: toks, Idle) r.
Proof.
  revert acc; induction s as [|c s IH]; intros acc.
  - rewrite app_nil_r. reflexivity.
  - cbn [flat_map]. rewrite <- app_assoc, run_escape_unit, IH.
    cbn [rev]. rewrite <- app_assoc. reflexivity.
Qed.

Lemma run_quote toks s r :
  run (toks, Idle) (quote s ++ r) = run (TString s :: toks, Idle) r.
Proof.
  unfold quote. cbn [app run].
  change (step (toks, Idle) 34) with (Some (toks, InStr [])). cbv iota.
  rewrite <- app_assoc. apply (run_string_body toks []).
Qed.

(** *** Values *)

(** The scanner on a comma-separated sequence in front of a closing unit. *)
Lemma run_join {A : Type} (text : A -> jsstring) (tk : A -> list token)
  (l : list A) (closing : N) :
  is_delim closing = true ->
  Forall (fun x => forall toks c r, is_delim c = true ->
            run (toks, Idle) (text x ++ c :: r) =
            run (rev (tk x) ++ toks, Idle) (c :: r)) l ->
  forall toks r,
    run (toks, Idle) (join [44%N] (List.map text l) ++ closing :: r) =
    run (rev (join [TComma] (List.map tk l)) ++ toks, Idle) (closing :: r).
Proof.
  intros Hcl Hall. induction Hall as [|x l Hx Hl IH]; intros toks r.
  - reflexivity.
  - destruct l as [|y l'].
    + cbn [List.map join]. apply Hx. assumption.
    + change (join [44%N] (List.map text (x :: y :: l')))
        with (text x ++ [44%N] ++ join [44%N] (List.map text (y :: l'))).
      change (join [TComma] (List.map tk (x :: y :: l')))
        with (tk x ++ [TComma] ++ join [TComma] (List.map tk (y :: l'))).
      rewrite <- !app_assoc. cbn [app]. rewrite Hx by reflexivity.
      cbn [run]. change (step (rev (tk x) ++ toks, Idle) 44)
        with (Some (TComma :: rev (tk x) ++ toks, Idle)).
      cbv iota. rewrite IH. rewrite !rev_app_distr. cbn [rev app].
      rewrite <- !app_assoc. reflexivity.
Qed.

Lemma forallb_Forall_impl {A : Type} (f : A -> bool) (P : A -> Prop) l :
  Forall (fun x => f x = true -> P x) l -> forallb f l = true -> Forall P l.
Proof.
  induction 1 as [|x l Hx Hl IH]; cbn [forallb]; intros H; constructor;
    apply andb_true_iff in H as [? ?]; auto.
Qed.

Lemma step_closing_bracket toks :
  step (toks, Idle) 93 = Some (TRBrack :: toks, Idle).
Proof. reflexivity. Qed.

Lemma step_closing_brace toks :
  step (toks, Idle) 125 = Some (TRBrace :: toks, Idle).
Proof. reflexivity. Qed.

(** The scanner turns the text of a value into its tokens.  Behind a number
    the text must go on with a delimiter (or end, see [lex_stringify]). *)
Lemma run_stringify v :
  wf_value v = true ->
  forall toks rest,
    (forall m e, v = VNum m e -> delimited rest) ->
    run (toks, Idle) (JSON_stringify v ++ rest) =
    run (rev (tokens v) ++ toks, Idle) rest.
Proof.
  induction v as [|b|m e|s|items IH|members IH] using value_ind;
    intros Hwf toks rest Hrest.
  - reflexivity.
  - destruct b; reflexivity.
  - destruct (Hrest m e eq_refl) as (c & r & -> & Hc).
    destruct (run_number toks m e (c :: r) Hwf) as (M & Hclose & Hrun).
    cbn [JSON_stringify tokens]. rewrite Hrun.
    cbn [run]. rewrite (step_close toks M _ c Hclose) by (apply in_number_delim, Hc).
    reflexivity.
  - apply run_quote.
  - assert (Hitems : Forall (fun x => forall toks c r, is_delim c = true ->
              run (toks, Idle) (JSON_stringify x ++ c :: r) =
              run (rev (tokens x) ++ toks, Idle) (c :: r)) items).
    { apply (forallb_Forall_impl wf_value); [|exact Hwf].
      eapply Forall_impl; [exact IH|]. cbv beta.
      intros x Hx Hwx toks' c r Hc. apply Hx; [exact Hwx|].
      intros; exists c, r; auto. }
    cbn [JSON_stringify tokens]. cbn [app run].
    change (step (toks, Idle) 91) with (Some (TLBrack :: toks, Idle)). cbv iota.
    rewrite <- app_assoc. cbn [app].
    rewrite (run_join JSON_stringify tokens items 93 eq_refl Hitems).
    cbn [run]. rewrite step_closing_bracket. cbn [rev].
    rewrite rev_app_distr. cbn [rev app]. rewrite <- !app_assoc. reflexivity.
  - cbn [wf_value] in Hwf. apply andb_true_iff in Hwf as [_ Hwf].
    set (text := fun kv : jsstring * value =>
                   quote (fst kv) ++ 58%N :: JSON_stringify (snd kv)).
    set (tk := fun kv : jsstring * value =>
                 TString (fst kv) :: TColon :: tokens (snd kv)).
    assert (Hmembers : Forall (fun x => forall toks c r, is_delim c = true ->
              run (toks, Idle) (text x ++ c :: r) =
              run (rev (tk x) ++ toks, Idle) (c :: r)) members).
    { apply (forallb_Forall_impl (fun kv => wf_value (snd kv))); [|exact Hwf].
      eapply Forall_impl; [exact IH|]. cbv beta.
      intros x Hx Hwx toks' c r Hc. unfold text, tk.
      rewrite <- app_assoc, run_quote. cbn [app run].
      change (step (TString (fst x) :: toks', Idle) 58)
        with (Some (TColon :: TString (fst x) :: toks', Idle)). cbv iota.
      rewrite Hx by (auto; intros; exists c, r; auto).
      cbn [rev]. rewrite <- !app_assoc. reflexivity. }
    cbn [JSON_stringify tokens]. fold text. fold tk. cbn [app run].
    change (step (toks, Idle) 123) with (Some (TLBrace :: toks, Idle)). cbv iota.
    rewrite <- app_assoc. cbn [app].
    rewrite (run_join text tk members 125 eq_refl Hmembers).
    cbn [run]. rewrite step_closing_brace. cbn [rev].
    rewrite rev_app_distr. cbn [rev app]. rewrite <- !app_assoc. reflexivity.
Qed.

Lemma lex_stringify v : wf_value v = true -> lex (JSON_stringify v) = Some (tokens v).
Proof.
  intros Hwf. unfold lex. destruct v as [|b|m e|s|items|members].
  1,2,4,5,6:
    rewrite <- (app_nil_r (JSON_stringify _)), run_stringify by (auto; discriminate);
    cbn [run finish]; rewrite app_nil_r, rev_involutive; reflexivity.
  destruct (run_number [] m e [] Hwf) as (M & Hclose & Hrun).
  rewrite app_nil_r in Hrun. cbn [JSON_stringify]. rewrite Hrun.
  cbn [run]. rewrite (finish_close [] M _ Hclose). reflexivity.
Qed.

(** *** The grammar on the tokens of a value *)

Lemma tokens_nonempty v : (1 <= length (tokens v))%nat.
Proof. destruct v as [|[]| | | |]; simpl; lia. Qed.

Lemma join_cons {A : Type} (sep x : list A) l :
  l <> [] -> join sep (x :: l) = x ++ sep ++ join sep l.
Proof. destruct l; [congruence | reflexivity]. Qed.

Lemma set_member_fresh key v acc :
  forallb (fun k => negb (jsstring_eqb k key)) (List.map fst acc) = true ->
  set_member key v acc = acc ++ [(key, v)].
Proof.
  induction acc as [|[k w] acc IH]; cbn [List.map fst forallb set_member app];
    intros H; [reflexivity|].
  apply andb_true_iff in H as [Hk H].
  destruct (jsstring_eqb k key); [discriminate|]. rewrite IH by assumption.
  reflexivity.
Qed.

Lemma distinct_app_fresh a k b :
  distinct (a ++ k :: b) = true ->
  forallb (fun x => negb (jsstring_eqb x k)) a = true.
Proof.
  induction a as [|x a IH]; cbn [app distinct forallb]; intros H; [reflexivity|].
  apply andb_true_iff in H as [Hx H]. rewrite IH by assumption.
  rewrite existsb_app in Hx. cbn [existsb] in Hx.
  destruct (jsstring_eqb x k); [|reflexivity].
  rewrite orb_true_r in Hx. discriminate.
Qed.

Section grammar_on_tokens.
(** What is known of the parts of an array or object under induction. *)
Let parses (v : value) : Prop :=
  forall n rest, (length (tokens v) <= n)%nat ->
    parse_value n (tokens v ++ rest) = Some (v, rest).

Lemma parse_elements_tokens items :
  items <> [] -> Forall parses items ->
  forall n acc rest,
    (length (join [TComma] (List.map tokens items)) + 1 <= n)%nat ->
    parse_elements n acc
      (join [TComma] (List.map tokens items) ++ TRBrack :: rest) =
    Some (VArr (rev acc ++ items), rest).
Proof.
  intros Hne Hall. induction Hall as [|x l Hx Hl IH]; [congruence|].
  intros n acc rest Hn. destruct n as [|n]; [lia|].
  pose proof (tokens_nonempty x) as Hx1.
  destruct l as [|y l'].
  - cbn [List.map join] in *. cbn [parse_elements].
    rewrite Hx by lia. reflexivity.
  - change (List.map tokens (x :: y :: l'))
      with (tokens x :: List.map tokens (y :: l')) in *.
    rewrite join_cons in * by discriminate.
    rewrite !length_app in Hn. cbn [length] in Hn.
    rewrite <- !app_assoc. cbn [app parse_elements].
    rewrite Hx by lia. rewrite IH by (congruence || lia).
    cbn [rev]. rewrite <- app_assoc. reflexivity.
Qed.

Let member_tokens (kv : jsstring * value) : list token :=
  TString (fst kv) :: TColon :: tokens (snd kv).

Lemma parse_members_tokens members :
  members <> [] -> Forall (fun kv => parses (snd kv)) members ->
  forall n acc rest,
    distinct (List.map fst (acc ++ members)) = true ->
    (length (join [TComma] (List.map member_tokens members)) + 1 <= n)%nat ->
    parse_members n acc
      (join [TComma] (List.map member_tokens members) ++ TRBrace :: rest) =
    Some (VObj (acc ++ members), rest).
Proof.
  intros Hne Hall. induction Hall as [|[k x] l Hx Hl IH]; [congruence|].
  intros n acc rest Hd Hn. destruct n as [|n]; [lia|].
  pose proof (tokens_nonempty x) as Hx1. cbn [snd] in Hx.
  assert (Hset : forall v, set_member k v acc = acc ++ [(k, v)]).
  { intros v. apply set_member_fresh.
    rewrite map_app in Hd. apply (distinct_app_fresh _ _ _ Hd). }
  destruct l as [|y l'].
  - cbn [List.map join] in *. unfold member_tokens in *. cbn [fst snd] in *.
    cbn [length] in Hn. cbn [app parse_members].
    rewrite Hx by lia. rewrite Hset. reflexivity.
  - change (List.map member_tokens ((k, x) :: y :: l'))
      with (member_tokens (k, x) :: List.map member_tokens (y :: l')) in *.
    rewrite join_cons in * by discriminate.
    rewrite !length_app in Hn. unfold member_tokens at 1 in Hn.
    cbn [length fst snd] in Hn.
    unfold member_tokens at 1. cbn [fst snd].
    rewrite <- !app_assoc. cbn [app parse_members].
    rewrite Hx by lia. rewrite Hset.
    rewrite IH; [rewrite <- app_assoc; reflexivity | congruence | | lia].
    rewrite <- app_assoc. exact Hd.
Qed.
End grammar_on_tokens.

Lemma parse_value_tokens v :
  wf_value v = true ->
  forall n rest, (length (tokens v) <= n)%nat ->
    parse_value n (tokens v ++ rest) = Some (v, rest).
Proof.
  induction v as [|b|m e|s|items IH|members IH] using value_ind;
    intros Hwf n rest Hn; (destruct n as [|n]; [pose proof (tokens_nonempty (VArr [])); simpl in Hn; try destruct b; simpl in Hn; lia|]).
  - reflexivity.
  - destruct b; reflexivity.
  - reflexivity.
  - reflexivity.
  - destruct items as [|x l]; [reflexivity|].
    assert (Hall : Forall (fun v => forall n rest, (length (tokens v) <= n)%nat ->
                parse_value n (tokens v ++ rest) = Some (v, rest)) (x :: l)).
    { apply (forallb_Forall_impl wf_value); [|exact Hwf].
      eapply Forall_impl; [exact IH|]. auto. }
    cbn [tokens] in *. cbn [length] in Hn. rewrite length_app in Hn.
    cbn [length] in Hn.
    pose proof (parse_elements_tokens (x :: l) ltac:(congruence) Hall n [] rest
                  ltac:(lia)) as Hp.
    cbn [rev app] in Hp. cbn [app]. rewrite <- app_assoc. cbn [app].
    assert (Hhead : exists t ts, join [TComma] (List.map tokens (x :: l)) = t :: ts
                                 /\ t <> TRBrack).
    { destruct l; cbn [List.map join];
        destruct x as [|[]| | | |]; cbn [tokens app]; eauto 6; do 2 eexists;
        split; try reflexivity; discriminate. }
    destruct Hhead as (t & ts & Ht & Hneq). rewrite Ht in *.
    cbn [app parse_value]. cbn [app] in Hp. rewrite <- Hp.
    destruct t; congruence.
  - destruct members as [|x l]; [reflexivity|].
    cbn [wf_value] in Hwf. apply andb_true_iff in Hwf as [Hd Hwf].
    assert (Hall : Forall (fun kv => forall n rest,
                (length (tokens (snd kv)) <= n)%nat ->
                parse_value n (tokens (snd kv) ++ rest) = Some (snd kv, rest))
              (x :: l)).
    { apply (forallb_Forall_impl (fun kv => wf_value (snd kv))); [|exact Hwf].
      eapply Forall_impl; [exact IH|]. auto. }
    cbn [tokens] in *. cbn [length] in Hn. rewrite length_app in Hn.
    cbn [length] in Hn.
    pose proof (parse_members_tokens (x :: l) ltac:(congruence) Hall n [] rest
                  Hd ltac:(lia)) as Hp.
    cbn [app] in Hp. cbn [app]. rewrite <- app_assoc. cbn [app].
    destruct l; cbn [List.map join app parse_value] in *; exact Hp.
Qed.

(** [JSON.parse(JSON.stringify(v))] is [v]. *)
Lemma JSON_parse_stringify v :
  wf_value v = true -> JSON_parse (JSON_stringify v) = Normal v.
Proof.
  intros Hwf. unfold JSON_parse. rewrite lex_stringify by assumption.
  rewrite <- (app_nil_r (tokens v)) at 2.
  rewrite parse_value_tokens by (auto; lia). reflexivity.
Qed.

(** ** What [JSON.parse] returns is well formed *)

Lemma strip_zeros_normal k m e :
  Z.of_nat k = (- e)%Z ->
  normal (fst (strip_zeros k m e)) (snd (strip_zeros k m e)) = true.
Proof.
  revert m e. induction k as [|k IH]; intros m e Hk; cbn [strip_zeros].
  - assert (e = 0%Z) as -> by lia. reflexivity.
  - destruct (Z.eqb_spec (m mod 10) 0) as [E|E].
    + apply IH. lia.
    + cbn [fst snd]. unfold normal.
      destruct (Z.leb_spec e 0); [|lia].
      destruct (Z.eqb_spec (m mod 10) 0); [lia|].
      rewrite orb_true_r. reflexivity.
Qed.

Lemma normalise_is_normal m e :
  normal (fst (normalise m e)) (snd (normalise m e)) = true.
Proof.
  unfold normalise. destruct (Z.leb_spec 0 e); [reflexivity|].
  apply strip_zeros_normal. lia.
Qed.

Lemma number_token_wf neg mant flen eneg ev :
  token_wf (number_token neg mant flen eneg ev) = true.
Proof.
  unfold number_token.
  pose proof (normalise_is_normal (signed neg mant)
                (signed eneg ev - Z.of_nat flen)) as H.
  destruct (normalise _ _) as [m e]. exact H.
Qed.

Lemma close_wf m t : close m = Some t -> token_wf t = true.
Proof.
  destruct m; cbn [close]; intros H; inversion H; apply number_token_wf.
Qed.

Lemma idle_step_wf toks c toks' m' :
  forallb token_wf toks = true ->
  idle_step toks c = Some (toks', m') ->
  forallb token_wf toks' = true.
Proof.
  intros Hw. unfold idle_step.
  repeat match goal with
    | |- context [if ?b then _ else _] => destruct b
    end; intros H; inversion H; subst; cbn [forallb token_wf]; auto.
Qed.

Lemma step_wf st c st' :
  forallb token_wf (fst st) = true -> step st c = Some st' ->
  forallb token_wf (fst st') = true.
Proof.
  destruct st as [toks m], st' as [toks' m']. cbn [fst]. intros Hw.
  destruct m; unfold step;
    try (destruct (in_number _ c); [intros H; inversion H; subst; exact Hw|];
         destruct (close _) as [t|] eqn:Ec; [|discriminate];
         apply idle_step_wf; cbn [forallb]; rewrite Hw, (close_wf _ _ Ec);
         reflexivity).
  - apply idle_step_wf, Hw.
  - repeat match goal with
      | |- context [if ?b then _ else _] => destruct b
      end; intros H; inversion H; subst; cbn [forallb token_wf]; auto.
  - destruct (unescape c); [|destruct (c =? 117)%N];
      intros H; inversion H; subst; auto.
  - destruct (hex_val c); [|discriminate]. destruct k;
      intros H; inversion H; subst; auto.
  - destruct (nth_error (keyword_text kw) pos); [|discriminate].
    destruct (c =? n)%N; [|discriminate].
    destruct (S pos =? length (keyword_text kw))%nat;
      intros H; inversion H; subst; auto.
    cbn [forallb]. rewrite Hw. destruct kw; reflexivity.
Qed.

Lemma run_wf s st st' :
  forallb token_wf (fst st) = true -> run st s = Some st' ->
  forallb token_wf (fst st') = true.
Proof.
  revert st. induction s as [|c s IH]; intros st Hw; cbn [run].
  - intros H. inversion H; subst. exact Hw.
  - destruct (step st c) as [st1|] eqn:E; [|discriminate].
    apply IH. eapply step_wf; eauto.
Qed.

Lemma forallb_rev {A : Type} (f : A -> bool) l :
  forallb f (rev l) = forallb f l.
Proof.
  induction l as [|x l IH]; [reflexivity|]. cbn [rev forallb].
  rewrite forallb_app, IH. cbn [forallb]. rewrite andb_true_r. apply andb_comm.
Qed.

Lemma lex_wf s ts : lex s = Some ts -> forallb token_wf ts = true.
Proof.
  unfold lex. destruct (run ([], Idle) s) as [[toks m]|] eqn:E; [|discriminate].
  apply run_wf in E; [|reflexivity]. cbn [fst] in E.
  destruct m; cbn [finish];
    try (destruct (close _) as [t|] eqn:Ec; [|discriminate]);
    intros H; inversion H; subst; rewrite ?forallb_app, forallb_rev;
    cbn [forallb]; rewrite ?E, ?(close_wf _ _ Ec); reflexivity.
Qed.

Lemma set_member_keys key v acc :
  List.map fst (set_member key v acc) =
  if existsb (fun k => jsstring_eqb k key) (List.map fst acc)
  then List.map fst acc else List.map fst acc ++ [key].
Proof.
  induction acc as [|[k w] acc IH]; cbn [set_member List.map fst existsb];
    [reflexivity|].
  destruct (jsstring_eqb k key); cbn [orb List.map fst]; [reflexivity|].
  rewrite IH. destruct (existsb _ _); reflexivity.
Qed.

Lemma distinct_snoc keys key :
  distinct keys = true ->
  existsb (fun k => jsstring_eqb k key) keys = false ->
  distinct (keys ++ [key]) = true.
Proof.
  induction keys as [|x keys IH]; cbn [app distinct existsb]; [reflexivity|].
  intros Hd He. apply andb_true_iff in Hd as [Hx Hd].
  apply orb_false_iff in He as [Hxk He].
  rewrite IH by assumption. rewrite existsb_app. cbn [existsb].
  rewrite Hxk. apply negb_true_iff in Hx. rewrite Hx. reflexivity.
Qed.

Lemma set_member_wf key v acc :
  wf_value (VObj acc) = true -> wf_value v = true ->
  wf_value (VObj (set_member key v acc)) = true.
Proof.
  cbn [wf_value]. intros H Hv. apply andb_true_iff in H as [Hd Hw].
  rewrite set_member_keys. apply andb_true_iff. split.
  - destruct (existsb _ _) eqn:E; [exact Hd | apply distinct_snoc; assumption].
  - clear Hd. induction acc as [|[k w] acc IH]; cbn [set_member forallb snd].
    + rewrite Hv. reflexivity.
    + cbn [forallb snd] in Hw. apply andb_true_iff in Hw as [Hk Hw].
      destruct (jsstring_eqb k key); cbn [forallb snd].
      * rewrite Hv, Hw. reflexivity.
      * rewrite Hk, IH by assumption. reflexivity.
Qed.

Lemma parse_wf n :
  (forall ts v r, forallb token_wf ts = true ->
     parse_value n ts = Some (v, r) ->
     wf_value v = true /\ forallb token_wf r = true) /\
  (forall acc ts v r, forallb wf_value acc = true ->
     forallb token_wf ts = true ->
     parse_elements n acc ts = Some (v, r) ->
     wf_value v = true /\ forallb token_wf r = true) /\
  (forall acc ts v r, wf_value (VObj acc) = true ->
     forallb token_wf ts = true ->
     parse_members n acc ts = Some (v, r) ->
     wf_value v = true /\ forallb token_wf r = true).
Proof.
  induction n as [|n (IHv & IHe & IHm)].
  - repeat split; discriminate.
  - split; [|split].
    + intros ts v r Hts. cbn [parse_value].
      destruct ts as [|t ts]; [discriminate|].
      cbn [forallb] in Hts. apply andb_true_iff in Hts as [Ht Hts].
      destruct t; try discriminate;
        try (intros H; inversion H; subst; auto; fail).
      * destruct ts as [|t' ts']; [apply (IHm []); auto|].
        destruct t'; try (apply (IHm []); auto; fail).
        cbn [forallb] in Hts. apply andb_true_iff in Hts as [_ Hts].
        intros H; inversion H; subst; auto.
      * destruct ts as [|t' ts']; [apply (IHe []); auto|].
        destruct t'; try (apply (IHe []); auto; fail).
        cbn [forallb] in Hts. apply andb_true_iff in Hts as [_ Hts].
        intros H; inversion H; subst; auto.
    + intros acc ts v r Hacc Hts. cbn [parse_elements].
      destruct (parse_value n ts) as [[x [|t rest]]|] eqn:E; try discriminate.
      destruct (IHv _ _ _ Hts E) as [Hx Hrest].
      cbn [forallb] in Hrest. apply andb_true_iff in Hrest as [_ Hrest].
      destruct t; try discriminate.
      * intros H; inversion H; subst. split; [|exact Hrest].
        cbn [wf_value]. rewrite ?forallb_app, forallb_rev. cbn [forallb].
        rewrite Hx, Hacc. reflexivity.
      * apply IHe; [|exact Hrest]. cbn [forallb]. rewrite Hx, Hacc. reflexivity.
    + intros acc ts v r Hacc Hts. cbn [parse_members].
      destruct ts as [|[] [|[] ts]]; try discriminate.
      cbn [forallb] in Hts. apply andb_true_iff in Hts as [_ Hts].
      apply andb_true_iff in Hts as [_ Hts].
      destruct (parse_value n ts) as [[x [|t rest]]|] eqn:E; try discriminate.
      destruct (IHv _ _ _ Hts E) as [Hx Hrest].
      cbn [forallb] in Hrest. apply andb_true_iff in Hrest as [_ Hrest].
      destruct t; try discriminate.
      * intros H; inversion H; subst. split; [|exact Hrest].
        apply set_member_wf; assumption.
      * apply IHm; [|exact Hrest]. apply set_member_wf; assumption.
Qed.

Lemma JSON_parse_wf text v : JSON_parse text = Normal v -> wf_value v = true.
Proof.
  unfold JSON_parse. destruct (lex text) as [ts|] eqn:E; [|discriminate].
  apply lex_wf in E.
  destruct (parse_value (S (length ts)) ts) as [[x [|]]|] eqn:Ep;
    try discriminate.
  intros H; inversion H; subst.
  exact (proj1 (proj1 (parse_wf _) _ _ _ E Ep)).
Qed.

(** ** The store: update by id *)

Lemma updateById_unknown analysisId patch (h : list AnalysisItem) :
  ~ In analysisId (List.map id h) -> updateById analysisId patch h = h.
Proof.
  unfold updateById. induction h as [|item h IH]; cbn [List.map In]; intros Hid.
  - reflexivity.
  - destruct (jsstring_eqb_spec (id item) analysisId) as [E|E].
    + exfalso. auto.
    + rewrite IH by tauto. reflexivity.
Qed.

Lemma updateById_ids analysisId patch (h : list AnalysisItem) :
  List.map id (updateById analysisId patch h) = List.map id h.
Proof.
  unfold updateById. rewrite List.map_map. apply List.map_ext.
  intros item. destruct (jsstring_eqb (id item) analysisId); reflexivity.
Qed.

(** C6: updating by an id that does not occur in the history changes nothing:
    the list that comes back is the list that went in (same length, same
    order, same records). *)
Theorem update_unknown_id_is_noop (h : list AnalysisItem)
  (analysisId : jsstring) (patch : Patch) :
  ~ In analysisId (List.map id h) ->
  updateById analysisId patch h = h /\
  length (updateById analysisId patch h) = length h.
Proof.
  intros Hid. rewrite (updateById_unknown _ _ _ Hid). auto.
Qed.

(** C5: appending a record whose id is new and then updating by that id gives
    the history with one merged record at the head and the old records
    behind it, untouched; exactly one record carries the id.  The merged
    record has the id, problem, timestamp and topic of the appended record,
    and each of status, confidence and result from the patch where the patch
    gives it, from the appended record where it does not. *)
Theorem append_then_update (h : list AnalysisItem) (record : AnalysisItem)
  (patch : Patch) :
  ~ In (id record) (List.map id h) ->
  exists merged,
    updateById (id record) patch (append record h) = merged :: h /\
    id merged = id record /\
    problem merged = problem record /\
    timestamp merged = timestamp record /\
    topic merged = topic record /\
    status merged =
      match patch_status patch with
      | Some s => s
      | None => status record
      end /\
    confidence merged =
      match patch_confidence patch with
      | Some c => c
      | None => confidence record
      end /\
    result merged =
      match patch_result patch with
      | Some r => Some r
      | None => result record
      end /\
    List.filter (fun item => jsstring_eqb (id item) (id record))
      (updateById (id record) patch (append record h)) = [merged].
Proof.
  intros Hid. exists (spread record patch).
  assert (E : updateById (id record) patch (append record h) =
              spread record patch :: h).
  { unfold append, updateById. cbn [List.map].
    rewrite jsstring_eqb_refl. f_equal. apply updateById_unknown, Hid. }
  rewrite E. do 8 (split; [reflexivity|]). cbn [List.filter spread id].
  rewrite jsstring_eqb_refl. f_equal. clear E.
  induction h as [|x h IH]; [reflexivity|].
  cbn [List.filter]. cbn [List.map In] in Hid.
  destruct (jsstring_eqb_spec (id x) (id record)) as [Ex|Ex].
  - exfalso. auto.
  - apply IH. tauto.
Qed.

Lemma update_unknown_id_is_noop_witness :
  ~ In (lit "42") (List.map id [sample_item]) /\
  updateById (lit "42") failed_patch [sample_item] = [sample_item] /\
  length (updateById (lit "42") failed_patch [sample_item]) = length [sample_item].
Proof.
  assert (H : ~ In (lit "42") (List.map id [sample_item])).
  { simpl. intros [H|H]; [discriminate H | exact H]. }
  split; [exact H|].
  exact (update_unknown_id_is_noop [sample_item] (lit "42") failed_patch H).
Defined.

Lemma append_then_update_witness :
  let record := newAnalysis 5 6 (lit "Why do students drop out of school?") in
  let patch := completed_patch sample_result (VNum 72 0) in
  ~ In (id record) (List.map id [sample_item]) /\
  exists merged,
    updateById (id record) patch (append record [sample_item]) =
      [merged; sample_item] /\
    id merged = id record /\
    problem merged = problem record /\
    timestamp merged = timestamp record /\
    topic merged = topic record /\
    status merged = completed /\
    confidence merged = VNum 72 0 /\
    result merged = Some sample_result /\
    List.filter (fun item => jsstring_eqb (id item) (id record))
      (updateById (id record) patch (append record [sample_item])) = [merged].
Proof.
  intros record patch.
  assert (H : ~ In (id record) (List.map id [sample_item])).
  { simpl. intros [H|H]; [discriminate H | exact H]. }
  split; [exact H|].
  exact (append_then_update [sample_item] record patch H).
Defined.

(** ** Persistence *)

Lemma status_of_text_status_text s : status_of_text (status_text s) = Some s.
Proof. destruct s; reflexivity. Qed.

Lemma fromJS_toJS item : fromJS (toJS item) = Some item.
Proof.
  destruct item as [i p t c s r tp]. unfold toJS, fromJS. cbn [id problem
    timestamp confidence status result topic].
  destruct tp as [tp|], r as [r|]; cbn [app get_member];
    repeat match goal with
      | |- context [jsstring_eqb (lit ?a) (lit ?b)] =>
          let x := eval vm_compute in (jsstring_eqb (lit a) (lit b)) in
          change (jsstring_eqb (lit a) (lit b)) with x; cbv iota
      end;
    rewrite status_of_text_status_text; reflexivity.
Qed.

Lemma fromJS_history_toJS h : fromJS_history (toJS_history h) = Some h.
Proof.
  unfold fromJS_history, toJS_history.
  induction h as [|item h IH]; cbn [List.map fromJS_items]; [reflexivity|].
  rewrite fromJS_toJS, IH. reflexivity.
Qed.

Lemma wf_toJS item : wf_item item = true -> wf_value (toJS item) = true.
Proof.
  destruct item as [i p t c s r tp]. unfold wf_item, toJS.
  cbn [id problem timestamp confidence status result topic].
  intros H. apply andb_true_iff in H as [Hc Hr].
  destruct tp as [tp|], r as [r|]; cbn [app wf_value List.map fst snd forallb];
    rewrite Hc, ?Hr; reflexivity.
Qed.

Lemma wf_toJS_history h :
  forallb wf_item h = true -> wf_value (toJS_history h) = true.
Proof.
  unfold toJS_history. cbn [wf_value].
  induction h as [|item h IH]; cbn [forallb List.map]; [reflexivity|].
  intros H. apply andb_true_iff in H as [Hi H].
  rewrite wf_toJS, IH by assumption. reflexivity.
Qed.

(** The text of a non-empty history starts with an opening bracket and an
    opening brace. *)
Lemma stringify_history_cons item h :
  exists text, JSON_stringify (toJS_history (item :: h)) = 91%N :: 123%N :: text.
Proof.
  unfold toJS_history. cbn [List.map JSON_stringify].
  destruct (List.map JSON_stringify (List.map toJS h)) as [|y l]; eexists.
  - unfold toJS. cbn [join JSON_stringify app]. reflexivity.
  - rewrite join_cons by discriminate.
    unfold toJS. cbn [JSON_stringify app]. reflexivity.
Qed.

Lemma loadEffect_saved (storage : Storage) saved v :
  storage !! HISTORY_KEY = Some saved -> JSON_parse saved = Normal v ->
  loadEffect storage = Normal (Some v).
Proof.
  intros Hs Hp. unfold loadEffect. rewrite Hs.
  destruct saved as [|c saved]; [discriminate Hp|]. rewrite Hp. reflexivity.
Qed.

(** C10: the save effect writes only a non-empty history.  With the empty
    history (the state before rehydration) the storage is left as it is;
    whenever the effect changes the storage the history is non-empty, the
    slot then holds its text, and the text of the empty list is never put
    into the slot by the effect. *)
Theorem save_effect_skips_empty (h : list AnalysisItem) (storage : Storage) :
  saveEffect [] storage = storage /\
  (saveEffect h storage <> storage -> h <> []) /\
  (h <> [] ->
   saveEffect h storage =
   <[HISTORY_KEY := JSON_stringify (toJS_history h)]> storage) /\
  (saveEffect h storage !! HISTORY_KEY = Some (JSON_stringify (toJS_history [])) ->
   storage !! HISTORY_KEY = Some (JSON_stringify (toJS_history []))).
Proof.
  split; [reflexivity|]. destruct h as [|item h].
  - repeat split; auto; congruence.
  - repeat split; try congruence.
    unfold saveEffect. cbn [length Nat.ltb Nat.leb]. rewrite lookup_insert_eq.
    destruct (stringify_history_cons item h) as [text ->]. discriminate.
Qed.

(** C8: when the slot is missing, or holds a text that [JSON.parse] refuses,
    the load effect completes normally without calling the setter, and
    startup ends with the empty history and the storage as it was. *)
Theorem load_missing_or_malformed (storage : Storage) :
  (storage !! HISTORY_KEY = None \/
   exists saved e, storage !! HISTORY_KEY = Some saved /\
                   JSON_parse saved = Throw e) ->
  loadEffect storage = Normal None /\
  mount storage = Normal (Some [], storage).
Proof.
  intros H.
  assert (E : loadEffect storage = Normal None).
  { unfold loadEffect. destruct H as [-> | (saved & e & -> & Hp)]; [reflexivity|].
    destruct saved; [reflexivity|]. rewrite Hp. reflexivity. }
  split; [exact E|]. unfold mount. rewrite E. reflexivity.
Qed.

Lemma load_missing_or_malformed_witness :
  let storage : Storage := {[HISTORY_KEY := jlit "{'id':"]} in
  (storage !! HISTORY_KEY = None \/
   exists saved e, storage !! HISTORY_KEY = Some saved /\
                   JSON_parse saved = Throw e) /\
  loadEffect storage = Normal None /\
  mount storage = Normal (Some [], storage).
Proof.
  intros storage.
  assert (H : storage !! HISTORY_KEY = None \/
              exists saved e, storage !! HISTORY_KEY = Some saved /\
                              JSON_parse saved = Throw e).
  { right. exists (jlit "{'id':"), SyntaxError. split.
    - apply lookup_singleton_eq.
    - vm_compute. reflexivity. }
  split; [exact H|]. apply (load_missing_or_malformed storage H).
Defined.

(** C3, amended: a non-empty history of well-formed records that is persisted
    and reloaded comes back equal to itself (the load effect hands the setter
    a value equal to the one that was serialised); so does the empty history
    when the slot is absent. *)
Theorem persist_reload_roundtrip (h : list AnalysisItem) (storage : Storage) :
  (h <> [] \/ storage !! HISTORY_KEY = None) ->
  forallb wf_item h = true ->
  persist_then_reload h storage = Some h /\
  (h <> [] ->
   loadEffect (saveEffect h storage) = Normal (Some (toJS_history h))).
Proof.
  intros Hcase Hwf. unfold persist_then_reload. destruct h as [|item h].
  - destruct Hcase as [? | Hnone]; [congruence|].
    change (saveEffect [] storage) with storage.
    unfold loadEffect. rewrite Hnone. split; [reflexivity | congruence].
  - assert (E : loadEffect (saveEffect (item :: h) storage) =
                Normal (Some (toJS_history (item :: h)))).
    { apply loadEffect_saved with (saved := JSON_stringify (toJS_history (item :: h))).
      - unfold saveEffect. cbn [length Nat.ltb Nat.leb]. apply lookup_insert_eq.
      - apply JSON_parse_stringify, wf_toJS_history, Hwf. }
    rewrite E. cbn [history_after_load]. rewrite fromJS_history_toJS. auto.
Qed.

Lemma persist_reload_roundtrip_witness :
  ([sample_item] <> [] \/ (∅ : Storage) !! HISTORY_KEY = None) /\
  forallb wf_item [sample_item] = true /\
  persist_then_reload [sample_item] ∅ = Some [sample_item] /\
  ([sample_item] <> [] ->
   loadEffect (saveEffect [sample_item] ∅) =
   Normal (Some (toJS_history [sample_item]))).
Proof.
  assert (H1 : [sample_item] <> [] \/ (∅ : Storage) !! HISTORY_KEY = None)
    by (left; discriminate).
  assert (H2 : forallb wf_item [sample_item] = true) by reflexivity.
  split; [exact H1|]. split; [exact H2|].
  exact (persist_reload_roundtrip [sample_item] ∅ H1 H2).
Defined.

(** C3 as stated fails for the empty sequence: the save effect does not write
    it, so a slot that holds an earlier history is read back instead. *)
Lemma empty_history_reload_counterexample :
  let storage : Storage :=
    {[HISTORY_KEY := JSON_stringify (toJS_history [sample_item])]} in
  forallb wf_item [] = true /\
  persist_then_reload [] storage = Some [sample_item] /\
  persist_then_reload [] storage <> Some [].
Proof.
  intros storage.
  assert (E : persist_then_reload [] storage = Some [sample_item]).
  { unfold persist_then_reload. change (saveEffect [] storage) with storage.
    rewrite (loadEffect_saved storage
               (JSON_stringify (toJS_history [sample_item]))
               (toJS_history [sample_item])).
    - apply fromJS_history_toJS.
    - apply lookup_singleton_eq.
    - apply JSON_parse_stringify. reflexivity. }
  rewrite E. repeat split. discriminate.
Qed.

(** ** Normalisation of a fenced response *)

(** A fenced document without a backtick triple is parsed as the document
    itself. *)
Lemma normalize_fenced tagged doc v :
  includes FENCE doc = false ->
  JSON_parse doc = Normal v ->
  normalize (VStr (fenced tagged doc)) = Normal v.
Proof.
  intros Hdoc Hp. unfold normalize. rewrite cleanJson_fenced by assumption.
  apply JSON_parse_trim, JSON_parse_line_feed, Hp.
Qed.

(** C1 fails on a document with a backtick triple inside a string: the
    second replacement removes it with the fence, and the parsed result
    differs from that of the document. *)
Theorem fenced_backticks_are_stripped :
  let doc := jlit "{'a':'```'}" in
  JSON_parse doc = Normal (VObj [(lit "a", VStr (lit "```"))]) /\
  normalize (VStr (fenced true doc)) = Normal (VObj [(lit "a", VStr [])]) /\
  normalize (VStr (fenced true doc)) <> JSON_parse doc.
Proof.
  cbv zeta. repeat split; try (vm_compute; reflexivity).
  vm_compute. discriminate.
Qed.

(** ** The analysis handler *)

Lemma handleAnalyze_accepted now_id now_ts st :
  rejects (currentProblem st) = false ->
  handleAnalyze now_id now_ts st =
  Await (orchestrator_call st) (awaiting now_id now_ts st)
    (resume_analysis (Number_toString now_id)).
Proof. intros H. unfold handleAnalyze. rewrite H. reflexivity. Qed.

Lemma handleAnalyze_rejected now_id now_ts st :
  rejects (currentProblem st) = true ->
  handleAnalyze now_id now_ts st =
  Done (Normal tt) (snd (alert MIN_LENGTH_ALERT st)).
Proof. intros H. unfold handleAnalyze. rewrite H. reflexivity. Qed.

Lemma resume_after_throw analysisId settled st e :
  on_response analysisId settled st = (Throw e, st) ->
  resume_analysis analysisId settled st =
  Done (Normal tt) (failed_state analysisId st).
Proof.
  intros H. unfold resume_analysis, try_catch_finally. rewrite H. reflexivity.
Qed.

Lemma on_response_rejected analysisId e st :
  on_response analysisId (Throw e) st = (Throw e, st).
Proof. reflexivity. Qed.

Lemma on_response_malformed analysisId raw e st :
  JSON_parse (cleanJson raw) = Throw e ->
  on_response analysisId (Normal (VStr raw)) st = (Throw e, st).
Proof.
  intros H. unfold on_response, bind, lift. cbn [normalize]. rewrite H.
  reflexivity.
Qed.

(** The history of [failed_state] behind [awaiting]: the new record, failed,
    in front of the old records updated by the same id. *)
Lemma failed_history now_id now_ts st :
  analysisHistory (failed_state (Number_toString now_id) (awaiting now_id now_ts st)) =
  spread (newAnalysis now_id now_ts (currentProblem st)) failed_patch ::
  updateById (Number_toString now_id) failed_patch (analysisHistory st).
Proof.
  cbn [failed_state awaiting analysisHistory]. unfold updateById at 1, append.
  cbn [List.map]. change (id (newAnalysis now_id now_ts (currentProblem st)))
    with (Number_toString now_id).
  rewrite jsstring_eqb_refl. reflexivity.
Qed.

(** C2, amended: when the response is a string that is not JSON behind the
    fence removal, the handler completes normally (the SyntaxError is caught);
    it has made the one gateway call; the new record is failed, without
    result and with the confidence 0 of its creation; no result is shown; an
    alert is raised.  The final state is a function of the state before and
    of the clock: nothing of the raw text is kept. *)
Theorem malformed_response_fails (st : AppState) (now_id now_ts : Z)
  (raw : jsstring) (e : error) :
  rejects (currentProblem st) = false ->
  JSON_parse (cleanJson raw) = Throw e ->
  let record := spread (newAnalysis now_id now_ts (currentProblem st)) failed_patch in
  let final := failed_state (Number_toString now_id) (awaiting now_id now_ts st) in
  perform (fun _ => Normal (VStr raw)) (handleAnalyze now_id now_ts st) =
    (Normal tt, final, [orchestrator_call st]) /\
  analysisHistory final =
    record :: updateById (Number_toString now_id) failed_patch (analysisHistory st) /\
  status record = failed /\ result record = None /\ confidence record = ZERO /\
  currentAnalysis final = None /\
  alerts final = FAILED_ALERT :: alerts st.
Proof.
  intros Hgate Hparse record final.
  rewrite handleAnalyze_accepted by assumption. cbn [perform].
  rewrite (resume_after_throw _ _ _ e) by (apply on_response_malformed, Hparse).
  cbn [perform]. split; [reflexivity|].
  split; [apply failed_history|]. repeat split.
Qed.

Lemma malformed_response_fails_witness :
  let st := sample_state in
  let raw := lit "```json not json```" in
  rejects (currentProblem st) = false /\
  JSON_parse (cleanJson raw) = Throw SyntaxError /\
  perform (fun _ => Normal (VStr raw)) (handleAnalyze 1700000000001 1700000000002 st) =
    (Normal tt,
     failed_state (Number_toString 1700000000001)
       (awaiting 1700000000001 1700000000002 st),
     [orchestrator_call st]).
Proof.
  intros st raw.
  assert (H1 : rejects (currentProblem st) = false) by (vm_compute; reflexivity).
  assert (H2 : JSON_parse (cleanJson raw) = Throw SyntaxError)
    by (vm_compute; reflexivity).
  split; [exact H1|]. split; [exact H2|].
  exact (proj1 (malformed_response_fails st 1700000000001 1700000000002 raw
                  SyntaxError H1 H2)).
Defined.

(** C2 as stated fails: two different malformed responses leave the handler
    in one and the same final state, with the same completion and the same
    calls, so the failure does not carry the raw text. *)
Lemma malformed_text_not_kept_counterexample :
  let run raw :=
    perform (fun _ => Normal (VStr raw))
      (handleAnalyze 1700000000001 1700000000002 sample_state) in
  JSON_parse (cleanJson (lit "oops")) = Throw SyntaxError /\
  JSON_parse (cleanJson (lit "{nope")) = Throw SyntaxError /\
  lit "oops" <> lit "{nope" /\
  run (lit "oops") = run (lit "{nope").
Proof.
  cbv zeta. repeat split; try (vm_compute; reflexivity).
  vm_compute. discriminate.
Qed.

(** C7, amended: when the gateway call rejects, the record of the submission
    goes from in progress to failed, its result stays absent, and the handler
    completes normally: the rejection is caught.  Its confidence is not
    unset: the record is created with the number 0 and keeps it, so the
    object of the failed record has the property, with 0. *)
Theorem gateway_rejection_fails (st : AppState) (now_id now_ts : Z)
  (reason : value) :
  rejects (currentProblem st) = false ->
  let created := newAnalysis now_id now_ts (currentProblem st) in
  let record := spread created failed_patch in
  let final := failed_state (Number_toString now_id) (awaiting now_id now_ts st) in
  handleAnalyze now_id now_ts st =
    Await (orchestrator_call st) (awaiting now_id now_ts st)
      (resume_analysis (Number_toString now_id)) /\
  analysisHistory (awaiting now_id now_ts st) = created :: analysisHistory st /\
  status created = in_progress /\
  perform (fun _ => Throw (Rejected reason)) (handleAnalyze now_id now_ts st) =
    (Normal tt, final, [orchestrator_call st]) /\
  analysisHistory final =
    record :: updateById (Number_toString now_id) failed_patch (analysisHistory st) /\
  id record = id created /\
  status record = failed /\
  confidence record = confidence created /\ confidence record = ZERO /\
  result record = None /\
  get_prop (toJS record) (lit "confidence") = Normal (Some ZERO).
Proof.
  intros Hgate created record final.
  rewrite handleAnalyze_accepted by assumption. cbn [perform].
  rewrite (resume_after_throw _ _ _ (Rejected reason))
    by apply on_response_rejected.
  cbn [perform]. split; [reflexivity|]. split; [reflexivity|].
  split; [reflexivity|]. split; [reflexivity|].
  split; [apply failed_history|]. repeat split.
Qed.

Lemma gateway_rejection_fails_witness :
  let st := sample_state in
  rejects (currentProblem st) = false /\
  perform (fun _ => Throw (Rejected VNull))
    (handleAnalyze 1700000000001 1700000000002 st) =
    (Normal tt,
     failed_state (Number_toString 1700000000001)
       (awaiting 1700000000001 1700000000002 st),
     [orchestrator_call st]).
Proof.
  intros st.
  assert (H1 : rejects (currentProblem st) = false) by (vm_compute; reflexivity).
  split; [exact H1|].
  exact (proj1 (proj2 (proj2 (proj2
    (gateway_rejection_fails st 1700000000001 1700000000002 VNull H1))))).
Defined.

(** C7 as stated fails: the confidence of the failed record is not unset.
    The object of the failed record has the property [confidence], with the
    number 0, and the record of a run that completed on a response without
    a confidence carries the same 0. *)
Lemma failed_confidence_is_set_counterexample :
  let failed_run :=
    perform (fun _ => Throw (Rejected VNull))
      (handleAnalyze 1700000000001 1700000000002 sample_state) in
  let completed_run :=
    perform (fun _ => Normal (VObj []))
      (handleAnalyze 1700000000001 1700000000002 sample_state) in
  exists record rest record' rest',
    analysisHistory (snd (fst failed_run)) = record :: rest /\
    status record = failed /\
    get_prop (toJS record) (lit "confidence") = Normal (Some ZERO) /\
    get_prop (toJS record) (lit "confidence") <> Normal None /\
    analysisHistory (snd (fst completed_run)) = record' :: rest' /\
    status record' = completed /\
    confidence record' = confidence record.
Proof.
  cbv zeta. eexists _, _, _, _.
  split; [vm_compute; reflexivity|]. split; [reflexivity|].
  split; [vm_compute; reflexivity|]. split; [vm_compute; discriminate|].
  split; [vm_compute; reflexivity|]. split; reflexivity.
Qed.

(** ** The length gate *)

Lemma rejects_short s : (length s < 10)%nat -> rejects s = true.
Proof.
  intros H. unfold rejects. apply Nat.ltb_lt in H. rewrite H.
  apply orb_true_r.
Qed.

(** C9, amended: [handleAnalyze] turns down every problem text of fewer than
    10 code units: it raises the alert, leaves the history alone and makes no
    gateway call, whatever the gateway would answer.  [runAnalysis] of the
    decomposed variant has no minimum length: it returns at once, without a
    call, when the text is empty behind [trim], and on every other text it
    calls the gateway, first for the causal analysis. *)
Theorem short_problem_is_rejected (st : AppState) (now_id now_ts : Z)
  (rf : ReasonForge.State) (now : Z) (iso : jsstring)
  (gateway : list value -> completion value) :
  (length (currentProblem st) < 10)%nat ->
  perform gateway (handleAnalyze now_id now_ts st) =
    (Normal tt,
     {| analysisHistory := analysisHistory st;
        currentProblem := currentProblem st;
        isAnalyzing := isAnalyzing st;
        currentAnalysis := currentAnalysis st;
        alerts := MIN_LENGTH_ALERT :: alerts st |},
     []) /\
  (trim (ReasonForge.problemInput rf) = [] ->
   perform gateway (ReasonForge.runAnalysis now iso rf) = (Normal tt, rf, [])) /\
  (trim (ReasonForge.problemInput rf) <> [] ->
   exists c rf' calls,
     perform gateway (ReasonForge.runAnalysis now iso rf) =
     (c, rf',
      [VStr (lit "Analyze the causal relationships in this problem: "
             ++ ReasonForge.problemInput rf);
       VStr ReasonForge.AGENT_causalAnalysis] :: calls)).
Proof.
  intros Hshort. split; [|split].
  - rewrite handleAnalyze_rejected by (apply rejects_short, Hshort). reflexivity.
  - intros Hblank. unfold ReasonForge.runAnalysis. rewrite Hblank. reflexivity.
  - intros Htext. unfold ReasonForge.runAnalysis.
    destruct (trim (ReasonForge.problemInput rf)) as [|c t]; [congruence|].
    cbn [truthy negb perform].
    destruct (perform gateway _) as [[c' rf'] calls]. eauto.
Qed.

Lemma short_problem_is_rejected_witness :
  (length (currentProblem short_state) < 10)%nat /\
  trim (ReasonForge.problemInput blank_input) = [] /\
  perform unsuccessful (handleAnalyze 1 2 short_state) =
    (Normal tt,
     {| analysisHistory := []; currentProblem := lit "hello";
        isAnalyzing := false; currentAnalysis := None;
        alerts := [MIN_LENGTH_ALERT] |},
     []) /\
  perform unsuccessful (ReasonForge.runAnalysis 1 (lit "2026-01-01T00:00:00.000Z")
                          blank_input) =
    (Normal tt, blank_input, []).
Proof.
  assert (H1 : (length (currentProblem short_state) < 10)%nat)
    by (vm_compute; lia).
  assert (H2 : trim (ReasonForge.problemInput blank_input) = []) by reflexivity.
  split; [exact H1|]. split; [exact H2|].
  destruct (short_problem_is_rejected short_state 1 2 blank_input 1
              (lit "2026-01-01T00:00:00.000Z") unsuccessful H1) as (Ha & Hb & _).
  split; [exact Ha | exact (Hb H2)].
Defined.

(** C9 as stated fails.  On the decomposed variant a problem of 5 code units
    passes the gate and the three agents are called.  And the minimum of
    [handleAnalyze] counts code units, not characters: five characters
    outside the Basic Multilingual Plane are ten code units and pass it. *)
Lemma runAnalysis_short_problem_counterexample :
  length (ReasonForge.problemInput short_input) = 5%nat /\
  snd (perform unsuccessful
         (ReasonForge.runAnalysis 1 (lit "2026-01-01T00:00:00.000Z") short_input)) =
  [ [VStr (lit "Analyze the causal relationships in this problem: hello");
     VStr ReasonForge.AGENT_causalAnalysis];
    [VStr (lit "Validate the reasoning in this problem: hello");
     VStr ReasonForge.AGENT_commonSenseValidator];
    [VStr (lit "Quantify the uncertainty in this analysis: hello");
     VStr ReasonForge.AGENT_uncertaintyQuantifier] ] /\
  length five_astral = 10%nat /\
  rejects five_astral = false.
Proof. repeat split; vm_compute; reflexivity. Qed.

(** ** The status invariant *)

Lemma get_member_wf key members v :
  forallb (fun kv => wf_value (snd kv)) members = true ->
  get_member key members = Some v -> wf_value v = true.
Proof.
  induction members as [|[k w] members IH]; cbn [get_member forallb snd];
    [discriminate|].
  intros H. apply andb_true_iff in H as [Hw H].
  destruct (jsstring_eqb k key); [|auto]. intros E. inversion E; subst. exact Hw.
Qed.

Lemma get_prop_wf v key x :
  wf_value v = true -> get_prop v key = Normal (Some x) -> wf_value x = true.
Proof.
  destruct v; cbn [get_prop]; try discriminate.
  cbn [wf_value]. intros H E. apply andb_true_iff in H as [_ H].
  inversion E. eapply get_member_wf; eauto.
Qed.

Lemma or_zero_wf o :
  (forall x, o = Some x -> wf_value x = true) -> wf_value (or_zero o) = true.
Proof.
  destruct o as [x|]; cbn [or_zero]; [|reflexivity]. intros H.
  destruct (truthy x); [auto | reflexivity].
Qed.

Lemma overall_confidence_wf parsedResult conf :
  wf_value parsedResult = true ->
  overall_confidence parsedResult = Normal conf -> wf_value conf = true.
Proof.
  intros Hw. unfold overall_confidence.
  destruct (get_prop parsedResult (lit "uncertainty_assessment"))
    as [[ua|]|] eqn:E; try discriminate.
  - pose proof (get_prop_wf _ _ _ Hw E) as Hua.
    assert (Hoc : forall c,
               match get_prop ua (lit "overall_confidence") with
               | Normal oc => Normal (or_zero oc)
               | Throw e => Throw e
               end = Normal c -> wf_value c = true).
    { intros c. destruct (get_prop ua (lit "overall_confidence")) as [oc|] eqn:Eo;
        [|discriminate].
      intros H. inversion H. apply or_zero_wf.
      intros x ->. eapply get_prop_wf; eauto. }
    destruct ua; try apply Hoc. intros H. inversion H. reflexivity.
  - intros H. inversion H. reflexivity.
Qed.

Lemma normalize_wf response parsedResult :
  wf_value response = true ->
  normalize response = Normal parsedResult -> wf_value parsedResult = true.
Proof.
  intros Hw. destruct response; cbn [normalize];
    try (intros H; inversion H; subst; exact Hw).
  apply JSON_parse_wf.
Qed.

(** How a suspended run ends: the records of its id are patched, as failed
    or, when the response was normalised, as completed with that result. *)
Lemma resume_analysis_settles analysisId settled st :
  exists st' patch,
    resume_analysis analysisId settled st = Done (Normal tt) st' /\
    analysisHistory st' = updateById analysisId patch (analysisHistory st) /\
    (patch = failed_patch \/
     exists response parsedResult conf,
       settled = Normal response /\
       normalize response = Normal parsedResult /\
       overall_confidence parsedResult = Normal conf /\
       patch = completed_patch parsedResult conf).
Proof.
  unfold resume_analysis, try_catch_finally, on_response, bind, lift.
  destruct settled as [response|e].
  2: { exists (failed_state analysisId st), failed_patch. auto. }
  destruct (normalize response) as [parsedResult|e] eqn:En.
  2: { exists (failed_state analysisId st), failed_patch. auto. }
  destruct (overall_confidence parsedResult) as [conf|e] eqn:Ec.
  2: { exists (failed_state analysisId st), failed_patch. auto. }
  exists (completed_state analysisId parsedResult conf st),
    (completed_patch parsedResult conf).
  repeat split. right. exists response, parsedResult, conf. auto.
Qed.

Lemma same_id_same_item (h : list AnalysisItem) a b :
  List.NoDup (List.map id h) -> In a h -> In b h -> id a = id b -> a = b.
Proof.
  induction h as [|x h IH]; cbn [List.map In]; intros Hnd Ha Hb Hid; [tauto|].
  inversion Hnd as [|? ? Hx Hnd']; subst.
  destruct Ha as [->|Ha], Hb as [->|Hb]; auto.
  - exfalso. apply Hx. rewrite Hid. apply List.in_map, Hb.
  - exfalso. apply Hx. rewrite <- Hid. apply List.in_map, Ha.
Qed.

Lemma in_updateById analysisId patch (h : list AnalysisItem) item' :
  In item' (updateById analysisId patch h) ->
  exists item, In item h /\
    ((id item = analysisId /\ item' = spread item patch) \/
     (id item <> analysisId /\ item' = item)).
Proof.
  unfold updateById. rewrite List.in_map_iff. intros (item & E & Hin).
  exists item. split; [exact Hin|].
  destruct (jsstring_eqb_spec (id item) analysisId); auto.
Qed.

Lemma in_updateById_other analysisId patch (h : list AnalysisItem) item :
  In item h -> id item <> analysisId -> In item (updateById analysisId patch h).
Proof.
  intros Hin Hid. unfold updateById. apply List.in_map_iff. exists item.
  split; [|exact Hin].
  destruct (jsstring_eqb_spec (id item) analysisId); congruence.
Qed.

(** A patch of the handler, applied to the record in progress of its id,
    keeps the records as they should be. *)
Lemma updateById_item_ok (h : list AnalysisItem) i patch pending :
  (patch = failed_patch \/ exists r conf, patch = completed_patch r conf) ->
  List.NoDup (List.map id h) ->
  In pending h -> id pending = i -> status pending = in_progress ->
  Forall item_ok h ->
  Forall item_ok (updateById i patch h).
Proof.
  intros Hpatch Hnd Hpin Hpid Hpst Hok.
  rewrite List.Forall_forall in Hok. apply List.Forall_forall.
  intros item' Hin'.
  apply in_updateById in Hin' as (item & Hin & [[Hid ->] | [Hid ->]]); auto.
  assert (item = pending) as -> by (apply (same_id_same_item h); congruence).
  pose proof (Hok pending Hpin) as Hitem. unfold item_ok in *.
  rewrite Hpst in Hitem.
  destruct Hpatch as [-> | (r & conf & ->)]; cbn; [exact Hitem | discriminate].
Qed.

Lemma updateById_wf (h : list AnalysisItem) i patch :
  (patch = failed_patch \/
   exists r conf, patch = completed_patch r conf /\
                  wf_value r = true /\ wf_value conf = true) ->
  forallb wf_item h = true -> forallb wf_item (updateById i patch h) = true.
Proof.
  intros Hpatch. unfold updateById.
  induction h as [|x h IH]; cbn [List.map forallb]; [reflexivity|].
  intros H. apply andb_true_iff in H as [Hx H]. rewrite IH by assumption.
  rewrite andb_true_r. destruct (jsstring_eqb (id x) i); [|exact Hx].
  destruct Hpatch as [-> | (r & conf & -> & Hr & Hc)].
  - exact Hx.
  - unfold wf_item. cbn. rewrite Hr, Hc. reflexivity.
Qed.

Lemma saveEffect_persisted h s : persisted h (saveEffect h s) <-> (h = [] -> persisted h s).
Proof.
  unfold persisted, saveEffect. destruct h as [|x h]; cbn [length Nat.ltb Nat.leb].
  - tauto.
  - rewrite lookup_insert_eq. split; [intros _ ?; discriminate | reflexivity].
Qed.

(** A start reads back the history that the slot holds. *)
Lemma mount_persisted h s :
  forallb wf_item h = true -> persisted h s ->
  exists s', mount s = Normal (Some h, s') /\ persisted h s'.
Proof.
  intros Hwf Hp. unfold mount. change (saveEffect [] s) with s.
  destruct h as [|x h].
  - unfold loadEffect. unfold persisted in Hp. rewrite Hp. cbn [history_after_load].
    exists s. split; [reflexivity | exact Hp].
  - rewrite (loadEffect_saved s _ (toJS_history (x :: h)) Hp)
      by (apply JSON_parse_stringify, wf_toJS_history, Hwf).
    cbn [history_after_load]. rewrite fromJS_history_toJS.
    eexists. split; [reflexivity|]. apply saveEffect_persisted. discriminate.
Qed.

Lemma reachable_invariant sys : reachable sys -> invariant sys.
Proof.
  induction 1 as [ s Hs | sys text _ IH | sys now_id now_ts c st' _ IH Hrun
                 | sys now_id now_ts args st' k _ IH Hfresh Hrun
                 | sys P1 k P2 settled c st' _ IH HP Hval Hrun
                 | sys h s' _ IH Hmount ]; unfold invariant in *;
    cbn [sys_app sys_storage sys_suspended] in *.
  - repeat split; try constructor; try assumption.
    exists []. repeat split; try constructor. intros i [].
  - exact IH.
  - unfold handleAnalyze in Hrun.
    destruct (rejects (currentProblem (sys_app sys))); [|discriminate].
    inversion Hrun; subst. exact IH.
  - unfold handleAnalyze in Hrun.
    destruct (rejects (currentProblem (sys_app sys))); [discriminate|].
    inversion Hrun; subst. clear Hrun.
    destruct IH as ((ids & HP & Hids & Hpending) & Hnd & Hok & Hwf & Hst).
    set (item := newAnalysis now_id now_ts (currentProblem (sys_app sys))).
    assert (Hnew : ~ In (Number_toString now_id) ids).
    { intros Hin. destruct (Hpending _ Hin) as (x & Hx & Hid & _).
      apply Hfresh. rewrite <- Hid. apply List.in_map, Hx. }
    cbn [analysisHistory List.map]. unfold append. repeat split.
    + exists (Number_toString now_id :: ids). cbn [List.map].
      rewrite HP. repeat split.
      * constructor; assumption.
      * intros i [<-|Hi].
        -- exists item. repeat split. left. reflexivity.
        -- destruct (Hpending i Hi) as (x & Hx & Hid & Hxs).
           exists x. repeat split; auto. right. exact Hx.
    + constructor; assumption.
    + constructor; [reflexivity | exact Hok].
    + cbn [forallb]. rewrite Hwf. reflexivity.
    + apply saveEffect_persisted. discriminate.
  - destruct IH as ((ids & HP' & Hids & Hpending) & Hnd & Hok & Hwf & Hst).
    rewrite HP in HP'. symmetry in HP'.
    apply List.map_eq_app in HP' as (ids1 & ids' & -> & <- & HP').
    apply List.map_eq_cons in HP' as (i & ids2 & -> & <- & <-).
    destruct (resume_analysis_settles i settled (sys_app sys))
      as (st2 & patch & Hres & Hhist & Hpatch).
    rewrite Hres in Hrun. inversion Hrun; subst. clear Hrun.
    destruct (Hpending i) as (pending & Hpin & Hpid & Hpst);
      [apply List.in_elt|].
    rewrite Hhist. repeat split.
    + exists (ids1 ++ ids2). rewrite List.map_app. repeat split.
      * apply List.NoDup_remove_1 in Hids. exact Hids.
      * intros j Hj.
        assert (j <> i) as Hji.
        { intros ->. apply List.NoDup_remove_2 in Hids. auto. }
        destruct (Hpending j) as (item & Hin & Hid & Hitem).
        { apply List.in_app_or in Hj. apply List.in_or_app.
          destruct Hj; [left | right; right]; assumption. }
        exists item. split; [|auto]. apply in_updateById_other; congruence.
    + rewrite updateById_ids. exact Hnd.
    + apply (updateById_item_ok _ _ _ pending); auto.
      destruct Hpatch as [?|(? & r & conf & _ & _ & _ & ?)]; eauto.
    + apply updateById_wf; [|exact Hwf].
      destruct Hpatch as [?|(response & r & conf & -> & Hn & Hc & ->)];
        [left; assumption|].
      right. exists r, conf. cbn [engine_value] in Hval.
      pose proof (normalize_wf _ _ Hval Hn) as Hr.
      repeat split; [exact Hr|]. eapply overall_confidence_wf; eauto.
    + apply saveEffect_persisted. intros E. unfold persisted in *.
      rewrite E. destruct (analysisHistory (sys_app sys)); [exact Hst | discriminate].
  - destruct IH as (_ & Hnd & Hok & Hwf & Hst).
    destruct (mount_persisted _ _ Hwf Hst) as (s2 & Hm & Hp2).
    rewrite Hm in Hmount. inversion Hmount; subst.
    cbn [restart analysisHistory]. repeat split; auto.
    exists []. repeat split; try constructor. intros i [].
Qed.


(** Every reachable history is read back by a reload. *)
Lemma reachable_reload sys :
  reachable sys ->
  exists s',
    mount (sys_storage sys) = Normal (Some (analysisHistory (sys_app sys)), s').
Proof.
  intros Hreach.
  destruct (reachable_invariant sys Hreach) as (_ & _ & _ & Hwf & Hp).
  destruct (mount_persisted _ _ Hwf Hp) as (s' & Hm & _). eauto.
Qed.

(** C4, amended: in every state that the system reaches with clock readings
    that give each submission an id of its own, a completed record has a
    result and a failed record has none; a record is created in progress, at
    the head of the history, by the run of [handleAnalyze] that then awaits
    the gateway; and every run that is still suspended has its record in
    progress and, however the gateway settles its call, ends normally with
    that record completed, the normalised response being its result, or
    failed without result. *)
Theorem status_invariant (sys : System) :
  reachable sys ->
  (forall item, In item (analysisHistory (sys_app sys)) ->
     (status item = completed -> exists r, result item = Some r) /\
     (status item = failed -> result item = None)) /\
  (forall now_id now_ts args st' k,
     handleAnalyze now_id now_ts (sys_app sys) = Await args st' k ->
     exists created,
       analysisHistory st' = created :: analysisHistory (sys_app sys) /\
       status created = in_progress /\ result created = None /\
       k = resume_analysis (id created)) /\
  (forall P1 k P2,
     sys_suspended sys = P1 ++ k :: P2 ->
     exists i,
       k = resume_analysis i /\
       (exists item, In item (analysisHistory (sys_app sys)) /\ id item = i /\
                     status item = in_progress) /\
       forall settled,
       exists st',
         k settled (sys_app sys) = Done (Normal tt) st' /\
         forall item',
           In item' (analysisHistory st') -> id item' = i ->
           (status item' = completed /\
            exists response parsedResult,
              settled = Normal response /\
              normalize response = Normal parsedResult /\
              result item' = Some parsedResult) \/
           (status item' = failed /\ result item' = None)).
Proof.
  intros Hreach.
  destruct (reachable_invariant sys Hreach)
    as ((ids & HP & Hids & Hpending) & Hnd & Hok & _ & _).
  rewrite List.Forall_forall in Hok. split; [|split].
  - intros item Hin. pose proof (Hok item Hin) as Hitem.
    unfold item_ok in Hitem. split; intros E; rewrite E in Hitem.
    + destruct (result item); [eauto | congruence].
    + exact Hitem.
  - intros now_id now_ts args st' k Hrun. unfold handleAnalyze in Hrun.
    destruct (rejects (currentProblem (sys_app sys))); [discriminate|].
    inversion Hrun; subst.
    exists (newAnalysis now_id now_ts (currentProblem (sys_app sys))).
    repeat split.
  - intros P1 k P2 HP'. rewrite HP' in HP. symmetry in HP.
    apply List.map_eq_app in HP as (ids1 & ids' & -> & <- & HP).
    apply List.map_eq_cons in HP as (i & ids2 & -> & <- & <-).
    destruct (Hpending i) as (pending & Hpin & Hpid & Hpst);
      [apply List.in_elt|].
    exists i. split; [reflexivity|]. split; [eauto|].
    intros settled.
    destruct (resume_analysis_settles i settled (sys_app sys))
      as (st' & patch & Hrun & Hhist & Hpatch).
    exists st'. split; [exact Hrun|].
    intros item' Hin' Hid'. rewrite Hhist in Hin'.
    apply in_updateById in Hin' as (x & Hx & [[Hxid ->] | [Hxid ->]]);
      [|congruence].
    assert (x = pending) as ->
      by (apply (same_id_same_item _ _ _ Hnd); congruence).
    pose proof (Hok pending Hpin) as Hitem. unfold item_ok in Hitem.
    rewrite Hpst in Hitem.
    destruct Hpatch as [-> | (response & parsed & conf & -> & Hn & _ & ->)].
    + right. split; [reflexivity | exact Hitem].
    + left. split; [reflexivity|]. exists response, parsed. auto.
Qed.

Lemma awaiting_system_reachable : reachable awaiting_system.
Proof.
  apply (reach_submitted {| sys_app := typed_state; sys_storage := ∅; sys_suspended := [] |}
           5 6 (orchestrator_call typed_state)).
  - apply (reach_edit {| sys_app := initialState; sys_storage := ∅; sys_suspended := [] |}).
    apply reach_start. reflexivity.
  - intros H. exact H.
  - vm_compute. reflexivity.
Defined.

Lemma status_invariant_witness :
  reachable awaiting_system /\
  (forall item, In item (analysisHistory (sys_app awaiting_system)) ->
     (status item = completed -> exists r, result item = Some r) /\
     (status item = failed -> result item = None)) /\
  (forall P1 k P2,
     sys_suspended awaiting_system = P1 ++ k :: P2 ->
     exists i,
       k = resume_analysis i /\
       (exists item, In item (analysisHistory (sys_app awaiting_system)) /\
                     id item = i /\ status item = in_progress) /\
       forall settled,
       exists st',
         k settled (sys_app awaiting_system) = Done (Normal tt) st' /\
         forall item',
           In item' (analysisHistory st') -> id item' = i ->
           (status item' = completed /\
            exists response parsedResult,
              settled = Normal response /\
              normalize response = Normal parsedResult /\
              result item' = Some parsedResult) \/
           (status item' = failed /\ result item' = None)).
Proof.
  pose proof (status_invariant awaiting_system awaiting_system_reachable)
    as (H1 & _ & H3).
  split; [exact awaiting_system_reachable|]. split; [exact H1 | exact H3].
Defined.

(** C4 as stated fails on both counts.  A reload while the gateway call is
    awaited gives a reachable state with a record in progress and no run
    suspended: nothing is left to resolve it.  And when a submission gets
    the id of an older record (the clock readings are not distinct) and its
    call is rejected, the older record ends failed with the result it had. *)
Lemma unresolved_record_counterexample :
  (exists sys item,
     reachable sys /\
     sys_suspended sys = [] /\
     In item (analysisHistory (sys_app sys)) /\
     status item = in_progress) /\
  (exists item,
     In item (analysisHistory collided_state) /\
     status item = failed /\
     result item = Some sample_result).
Proof.
  split.
  - destruct (reachable_reload awaiting_system awaiting_system_reachable)
      as [s' Hm].
    exists {| sys_app := restart (analysisHistory (sys_app awaiting_system));
              sys_storage := s'; sys_suspended := [] |},
      (newAnalysis 5 6 (currentProblem typed_state)).
    split; [exact (reach_reload awaiting_system _ s' awaiting_system_reachable Hm)|].
    split; [reflexivity|]. split; [left; reflexivity | reflexivity].
  - exists (spread sample_item failed_patch).
    split; [vm_compute; right; left; reflexivity|]. split; reflexivity.
Qed.

(** ** What the fence removal leaves *)

Lemma starts_with_app_l p a b :
  starts_with p a = true -> starts_with p (a ++ b) = true.
Proof.
  revert a; induction p as [|x p IH]; intros [|y a]; simpl; auto; try discriminate.
  intros H. apply andb_true_iff in H as [-> H]. simpl. auto.
Qed.

Lemma includes_app p a b :
  includes p (a ++ b) = false -> includes p a = false /\ includes p b = false.
Proof.
  induction a as [|c a IH]; cbn [app].
  - intros H. split; [|exact H].
    destruct p; [destruct b; discriminate H | reflexivity].
  - cbn [includes]. intros H. apply orb_false_iff in H as [H1 H2].
    destruct (IH H2) as [Ha Hb]. split; [|exact Hb].
    rewrite Ha, orb_false_r.
    destruct (starts_with p (c :: a)) eqn:E; [|reflexivity].
    pose proof (starts_with_app_l p (c :: a) b E) as E'. cbn [app] in E'.
    congruence.
Qed.

Lemma trimStart_suffix s : exists w, s = w ++ trimStart s.
Proof.
  induction s as [|c s [w IH]]; [exists []; reflexivity|].
  cbn [trimStart]. destruct (isWhiteSpace c).
  - exists (c :: w). cbn [app]. congruence.
  - exists []. reflexivity.
Qed.

Lemma trimEnd_prefix s : exists w, s = trimEnd s ++ w.
Proof.
  unfold trimEnd. destruct (trimStart_suffix (rev s)) as [w E].
  exists (rev w). rewrite <- List.rev_app_distr, <- E, List.rev_involutive.
  reflexivity.
Qed.

Lemma includes_trim p s : includes p s = false -> includes p (trim s) = false.
Proof.
  intros H. unfold trim.
  destruct (trimStart_suffix s) as [w E]. rewrite E in H.
  apply includes_app in H as [_ H].
  destruct (trimEnd_prefix (trimStart s)) as [w' E']. rewrite E' in H.
  apply includes_app in H as [H _]. exact H.
Qed.

(** Behind a code unit that starts no fence, the replacement puts no fence
    either: what is kept of a run of backticks is shorter than three, and is
    followed by a code unit that was there before. *)
Lemma replace_no_new_fence c t :
  starts_with FENCE (c :: t) = false ->
  starts_with FENCE (c :: replace_fence FENCE 0 t) = false.
Proof.
  set (R := replace_fence FENCE 0). rewrite FENCE_units. intros H.
  destruct (N.eqb_spec 96 c) as [<-|Hc];
    [|cbn [starts_with]; apply N.eqb_neq in Hc; rewrite Hc; reflexivity].
  destruct t as [|d t]; [reflexivity|].
  destruct (N.eqb_spec 96 d) as [<-|Hd].
  2: { apply N.eqb_neq in Hd.
       assert (E : starts_with FENCE (d :: t) = false).
       { rewrite FENCE_units. cbn [starts_with]. rewrite Hd. reflexivity. }
       unfold R. rewrite (replace_fence_keep _ _ _ E).
       cbn [starts_with]. rewrite Hd, andb_false_r. reflexivity. }
  destruct t as [|e t]; [reflexivity|].
  destruct (N.eqb_spec 96 e) as [<-|He]; [discriminate H|].
  apply N.eqb_neq in He.
  assert (E1 : starts_with FENCE (96 :: e :: t)%N = false).
  { rewrite FENCE_units. cbn [starts_with]. rewrite He, andb_false_r. reflexivity. }
  assert (E2 : starts_with FENCE (e :: t) = false).
  { rewrite FENCE_units. cbn [starts_with]. rewrite He. reflexivity. }
  unfold R. rewrite (replace_fence_keep _ _ _ E1), (replace_fence_keep _ _ _ E2).
  cbn [starts_with]. rewrite He, !andb_false_r. reflexivity.
Qed.

Lemma replace_fence_no_fence_fuel n s :
  (length s <= n)%nat -> includes FENCE (replace_fence FENCE 0 s) = false.
Proof.
  revert s; induction n as [|n IH]; intros s Hn.
  - destruct s; [reflexivity | simpl in Hn; lia].
  - destruct s as [|c t]; [reflexivity|].
    destruct (starts_with FENCE (c :: t)) eqn:E.
    + rewrite replace_fence_match by (discriminate || exact E).
      apply IH. rewrite List.length_skipn. cbn [length] in *.
      change (length FENCE) with 3%nat. lia.
    + rewrite (replace_fence_keep _ _ _ E). cbn [includes].
      rewrite (replace_no_new_fence _ _ E). cbn [orb].
      apply IH. cbn [length] in Hn. lia.
Qed.

Lemma replace_fence_none pat s :
  pat <> [] -> includes pat s = false -> replace_fence pat 0 s = s.
Proof.
  intros Hp. induction s as [|c s IH]; [reflexivity|].
  cbn [includes]. intros H. apply orb_false_iff in H as [H1 H2].
  rewrite (replace_fence_keep _ _ _ H1), IH by exact H2. reflexivity.
Qed.

Lemma includes_prefix_pattern p q s :
  includes p s = false -> includes (p ++ q) s = false.
Proof.
  induction s as [|c s IH]; cbn [includes]; intros H;
    apply orb_false_iff in H as [H1 H2].
  - destruct (starts_with (p ++ q) []) eqn:E; [|reflexivity].
    apply starts_with_prefix in E. congruence.
  - rewrite (IH H2), orb_false_r.
    destruct (starts_with (p ++ q) (c :: s)) eqn:E; [|reflexivity].
    apply starts_with_prefix in E. congruence.
Qed.

Lemma trimStart_idem s : trimStart (trimStart s) = trimStart s.
Proof.
  induction s as [|c s IH]; [reflexivity|].
  cbn [trimStart]. destruct (isWhiteSpace c) eqn:E; [exact IH|].
  cbn [trimStart]. rewrite E. reflexivity.
Qed.

(** Dropping white space at the end keeps a first code unit that is none. *)
Lemma trimStart_rev_keeps c s :
  isWhiteSpace c = false -> exists u, trimStart (rev (c :: s)) = u ++ [c].
Proof.
  intros Hc. cbn [rev]. generalize (rev s) as r.
  induction r as [|d r [u IH]]; cbn [app trimStart].
  - rewrite Hc. exists []. reflexivity.
  - destruct (isWhiteSpace d); [exists u; exact IH|].
    exists (d :: r). reflexivity.
Qed.

Lemma trim_idem s : trim (trim s) = trim s.
Proof.
  unfold trim, trimEnd.
  assert (E : trimStart (rev (trimStart (rev (trimStart s)))) =
              rev (trimStart (rev (trimStart s)))).
  { destruct (trimStart s) as [|c u] eqn:Eu; [reflexivity|].
    assert (Hc : isWhiteSpace c = false).
    { clear - Eu. induction s as [|d s IH]; [discriminate|].
      cbn [trimStart] in Eu. destruct (isWhiteSpace d) eqn:Ed; [auto|].
      congruence. }
    destruct (trimStart_rev_keeps c u Hc) as [v ->].
    rewrite List.rev_app_distr. cbn [rev app trimStart]. rewrite Hc. reflexivity. }
  rewrite E, List.rev_involutive, trimStart_idem. reflexivity.
Qed.

(** X1: whatever the response, the text that [cleanJson] hands to
    [JSON.parse] holds no three consecutive backticks, and cleaning it once
    more changes nothing. *)
Theorem cleanJson_leaves_no_fence (response : jsstring) :
  includes FENCE (cleanJson response) = false /\
  cleanJson (cleanJson response) = cleanJson response.
Proof.
  assert (H : includes FENCE (cleanJson response) = false).
  { unfold cleanJson. apply includes_trim.
    apply (replace_fence_no_fence_fuel _ _ (Nat.le_refl _)). }
  split; [exact H|].
  unfold cleanJson at 1.
  rewrite (replace_fence_none FENCE_JSON), (replace_fence_none FENCE);
    try discriminate; try exact H.
  - unfold cleanJson. apply trim_idem.
  - rewrite FENCE_JSON_units. apply includes_prefix_pattern, H.
Qed.

(** X2: a string response without three consecutive backticks that
    [JSON.parse] accepts as it is, is normalised to the value it denotes. *)
Theorem plain_json_is_parsed_as_is (raw : jsstring) (v : value) :
  includes FENCE raw = false ->
  JSON_parse raw = Normal v ->
  normalize (VStr raw) = Normal v.
Proof.
  intros Hraw Hp. cbn [normalize]. unfold cleanJson.
  rewrite (replace_fence_none FENCE_JSON), (replace_fence_none FENCE);
    try discriminate; try exact Hraw.
  - apply JSON_parse_trim, Hp.
  - rewrite FENCE_JSON_units. apply includes_prefix_pattern, Hraw.
Qed.

Lemma plain_json_is_parsed_as_is_witness :
  let raw := jlit "{'a':1}" in
  includes FENCE raw = false /\
  JSON_parse raw = Normal (VObj [(lit "a", VNum 1 0)]) /\
  normalize (VStr raw) = Normal (VObj [(lit "a", VNum 1 0)]).
Proof.
  intros raw.
  assert (H1 : includes FENCE raw = false) by (vm_compute; reflexivity).
  assert (H2 : JSON_parse raw = Normal (VObj [(lit "a", VNum 1 0)]))
    by (vm_compute; reflexivity).
  split; [exact H1|]. split; [exact H2|].
  exact (plain_json_is_parsed_as_is raw _ H1 H2).
Defined.

(** ** The overall confidence of a result *)

Lemma overall_confidence_throw parsedResult e :
  overall_confidence parsedResult = Throw e -> parsedResult = VNull /\ e = TypeError.
Proof.
  unfold overall_confidence.
  destruct parsedResult as [| | | | |members]; cbn [get_prop];
    try discriminate; [intros [= <-]; auto|].
  destruct (get_member _ members) as [ua|]; [|discriminate].
  destruct ua as [| | | | |inner]; cbn [get_prop]; discriminate.
Qed.

Lemma or_zero_cases o : or_zero o = ZERO \/ truthy (or_zero o) = true.
Proof.
  unfold or_zero. destruct o as [v|]; auto.
  destruct (truthy v) eqn:E; auto.
Qed.

(** X3: reading the confidence of a result throws only on [null], and then a
    TypeError; otherwise it gives the number 0 or a truthy value. *)
Theorem overall_confidence_cases (parsedResult : value) :
  (forall e, overall_confidence parsedResult = Throw e <->
             parsedResult = VNull /\ e = TypeError) /\
  (forall conf, overall_confidence parsedResult = Normal conf ->
                conf = ZERO \/ truthy conf = true).
Proof.
  split.
  - intros e. split; [apply overall_confidence_throw|].
    intros [-> ->]. reflexivity.
  - intros conf. unfold overall_confidence.
    destruct parsedResult as [| | | | |members]; cbn [get_prop];
      try discriminate; try (intros [= <-]; auto).
    destruct (get_member _ members) as [ua|]; [|intros [= <-]; auto].
    destruct ua as [| | | | |inner]; cbn [get_prop];
      try (intros [= <-]; auto; apply or_zero_cases).
Qed.

(** ** Runs of the analysis handler, whatever the gateway does *)

Lemma completed_history now_id now_ts st parsedResult conf :
  analysisHistory
    (completed_state (Number_toString now_id) parsedResult conf
       (awaiting now_id now_ts st)) =
  spread (newAnalysis now_id now_ts (currentProblem st))
    (completed_patch parsedResult conf) ::
  updateById (Number_toString now_id) (completed_patch parsedResult conf)
    (analysisHistory st).
Proof.
  cbn [completed_state awaiting analysisHistory]. unfold updateById at 1, append.
  cbn [List.map]. change (id (newAnalysis now_id now_ts (currentProblem st)))
    with (Number_toString now_id).
  rewrite jsstring_eqb_refl. reflexivity.
Qed.

Lemma resume_after_response analysisId response parsedResult conf st :
  normalize response = Normal parsedResult ->
  overall_confidence parsedResult = Normal conf ->
  resume_analysis analysisId (Normal response) st =
  Done (Normal tt) (completed_state analysisId parsedResult conf st).
Proof.
  intros Hn Hc.
  unfold resume_analysis, try_catch_finally, on_response, bind, lift.
  rewrite Hn, Hc. reflexivity.
Qed.

(** The two ways a run ends. *)
Lemma perform_handleAnalyze gateway now_id now_ts st :
  rejects (currentProblem st) = false ->
  let analysisId := Number_toString now_id in
  let before := awaiting now_id now_ts st in
  exists st',
    perform gateway (handleAnalyze now_id now_ts st) =
    (Normal tt, st', [orchestrator_call st]) /\
    (st' = failed_state analysisId before \/
     exists response parsedResult conf,
       gateway (orchestrator_call st) = Normal response /\
       normalize response = Normal parsedResult /\
       overall_confidence parsedResult = Normal conf /\
       st' = completed_state analysisId parsedResult conf before).
Proof.
  intros Hacc analysisId before.
  rewrite handleAnalyze_accepted by exact Hacc. cbn [perform].
  fold before. fold analysisId.
  unfold resume_analysis, try_catch_finally, on_response, bind, lift.
  destruct (gateway (orchestrator_call st)) as [response|e].
  2: { eexists. split; [reflexivity|]. left. reflexivity. }
  destruct (normalize response) as [parsedResult|e] eqn:En.
  2: { eexists. split; [reflexivity|]. left. reflexivity. }
  destruct (overall_confidence parsedResult) as [conf|e] eqn:Ec.
  2: { eexists. split; [reflexivity|]. left. reflexivity. }
  eexists. split; [reflexivity|]. right. exists response, parsedResult, conf. auto.
Qed.

(** X4: whatever the gateway does, an accepted submission completes
    normally after exactly one gateway call; the history has gained exactly
    one record, at its head, with the id, the problem, the timestamp and the
    topic of the submission, no longer in progress; the ids of the records
    behind it are those of the history before; the busy flag is down and the
    problem text is unchanged. *)
Theorem handleAnalyze_adds_one_record (gateway : list value -> completion value)
  (st : AppState) (now_id now_ts : Z) :
  rejects (currentProblem st) = false ->
  exists st' record rest,
    perform gateway (handleAnalyze now_id now_ts st) =
    (Normal tt, st', [orchestrator_call st]) /\
    analysisHistory st' = record :: rest /\
    id record = Number_toString now_id /\
    problem record = currentProblem st /\
    timestamp record = now_ts /\
    topic record = Some (extractTopic (currentProblem st)) /\
    status record <> in_progress /\
    List.map id rest = List.map id (analysisHistory st) /\
    isAnalyzing st' = false /\
    currentProblem st' = currentProblem st.
Proof.
  intros Hacc.
  destruct (perform_handleAnalyze gateway now_id now_ts st Hacc)
    as (st' & Hrun & [-> | (response & parsedResult & conf & _ & _ & _ & ->)]).
  - eexists _, _, _. split; [exact Hrun|]. rewrite failed_history.
    split; [reflexivity|]. rewrite updateById_ids.
    repeat split. discriminate.
  - eexists _, _, _. split; [exact Hrun|]. rewrite completed_history.
    split; [reflexivity|]. rewrite updateById_ids.
    repeat split. discriminate.
Qed.

Lemma handleAnalyze_adds_one_record_witness :
  rejects (currentProblem sample_state) = false /\
  exists st' record rest,
    perform rejecting (handleAnalyze 1700000000001 1700000000002 sample_state) =
    (Normal tt, st', [orchestrator_call sample_state]) /\
    analysisHistory st' = record :: rest /\
    id record = Number_toString 1700000000001 /\
    List.map id rest = List.map id (analysisHistory sample_state).
Proof.
  assert (H1 : rejects (currentProblem sample_state) = false)
    by (vm_compute; reflexivity).
  split; [exact H1|].
  destruct (handleAnalyze_adds_one_record rejecting sample_state
              1700000000001 1700000000002 H1)
    as (st' & record & rest & Hrun & Hh & Hid & _ & _ & _ & _ & Hids & _).
  exists st', record, rest. auto.
Defined.

(** X5: when the id of the submission is not yet in the history, the run
    leaves every earlier record as it was: the final history is the new
    record in front of the history before. *)
Theorem settled_run_keeps_other_records (gateway : list value -> completion value)
  (st : AppState) (now_id now_ts : Z) :
  rejects (currentProblem st) = false ->
  fresh (Number_toString now_id) st ->
  exists st' record,
    perform gateway (handleAnalyze now_id now_ts st) =
    (Normal tt, st', [orchestrator_call st]) /\
    analysisHistory st' = record :: analysisHistory st /\
    id record = Number_toString now_id.
Proof.
  intros Hacc Hfresh.
  destruct (perform_handleAnalyze gateway now_id now_ts st Hacc)
    as (st' & Hrun & [-> | (response & parsedResult & conf & _ & _ & _ & ->)]).
  - eexists _, _. split; [exact Hrun|]. rewrite failed_history.
    rewrite updateById_unknown by exact Hfresh. split; reflexivity.
  - eexists _, _. split; [exact Hrun|]. rewrite completed_history.
    rewrite updateById_unknown by exact Hfresh. split; reflexivity.
Qed.

Lemma settled_run_keeps_other_records_witness :
  rejects (currentProblem sample_state) = false /\
  fresh (Number_toString 1700000000001) sample_state /\
  exists st' record,
    perform (answering sample_result)
      (handleAnalyze 1700000000001 1700000000002 sample_state) =
    (Normal tt, st', [orchestrator_call sample_state]) /\
    analysisHistory st' = record :: analysisHistory sample_state /\
    id record = Number_toString 1700000000001.
Proof.
  assert (H1 : rejects (currentProblem sample_state) = false)
    by (vm_compute; reflexivity).
  assert (H2 : fresh (Number_toString 1700000000001) sample_state).
  { unfold fresh. vm_compute. intros [H|[]]. discriminate H. }
  split; [exact H1|]. split; [exact H2|].
  exact (settled_run_keeps_other_records (answering sample_result) sample_state
           1700000000001 1700000000002 H1 H2).
Defined.

(** X6: ids are clock readings, and the update goes by id alone: when an
    earlier record carries the id of the submission and the gateway rejects,
    that earlier record is marked failed as well, keeping the result it
    had. *)
Theorem id_collision_overwrites (gateway : list value -> completion value)
  (st : AppState) (now_id now_ts : Z) (old : AnalysisItem) (reason : value) :
  rejects (currentProblem st) = false ->
  In old (analysisHistory st) ->
  id old = Number_toString now_id ->
  gateway (orchestrator_call st) = Throw (Rejected reason) ->
  exists st',
    perform gateway (handleAnalyze now_id now_ts st) =
    (Normal tt, st', [orchestrator_call st]) /\
    In (spread old failed_patch) (analysisHistory st') /\
    status (spread old failed_patch) = failed /\
    result (spread old failed_patch) = result old.
Proof.
  intros Hacc Hin Hid Hg.
  rewrite handleAnalyze_accepted by exact Hacc. cbn [perform]. rewrite Hg.
  rewrite (resume_after_throw _ _ _ (Rejected reason))
    by apply on_response_rejected.
  eexists. split; [reflexivity|]. rewrite failed_history.
  split; [|split; reflexivity]. right.
  unfold updateById. apply List.in_map_iff. exists old.
  split; [|exact Hin]. rewrite Hid, jsstring_eqb_refl. reflexivity.
Qed.

Lemma id_collision_overwrites_witness :
  rejects (currentProblem sample_state) = false /\
  In sample_item (analysisHistory sample_state) /\
  id sample_item = Number_toString 1700000000000 /\
  rejecting (orchestrator_call sample_state) = Throw (Rejected VNull) /\
  exists st',
    perform rejecting (handleAnalyze 1700000000000 1700000000002 sample_state) =
    (Normal tt, st', [orchestrator_call sample_state]) /\
    In (spread sample_item failed_patch) (analysisHistory st') /\
    status (spread sample_item failed_patch) = failed /\
    result (spread sample_item failed_patch) = result sample_item.
Proof.
  assert (H1 : rejects (currentProblem sample_state) = false)
    by (vm_compute; reflexivity).
  assert (H2 : In sample_item (analysisHistory sample_state))
    by (left; reflexivity).
  assert (H3 : id sample_item = Number_toString 1700000000000)
    by (vm_compute; reflexivity).
  assert (H4 : rejecting (orchestrator_call sample_state) = Throw (Rejected VNull))
    by reflexivity.
  split; [exact H1|]. split; [exact H2|]. split; [exact H3|]. split; [exact H4|].
  exact (id_collision_overwrites rejecting sample_state 1700000000000
           1700000000002 sample_item VNull H1 H2 H3 H4).
Defined.

(** X7: when the response is normalised to a value other than [null], the
    run cannot fail: the new record is completed, holds that value as its
    result and the confidence read from it, the value is shown as the current
    analysis, the busy flag is down and no alert is raised. *)
Theorem usable_response_completes (gateway : list value -> completion value)
  (st : AppState) (now_id now_ts : Z) (response parsedResult : value) :
  rejects (currentProblem st) = false ->
  gateway (orchestrator_call st) = Normal response ->
  normalize response = Normal parsedResult ->
  parsedResult <> VNull ->
  exists conf st' rest,
    overall_confidence parsedResult = Normal conf /\
    perform gateway (handleAnalyze now_id now_ts st) =
    (Normal tt, st', [orchestrator_call st]) /\
    analysisHistory st' =
      {| id := Number_toString now_id;
         problem := currentProblem st;
         timestamp := now_ts;
         confidence := conf;
         status := completed;
         result := Some parsedResult;
         topic := Some (extractTopic (currentProblem st)) |} :: rest /\
    currentAnalysis st' = Some parsedResult /\
    isAnalyzing st' = false /\
    alerts st' = alerts st.
Proof.
  intros Hacc Hg Hn Hnull.
  destruct (overall_confidence parsedResult) as [conf|e] eqn:Ec.
  2: { exfalso. apply Hnull.
       apply (overall_confidence_throw parsedResult e Ec). }
  exists conf.
  rewrite handleAnalyze_accepted by exact Hacc. cbn [perform]. rewrite Hg.
  rewrite (resume_after_response _ _ _ _ _ Hn Ec). cbn [perform].
  eexists _, _. split; [reflexivity|]. split; [reflexivity|].
  rewrite completed_history.
  split; [reflexivity|]. split; [reflexivity|]. split; reflexivity.
Qed.

Lemma usable_response_completes_witness :
  rejects (currentProblem sample_state) = false /\
  answering sample_result (orchestrator_call sample_state) = Normal sample_result /\
  normalize sample_result = Normal sample_result /\
  sample_result <> VNull /\
  exists conf st' rest,
    overall_confidence sample_result = Normal conf /\
    perform (answering sample_result)
      (handleAnalyze 1700000000001 1700000000002 sample_state) =
    (Normal tt, st', [orchestrator_call sample_state]) /\
    analysisHistory st' =
      {| id := Number_toString 1700000000001;
         problem := currentProblem sample_state;
         timestamp := 1700000000002;
         confidence := conf;
         status := completed;
         result := Some sample_result;
         topic := Some (extractTopic (currentProblem sample_state)) |} :: rest /\
    currentAnalysis st' = Some sample_result /\
    isAnalyzing st' = false /\
    alerts st' = alerts sample_state.
Proof.
  assert (H1 : rejects (currentProblem sample_state) = false)
    by (vm_compute; reflexivity).
  assert (H2 : answering sample_result (orchestrator_call sample_state) =
               Normal sample_result) by reflexivity.
  assert (H3 : normalize sample_result = Normal sample_result) by reflexivity.
  assert (H4 : sample_result <> VNull) by discriminate.
  split; [exact H1|]. split; [exact H2|]. split; [exact H3|]. split; [exact H4|].
  exact (usable_response_completes (answering sample_result) sample_state
           1700000000001 1700000000002 sample_result sample_result H1 H2 H3 H4).
Defined.

(** X8: a response that is normalised to [null] (the value [null], or a text
    such as [null] that parses to it) fails the run: reading the confidence
    throws, the new record ends failed, without result and with confidence 0,
    nothing is shown and the failure alert is raised. *)
Theorem null_result_fails (gateway : list value -> completion value)
  (st : AppState) (now_id now_ts : Z) (response : value) :
  rejects (currentProblem st) = false ->
  gateway (orchestrator_call st) = Normal response ->
  normalize response = Normal VNull ->
  exists st' rest,
    perform gateway (handleAnalyze now_id now_ts st) =
    (Normal tt, st', [orchestrator_call st]) /\
    analysisHistory st' =
      {| id := Number_toString now_id;
         problem := currentProblem st;
         timestamp := now_ts;
         confidence := ZERO;
         status := failed;
         result := None;
         topic := Some (extractTopic (currentProblem st)) |} :: rest /\
    currentAnalysis st' = None /\
    isAnalyzing st' = false /\
    alerts st' = FAILED_ALERT :: alerts st.
Proof.
  intros Hacc Hg Hn.
  rewrite handleAnalyze_accepted by exact Hacc. cbn [perform]. rewrite Hg.
  rewrite (resume_after_throw _ _ _ TypeError).
  - eexists _, _. split; [reflexivity|]. rewrite failed_history.
    split; [reflexivity|]. repeat split.
  - unfold on_response, bind, lift. rewrite Hn. reflexivity.
Qed.

Lemma null_result_fails_witness :
  let response := VStr (lit "null") in
  rejects (currentProblem sample_state) = false /\
  answering response (orchestrator_call sample_state) = Normal response /\
  normalize response = Normal VNull /\
  exists st' rest,
    perform (answering response)
      (handleAnalyze 1700000000001 1700000000002 sample_state) =
    (Normal tt, st', [orchestrator_call sample_state]) /\
    analysisHistory st' =
      {| id := Number_toString 1700000000001;
         problem := currentProblem sample_state;
         timestamp := 1700000000002;
         confidence := ZERO;
         status := failed;
         result := None;
         topic := Some (extractTopic (currentProblem sample_state)) |} :: rest /\
    currentAnalysis st' = None /\
    isAnalyzing st' = false /\
    alerts st' = FAILED_ALERT :: alerts sample_state.
Proof.
  intros response.
  assert (H1 : rejects (currentProblem sample_state) = false)
    by (vm_compute; reflexivity).
  assert (H2 : answering response (orchestrator_call sample_state) =
               Normal response) by reflexivity.
  assert (H3 : normalize response = Normal VNull) by (vm_compute; reflexivity).
  split; [exact H1|]. split; [exact H2|]. split; [exact H3|].
  exact (null_result_fails (answering response) sample_state
           1700000000001 1700000000002 response H1 H2 H3).
Defined.

(** ** [extractTopic] *)

Lemma starts_with_before_space k u r :
  spaceless k = true ->
  starts_with k (u ++ 32%N :: r) = starts_with k u.
Proof.
  revert u; induction k as [|a k IH]; intros u Hk; [destruct u; reflexivity|].
  cbn [spaceless forallb] in Hk. apply andb_true_iff in Hk as [Ha Hk].
  destruct u as [|b u]; cbn [app starts_with].
  - apply negb_true_iff in Ha. rewrite Ha. reflexivity.
  - rewrite (IH u Hk). reflexivity.
Qed.

Lemma split_spaces_head s :
  exists w ws, split_spaces s = w :: ws /\
               (s = w \/ exists r, s = w ++ 32%N :: r).
Proof.
  induction s as [|c s (w & ws & E & Hs)]; cbn [split_spaces].
  - exists [], []. auto.
  - destruct (N.eqb_spec c 32) as [->|Hc].
    + exists [], (split_spaces s). split; [reflexivity|]. right. exists s. reflexivity.
    + rewrite E. exists (c :: w), ws. split; [reflexivity|].
      destruct Hs as [-> | [r ->]]; [left; reflexivity|].
      right. exists r. reflexivity.
Qed.

(** A keyword without a space lies in some word exactly when it lies in the
    text. *)
Lemma some_word_includes k s :
  spaceless k = true ->
  existsb (includes k) (split_spaces s) = includes k s.
Proof.
  intros Hk. induction s as [|c s IH]; [cbn; apply orb_false_r|].
  cbn [split_spaces includes].
  destruct (N.eqb_spec c 32) as [->|Hc].
  - cbn [existsb]. rewrite IH. f_equal. cbn [includes]. rewrite orb_false_r.
    destruct k as [|a k]; [reflexivity|].
    cbn [spaceless forallb] in Hk. apply andb_true_iff in Hk as [Ha _].
    apply negb_true_iff in Ha. cbn [starts_with]. rewrite Ha. reflexivity.
  - destruct (split_spaces_head s) as (w & ws & E & Hs).
    rewrite E in *. cbn [existsb includes] in *.
    rewrite <- orb_assoc, IH. f_equal.
    destruct Hs as [-> | [r ->]]; [reflexivity|].
    change (c :: w ++ 32%N :: r) with ((c :: w) ++ 32%N :: r).
    rewrite starts_with_before_space by exact Hk. reflexivity.
Qed.

(** X9: no keyword holds a space, so splitting the problem into words makes
    no difference: the topic is the first keyword of the list, in the order
    of the list, that occurs anywhere in the lower-cased problem, with its
    first letter in upper case, and [General] when none occurs. *)
Theorem extractTopic_ignores_the_split (problem : jsstring) :
  extractTopic problem =
  match List.find (fun keyword => includes keyword (toLowerCase problem)) keywords with
  | Some keyword => toUpperCase (firstn 1 keyword) ++ skipn 1 keyword
  | None => lit "General"
  end.
Proof.
  unfold extractTopic, keywords. cbn [List.find].
  rewrite !some_word_includes by reflexivity. reflexivity.
Qed.

(** ** The gate, exactly *)

Lemma trimStart_blank s : forallb isWhiteSpace s = true -> trimStart s = [].
Proof.
  induction s as [|c s IH]; [reflexivity|]. cbn [forallb trimStart].
  intros H. apply andb_true_iff in H as [-> H]. auto.
Qed.

Lemma trimStart_first s c u :
  trimStart s = c :: u -> isWhiteSpace c = false /\ In c s.
Proof.
  induction s as [|d s IH]; [discriminate|]. cbn [trimStart].
  destruct (isWhiteSpace d) eqn:E.
  - intros H. destruct (IH H). split; [assumption | right; assumption].
  - intros [= <- <-]. split; [exact E | left; reflexivity].
Qed.

Lemma trimStart_nonblank s c :
  In c s -> isWhiteSpace c = false -> exists d u, trimStart s = d :: u.
Proof.
  induction s as [|x s IH]; [intros []|]. cbn [trimStart].
  intros Hin Hc. destruct (isWhiteSpace x) eqn:E; [|eauto].
  destruct Hin as [->|Hin]; [congruence | auto].
Qed.

Lemma trim_blank_iff s :
  trim s = [] <-> forallb isWhiteSpace s = true.
Proof.
  split.
  - intros H. destruct (forallb isWhiteSpace s) eqn:E; [reflexivity|].
    exfalso.
    assert (Hex : exists c, In c s /\ isWhiteSpace c = false).
    { clear H. induction s as [|x s IH]; [discriminate|].
      cbn [forallb] in E. destruct (isWhiteSpace x) eqn:Ex.
      - destruct (IH E) as (c & Hc & Hw). exists c. split; [right|]; assumption.
      - exists x. split; [left; reflexivity | exact Ex]. }
    destruct Hex as (c & Hin & Hc).
    destruct (trimStart_nonblank s c Hin Hc) as (d & u & Eu).
    destruct (trimStart_first s d u Eu) as [Hd _].
    unfold trim, trimEnd in H. rewrite Eu in H.
    destruct (trimStart_rev_keeps d u Hd) as [v Ev]. rewrite Ev in H.
    rewrite List.rev_app_distr in H. discriminate H.
  - intros H. unfold trim. rewrite (trimStart_blank s H). reflexivity.
Qed.

(** X10: the gate of [handleAnalyze] lets a problem through exactly when it
    has at least ten code units, white space included, and at least one code
    unit that is not white space. *)
Theorem accepted_problems (currentProblem : jsstring) :
  rejects currentProblem = false <->
  (10 <= length currentProblem)%nat /\
  exists c, In c currentProblem /\ isWhiteSpace c = false.
Proof.
  unfold rejects. rewrite orb_false_iff, negb_false_iff, Nat.ltb_ge.
  assert (Ht : truthy (VStr (trim currentProblem)) = true <->
               exists c, In c currentProblem /\ isWhiteSpace c = false).
  { split.
    - intros H. destruct (trim currentProblem) as [|d u] eqn:E; [discriminate|].
      destruct (forallb isWhiteSpace currentProblem) eqn:Eb.
      + apply trim_blank_iff in Eb. congruence.
      + clear - Eb. induction currentProblem as [|x s IH]; [discriminate|].
        cbn [forallb] in Eb. destruct (isWhiteSpace x) eqn:Ex.
        * destruct (IH Eb) as (c & Hc & Hw). exists c. split; [right|]; assumption.
        * exists x. split; [left; reflexivity | exact Ex].
    - intros (c & Hin & Hc).
      destruct (trim currentProblem) as [|d u] eqn:E; [|reflexivity].
      apply trim_blank_iff in E. rewrite List.forallb_forall in E.
      rewrite (E c Hin) in Hc. discriminate. }
  rewrite Ht. tauto.
Qed.

(** ** The challenge handler *)

Lemma handleChallenge_awaits conclusion pg :
  handleChallenge conclusion pg =
  Await (challenger_call conclusion pg) (challenging conclusion pg) resume_challenge.
Proof. reflexivity. Qed.

Lemma resume_challenge_cases settled pg :
  resume_challenge settled pg =
  Done (Normal tt)
    match settled with
    | Normal response =>
        match normalize response with
        | Normal parsedResult => challenge_shown parsedResult pg
        | Throw _ => challenge_failed pg
        end
    | Throw _ => challenge_failed pg
    end.
Proof.
  unfold resume_challenge, try_catch_finally, on_challenge_response, bind, lift.
  destruct settled as [response|e]; [|reflexivity].
  destruct (normalize response); reflexivity.
Qed.

(** X13: a challenge takes the page down, whatever the gateway does.
    [handleChallenge] makes its one call, to the challenger, with the prompt
    built from the conclusion and the current problem, having set the modal
    to be shown; the render of that state reads the undeclared
    [isChallenging] and throws a ReferenceError, so the component is
    unmounted before the call settles and no result is ever shown.  What is
    left when the call has settled is the alerts: those shown before, and in
    front of them the failure alert when the gateway rejected or the response
    was a string that is not JSON. *)
Theorem handleChallenge_takes_the_page_down
  (gateway : list value -> completion value) (conclusion : jsstring)
  (pg : PageState) :
  exists pg1 k shown,
    handleChallenge conclusion pg = Await (challenger_call conclusion pg) pg1 k /\
    render_modal pg1 = ReferenceError (lit "isChallenging") /\
    challenge gateway conclusion pg =
    (Unmounted shown, [challenger_call conclusion pg]) /\
    ((exists response parsedResult,
        gateway (challenger_call conclusion pg) = Normal response /\
        normalize response = Normal parsedResult /\
        shown = alerts (analysis pg)) \/
     ((forall response parsedResult,
         gateway (challenger_call conclusion pg) = Normal response ->
         normalize response <> Normal parsedResult) /\
      shown = CHALLENGE_FAILED_ALERT :: alerts (analysis pg))).
Proof.
  exists (challenging conclusion pg), resume_challenge.
  unfold challenge. rewrite handleChallenge_awaits.
  change (commit (challenging conclusion pg)) with (Unmounted (alerts (analysis pg))).
  cbn [settle]. rewrite resume_challenge_cases.
  destruct (gateway (challenger_call conclusion pg)) as [response|e].
  2: { eexists. split; [reflexivity|]. split; [reflexivity|].
       split; [reflexivity|]. right. split; [intros ? ? [=] | reflexivity]. }
  destruct (normalize response) as [parsedResult|e] eqn:En.
  2: { eexists. split; [reflexivity|]. split; [reflexivity|].
       split; [reflexivity|]. right.
       split; [intros ? ? [= <-]; congruence | reflexivity]. }
  eexists. split; [reflexivity|]. split; [reflexivity|].
  split; [reflexivity|]. left. exists response, parsedResult. auto.
Qed.

(** ** The dashboard *)



(** X16: a response that is normalised to a falsy value other than [null]
    ([false], 0, the empty string) completes the run, with that value as the
    result and confidence 0; but the card of that completed record does not
    open, since the click tests the result for truthiness. *)
Theorem falsy_result_cannot_be_opened (gateway : list value -> completion value)
  (st : AppState) (now_id now_ts : Z) (response parsedResult : value)
  (pg : PageState) :
  rejects (currentProblem st) = false ->
  gateway (orchestrator_call st) = Normal response ->
  normalize response = Normal parsedResult ->
  parsedResult <> VNull ->
  truthy parsedResult = false ->
  exists st' record rest,
    perform gateway (handleAnalyze now_id now_ts st) =
    (Normal tt, st', [orchestrator_call st]) /\
    analysisHistory st' = record :: rest /\
    status record = completed /\
    result record = Some parsedResult /\
    confidence record = ZERO /\
    openAnalysis record pg = (Normal tt, pg).
Proof.
  intros Hacc Hg Hn Hnull Hfalsy.
  assert (Ec : overall_confidence parsedResult = Normal ZERO).
  { destruct parsedResult as [|b|m e|s| |]; try discriminate; [congruence | ..];
      reflexivity. }
  rewrite handleAnalyze_accepted by exact Hacc. cbn [perform]. rewrite Hg.
  rewrite (resume_after_response _ _ _ _ _ Hn Ec). cbn [perform].
  eexists _, _, _. split; [reflexivity|]. rewrite completed_history.
  split; [reflexivity|]. do 3 (split; [reflexivity|]).
  unfold openAnalysis. cbn [spread completed_patch patch_result result].
  rewrite Hfalsy. reflexivity.
Qed.

Lemma falsy_result_cannot_be_opened_witness :
  let response := VBool false in
  rejects (currentProblem sample_state) = false /\
  answering response (orchestrator_call sample_state) = Normal response /\
  normalize response = Normal response /\
  response <> VNull /\
  truthy response = false /\
  exists st' record rest,
    perform (answering response)
      (handleAnalyze 1700000000001 1700000000002 sample_state) =
    (Normal tt, st', [orchestrator_call sample_state]) /\
    analysisHistory st' = record :: rest /\
    status record = completed /\
    result record = Some response /\
    confidence record = ZERO /\
    openAnalysis record sample_page = (Normal tt, sample_page).
Proof.
  intros response.
  assert (H1 : rejects (currentProblem sample_state) = false)
    by (vm_compute; reflexivity).
  assert (H2 : answering response (orchestrator_call sample_state) =
               Normal response) by reflexivity.
  assert (H3 : normalize response = Normal response) by reflexivity.
  assert (H4 : response <> VNull) by discriminate.
  assert (H5 : truthy response = false) by reflexivity.
  split; [exact H1|]. split; [exact H2|]. split; [exact H3|]. split; [exact H4|].
  split; [exact H5|].
  exact (falsy_result_cannot_be_opened (answering response) sample_state
           1700000000001 1700000000002 response response sample_page
           H1 H2 H3 H4 H5).
Defined.

Lemma includes_nil s : includes [] s = true.
Proof. destruct s; reflexivity. Qed.

Lemma starts_with_self p s : starts_with p (p ++ s) = true.
Proof.
  induction p as [|c p IH]; [reflexivity|].
  cbn [app starts_with]. rewrite N.eqb_refl, IH. reflexivity.
Qed.

Lemma includes_unfold p s :
  includes p s =
  starts_with p s || match s with [] => false | _ :: t => includes p t end.
Proof. destruct s; reflexivity. Qed.

Lemma includes_infix a p b : includes p (a ++ p ++ b) = true.
Proof.
  induction a as [|c a IH]; cbn [app].
  - rewrite includes_unfold, starts_with_self. reflexivity.
  - cbn [includes]. rewrite IH. apply orb_true_r.
Qed.

(** X17: with the empty search query the dashboard lists the whole
    history. *)
Theorem empty_query_shows_everything (h : list AnalysisItem) :
  filteredHistory h [] = h.
Proof.
  unfold filteredHistory. induction h as [|item h IH]; [reflexivity|].
  cbn [List.filter]. unfold matches at 1. cbn [toLowerCase List.map].
  rewrite includes_nil, IH. reflexivity.
Qed.

(** X18: a record of the history is listed whenever the lower-cased query
    occurs in its lower-cased problem, or in its lower-cased topic. *)
Theorem search_finds_by_problem_or_topic (h : list AnalysisItem)
  (item : AnalysisItem) (q before behind : jsstring) :
  In item h ->
  (toLowerCase (problem item) = before ++ toLowerCase q ++ behind \/
   exists t, topic item = Some t /\
             toLowerCase t = before ++ toLowerCase q ++ behind) ->
  In item (filteredHistory h q).
Proof.
  intros Hin Hq. unfold filteredHistory. apply List.filter_In.
  split; [exact Hin|]. unfold matches.
  destruct Hq as [-> | (t & -> & ->)]; rewrite includes_infix;
    [reflexivity | apply orb_true_r].
Qed.

Lemma search_finds_by_problem_or_topic_witness :
  let q := lit "EMPLOYEES" in
  let before := lit "why do " in
  let behind := lit " leave companies?" in
  In sample_item [sample_item] /\
  (toLowerCase (problem sample_item) = before ++ toLowerCase q ++ behind \/
   exists t, topic sample_item = Some t /\
             toLowerCase t = before ++ toLowerCase q ++ behind) /\
  In sample_item (filteredHistory [sample_item] q).
Proof.
  intros q before behind.
  assert (H1 : In sample_item [sample_item]) by (left; reflexivity).
  assert (H2 : toLowerCase (problem sample_item) =
               before ++ toLowerCase q ++ behind \/
               exists t, topic sample_item = Some t /\
                         toLowerCase t = before ++ toLowerCase q ++ behind)
    by (left; vm_compute; reflexivity).
  split; [exact H1|]. split; [exact H2|].
  exact (search_finds_by_problem_or_topic [sample_item] sample_item q before
           behind H1 H2).
Defined.

Lemma toLowerCase_toUpperCase q :
  is_ascii q = true -> toLowerCase (toUpperCase q) = toLowerCase q.
Proof.
  unfold toLowerCase, toUpperCase, is_ascii. rewrite List.map_map.
  induction q as [|c q IH]; [reflexivity|].
  cbn [forallb List.map]. intros H. apply andb_true_iff in H as [Hc H].
  rewrite IH by exact H. f_equal.
  apply N.ltb_lt in Hc.
  destruct ((97 <=? c) && (c <=? 122))%N eqn:E1.
  - apply andb_true_iff in E1 as [E1 E2]. apply N.leb_le in E1, E2.
    assert (E3 : ((65 <=? c - 32) && (c - 32 <=? 90))%N = true).
    { apply andb_true_iff. split; apply N.leb_le; lia. }
    rewrite E3.
    assert (E4 : ((65 <=? c) && (c <=? 90))%N = false).
    { apply andb_false_iff. right. apply N.leb_gt. lia. }
    rewrite E4. lia.
  - reflexivity.
Qed.

(** X19: for a query of ASCII code units, the query in upper case lists the
    same records, in the same order, as the query itself. *)
Theorem search_is_case_insensitive (h : list AnalysisItem) (q : jsstring) :
  is_ascii q = true ->
  filteredHistory h (toUpperCase q) = filteredHistory h q.
Proof.
  intros Hq. unfold filteredHistory. apply List.filter_ext. intros item.
  unfold matches. rewrite toLowerCase_toUpperCase by exact Hq. reflexivity.
Qed.

Lemma search_is_case_insensitive_witness :
  let q := lit "Employee" in
  is_ascii q = true /\
  filteredHistory [sample_item] (toUpperCase q) = filteredHistory [sample_item] q.
Proof.
  intros q.
  assert (H : is_ascii q = true) by (vm_compute; reflexivity).
  split; [exact H|].
  exact (search_is_case_insensitive [sample_item] q H).
Defined.

(** ** Top topics *)

Lemma topic_eqb_spec a b : reflect (a = b) (topic_eqb a b).
Proof.
  destruct a as [x|], b as [y|]; cbn [topic_eqb]; try (constructor; congruence).
  destruct (jsstring_eqb_spec x y); constructor; congruence.
Qed.

Lemma existsb_topic_eqb x seen : existsb (topic_eqb x) seen = true <-> In x seen.
Proof.
  rewrite List.existsb_exists. split.
  - intros (y & Hy & E). destruct (topic_eqb_spec x y); congruence.
  - intros H. exists x. split; [exact H|]. destruct (topic_eqb_spec x x); congruence.
Qed.

Lemma Set_from_in seen l x :
  In x (Set_from seen l) -> In x l /\ ~ In x seen.
Proof.
  revert seen; induction l as [|y l IH]; intros seen; cbn [Set_from In]; [tauto|].
  destruct (existsb (topic_eqb y) seen) eqn:E.
  - intros H. destruct (IH _ H). auto.
  - intros [<-|H].
    + split; [auto|]. intros Hin. apply existsb_topic_eqb in Hin. congruence.
    + destruct (IH _ H) as [H1 H2]. cbn [In] in H2. tauto.
Qed.

Lemma Set_from_NoDup seen l : List.NoDup (Set_from seen l).
Proof.
  revert seen; induction l as [|y l IH]; intros seen; cbn [Set_from];
    [constructor|].
  destruct (existsb (topic_eqb y) seen); [apply IH|].
  constructor; [|apply IH].
  intros H. apply Set_from_in in H as [_ H]. apply H. left. reflexivity.
Qed.

Lemma firstn_in {A : Type} n (l : list A) x : In x (firstn n l) -> In x l.
Proof.
  revert l; induction n as [|n IH]; intros [|y l]; cbn [firstn In]; try tauto.
  intros [?|?]; auto.
Qed.

Lemma firstn_NoDup {A : Type} n (l : list A) :
  List.NoDup l -> List.NoDup (firstn n l).
Proof.
  revert l; induction n as [|n IH]; intros [|y l] H; cbn [firstn];
    try constructor.
  - inversion H; subst. intros Hin. apply firstn_in in Hin. auto.
  - inversion H; subst. auto.
Qed.

(** X20: [topTopics] holds at most three entries, no entry twice, and each
    entry is the non-empty topic of some record of the history. *)
Theorem topTopics_are_distinct_topics (h : list AnalysisItem) :
  (length (topTopics h) <= 3)%nat /\
  List.NoDup (topTopics h) /\
  forall o, In o (topTopics h) ->
    exists item c t, In item h /\ topic item = o /\ o = Some (c :: t).
Proof.
  unfold topTopics. split; [apply List.firstn_le_length|].
  split; [apply firstn_NoDup, Set_from_NoDup|].
  intros o Ho. apply firstn_in, Set_from_in in Ho as [Ho _].
  apply List.filter_In in Ho as [Ho Hb].
  apply List.in_map_iff in Ho as (item & E & Hin).
  destruct o as [[|c t]|]; try discriminate Hb.
  exists item, c, t. auto.
Qed.

(** X21: the topics are taken in the order of the history, not by how often
    they occur: the non-empty topic of the record at the head of the history
    is always the first of [topTopics], with at most two more behind it. *)
Theorem latest_topic_comes_first (h : list AnalysisItem) (record : AnalysisItem)
  (c : N) (t : jsstring) :
  topic record = Some (c :: t) ->
  exists rest,
    topTopics (record :: h) = Some (c :: t) :: rest /\ (length rest <= 2)%nat.
Proof.
  intros Ht. unfold topTopics. cbn [List.map List.filter]. rewrite Ht.
  cbn [Boolean_topic truthy Set_from existsb firstn].
  eexists. split; [reflexivity|]. apply List.firstn_le_length.
Qed.

Lemma latest_topic_comes_first_witness :
  topic sample_item = Some (69%N :: lit "mployee") /\
  exists rest,
    topTopics (sample_item :: analysisHistory sample_state) =
    Some (69%N :: lit "mployee") :: rest /\ (length rest <= 2)%nat.
Proof.
  assert (H : topic sample_item = Some (69%N :: lit "mployee")) by reflexivity.
  split; [exact H|].
  exact (latest_topic_comes_first (analysisHistory sample_state) sample_item
           69%N (lit "mployee") H).
Defined.

(** ** The decomposed variant: storage *)

Lemma variant_status_of_text_status_text s :
  ReasonForge.status_of_text (ReasonForge.status_text s) = Some s.
Proof. destruct s; reflexivity. Qed.

Lemma variant_fromJS_toJS a : ReasonForge.fromJS (ReasonForge.toJS a) = Some a.
Proof.
  destruct a as [i p d c s ca va un]. unfold ReasonForge.toJS, ReasonForge.fromJS.
  cbn [ReasonForge.id ReasonForge.problem ReasonForge.date ReasonForge.confidence
       ReasonForge.status ReasonForge.causalAnalysis ReasonForge.validation
       ReasonForge.uncertainty].
  destruct ca as [ca|], va as [va|], un as [un|];
    cbn [app get_member ReasonForge.optional];
    repeat match goal with
      | |- context [jsstring_eqb (lit ?a) (lit ?b)] =>
          let x := eval vm_compute in (jsstring_eqb (lit a) (lit b)) in
          change (jsstring_eqb (lit a) (lit b)) with x; cbv iota
      end;
    rewrite variant_status_of_text_status_text; reflexivity.
Qed.

Lemma variant_fromJS_history_toJS h : ReasonForge.fromJS_history (ReasonForge.toJS_history h) = Some h.
Proof.
  unfold ReasonForge.fromJS_history, ReasonForge.toJS_history.
  induction h as [|a h IH]; cbn [List.map ReasonForge.fromJS_items]; [reflexivity|].
  rewrite variant_fromJS_toJS, IH. reflexivity.
Qed.

Lemma variant_wf_toJS a : ReasonForge.wf_record a = true -> wf_value (ReasonForge.toJS a) = true.
Proof.
  destruct a as [i p d c s ca va un]. unfold ReasonForge.wf_record, ReasonForge.toJS.
  cbn [ReasonForge.id ReasonForge.problem ReasonForge.date ReasonForge.confidence
       ReasonForge.status ReasonForge.causalAnalysis ReasonForge.validation
       ReasonForge.uncertainty].
  intros H. apply andb_true_iff in H as [H Hun].
  apply andb_true_iff in H as [H Hva]. apply andb_true_iff in H as [Hc Hca].
  destruct ca as [ca|], va as [va|], un as [un|];
    cbn [app wf_value List.map fst snd forallb ReasonForge.optional ReasonForge.wf_optional] in *;
    rewrite Hc, ?Hca, ?Hva, ?Hun; reflexivity.
Qed.

Lemma variant_wf_toJS_history h :
  forallb ReasonForge.wf_record h = true -> wf_value (ReasonForge.toJS_history h) = true.
Proof.
  unfold ReasonForge.toJS_history. cbn [wf_value].
  induction h as [|a h IH]; cbn [forallb List.map]; [reflexivity|].
  intros H. apply andb_true_iff in H as [Ha H].
  rewrite variant_wf_toJS, IH by assumption. reflexivity.
Qed.

(** The text of a history is never the empty string. *)
Lemma stringify_array_truthy l : truthy (VStr (JSON_stringify (VArr l))) = true.
Proof. reflexivity. Qed.

Lemma variant_loadEffect_saved (h : list ReasonForge.AnalysisHistory) (storage : Storage) :
  forallb ReasonForge.wf_record h = true ->
  ReasonForge.loadEffect (ReasonForge.saveEffect h storage) = Some (ReasonForge.toJS_history h).
Proof.
  intros Hwf. unfold ReasonForge.loadEffect, ReasonForge.saveEffect. rewrite lookup_insert_eq.
  unfold ReasonForge.toJS_history at 1. rewrite stringify_array_truthy.
  fold (ReasonForge.toJS_history h).
  rewrite JSON_parse_stringify by (apply variant_wf_toJS_history, Hwf). reflexivity.
Qed.

(** X22 (part_000): the save effect has no guard, so every history of
    well-formed records, the empty one included, is read back by the next
    start as it was saved, and that start leaves the storage as it is. *)
Theorem unguarded_save_roundtrip (h : list ReasonForge.AnalysisHistory)
  (storage : Storage) :
  forallb ReasonForge.wf_record h = true ->
  ReasonForge.mount (ReasonForge.saveEffect h storage) = (Some h, ReasonForge.saveEffect h storage).
Proof.
  intros Hwf. unfold ReasonForge.mount. rewrite variant_loadEffect_saved by exact Hwf.
  rewrite variant_fromJS_history_toJS. f_equal.
  unfold ReasonForge.saveEffect. rewrite !insert_insert_eq. reflexivity.
Qed.

Lemma unguarded_save_roundtrip_witness :
  forallb ReasonForge.wf_record [sample_run] = true /\
  ReasonForge.mount (ReasonForge.saveEffect [sample_run] ∅) =
  (Some [sample_run], ReasonForge.saveEffect [sample_run] ∅).
Proof.
  assert (H : forallb ReasonForge.wf_record [sample_run] = true) by reflexivity.
  split; [exact H|].
  exact (unguarded_save_roundtrip [sample_run] ∅ H).
Defined.

(** X23 (part_000): a start on a storage whose slot is missing, or holds a
    text that [JSON.parse] refuses, ends with the empty history and with the
    slot overwritten by the text of the empty array: the unreadable text is
    lost. *)
Theorem unguarded_save_overwrites_unreadable_slot (storage : Storage) :
  (storage !! ReasonForge.HISTORY_KEY = None \/
   exists saved e, storage !! ReasonForge.HISTORY_KEY = Some saved /\
                   JSON_parse saved = Throw e) ->
  ReasonForge.mount storage = (Some [], <[ReasonForge.HISTORY_KEY := lit "[]"]> storage).
Proof.
  intros H. unfold ReasonForge.mount.
  assert (E : ReasonForge.loadEffect storage = None).
  { unfold ReasonForge.loadEffect. destruct H as [-> | (saved & e & -> & Hp)]; [reflexivity|].
    rewrite Hp. destruct (truthy (VStr saved)); reflexivity. }
  rewrite E. reflexivity.
Qed.

Lemma unguarded_save_overwrites_unreadable_slot_witness :
  let storage : Storage := {[ReasonForge.HISTORY_KEY := jlit "{'id':"]} in
  (storage !! ReasonForge.HISTORY_KEY = None \/
   exists saved e, storage !! ReasonForge.HISTORY_KEY = Some saved /\
                   JSON_parse saved = Throw e) /\
  ReasonForge.mount storage = (Some [], <[ReasonForge.HISTORY_KEY := lit "[]"]> storage).
Proof.
  intros storage.
  assert (H : storage !! ReasonForge.HISTORY_KEY = None \/
              exists saved e, storage !! ReasonForge.HISTORY_KEY = Some saved /\
                              JSON_parse saved = Throw e).
  { right. exists (jlit "{'id':"), SyntaxError. split.
    - apply lookup_singleton_eq.
    - vm_compute. reflexivity. }
  split; [exact H|].
  exact (unguarded_save_overwrites_unreadable_slot storage H).
Defined.

(** ** The decomposed variant: runs and challenges *)

Ltac run_end :=
  eexists _, _, _; split; [reflexivity|];
  cbn [ReasonForge.finally ReasonForge.setAnalysisStep ReasonForge.setIsAnalyzing
       ReasonForge.setCurrentAnalysis ReasonForge.prepend ReasonForge.with_status
       ReasonForge.history ReasonForge.currentAnalysis ReasonForge.problemInput
       ReasonForge.isAnalyzing ReasonForge.analysisStep
       ReasonForge.id ReasonForge.problem ReasonForge.date ReasonForge.status
       length];
  do 7 (split; [reflexivity|]);
  first [ left; split; [reflexivity|]; split; [reflexivity | lia]
        | right; split; [reflexivity|]; split; reflexivity ].

Lemma runAnalysis_outcome (gateway : list value -> completion value)
  (now : Z) (iso : jsstring) (st : ReasonForge.State) :
  truthy (VStr (trim (ReasonForge.problemInput st))) = true ->
  exists st' calls shown,
    perform gateway (ReasonForge.runAnalysis now iso st) = (Normal tt, st', calls) /\
    ReasonForge.isAnalyzing st' = false /\
    ReasonForge.analysisStep st' = [] /\
    ReasonForge.problemInput st' = ReasonForge.problemInput st /\
    ReasonForge.currentAnalysis st' = Some shown /\
    ReasonForge.id shown = Number_toString now /\
    ReasonForge.problem shown = ReasonForge.problemInput st /\
    ReasonForge.date shown = iso /\
    ((ReasonForge.status shown = failed /\
      ReasonForge.history st' = ReasonForge.history st /\
      (length calls <= 3)%nat) \/
     (ReasonForge.status shown = completed /\
      ReasonForge.history st' = shown :: ReasonForge.history st /\
      length calls = 3%nat)).
Proof.
  intros Hin. unfold ReasonForge.runAnalysis. rewrite Hin. cbn [negb perform].
  unfold ReasonForge.step1.
  destruct (ReasonForge.successful (gateway _)) as [[r1|]|e1];
    [| |unfold ReasonForge.failed_run; run_end].
  all: cbn [perform]; unfold ReasonForge.step2.
  all: destruct (ReasonForge.successful (gateway _)) as [[r2|]|e2];
    [| |unfold ReasonForge.failed_run; run_end].
  all: cbn [perform]; unfold ReasonForge.step3.
  all: destruct (ReasonForge.successful (gateway _)) as [[r3|]|e3];
    [ | run_end | unfold ReasonForge.failed_run; run_end].
  all: destruct (get_prop (ReasonForge.payload r3) _) as [oc|e];
    [run_end | unfold ReasonForge.failed_run; run_end].
Qed.

Lemma completedCount_cons a (h : list ReasonForge.AnalysisHistory) :
  ReasonForge.status a = completed ->
  ReasonForge.completedCount h = ReasonForge.totalAnalyses h ->
  ReasonForge.completedCount (a :: h) = ReasonForge.totalAnalyses (a :: h).
Proof.
  unfold ReasonForge.completedCount, ReasonForge.totalAnalyses. cbn [List.filter length].
  intros -> H. cbn [Status_eqb length]. congruence.
Qed.

(** X24 (part_000): whatever the gateway does, [runAnalysis] on a non-blank
    input completes normally and shows a record with the id of the run and
    the problem of the input.  Either the record is failed and the history is
    as before (a failed run is not stored), or it is completed, it is stored
    at the head of the history, and exactly three gateway calls were made.
    So when every stored record was completed before the run, the same holds
    after it: the dashboard's completed count stays equal to its total. *)
Theorem runAnalysis_stores_only_completed (gateway : list value -> completion value)
  (now : Z) (iso : jsstring) (st : ReasonForge.State) :
  truthy (VStr (trim (ReasonForge.problemInput st))) = true ->
  exists st' calls shown,
    perform gateway (ReasonForge.runAnalysis now iso st) = (Normal tt, st', calls) /\
    ReasonForge.currentAnalysis st' = Some shown /\
    ReasonForge.id shown = Number_toString now /\
    ReasonForge.problem shown = ReasonForge.problemInput st /\
    ((ReasonForge.status shown = failed /\
      ReasonForge.history st' = ReasonForge.history st) \/
     (ReasonForge.status shown = completed /\
      ReasonForge.history st' = shown :: ReasonForge.history st /\
      length calls = 3%nat)) /\
    (ReasonForge.completedCount (ReasonForge.history st) =
       ReasonForge.totalAnalyses (ReasonForge.history st) ->
     ReasonForge.completedCount (ReasonForge.history st') =
       ReasonForge.totalAnalyses (ReasonForge.history st')).
Proof.
  intros Hin.
  destruct (runAnalysis_outcome gateway now iso st Hin)
    as (st' & calls & shown & Hrun & _ & _ & _ & Hshown & Hid & Hp & _ & Hend).
  exists st', calls, shown. do 4 (split; [assumption|]).
  destruct Hend as [(Hs & Hh & _) | (Hs & Hh & Hc)].
  - split; [left; auto|]. rewrite Hh. auto.
  - split; [right; auto|]. rewrite Hh. apply completedCount_cons, Hs.
Qed.

Lemma runAnalysis_stores_only_completed_witness :
  truthy (VStr (trim (ReasonForge.problemInput short_input))) = true /\
  exists st' calls shown,
    perform unsuccessful (ReasonForge.runAnalysis 1700000000001 [] short_input) =
    (Normal tt, st', calls) /\
    ReasonForge.currentAnalysis st' = Some shown /\
    ReasonForge.id shown = Number_toString 1700000000001 /\
    ReasonForge.problem shown = ReasonForge.problemInput short_input.
Proof.
  assert (H : truthy (VStr (trim (ReasonForge.problemInput short_input))) = true)
    by (vm_compute; reflexivity).
  split; [exact H|].
  destruct (runAnalysis_stores_only_completed unsuccessful 1700000000001 []
              short_input H)
    as (st' & calls & shown & H1 & H2 & H3 & H4 & _).
  exists st', calls, shown. auto.
Defined.

Lemma resume_challengeClaim_modal settled pg :
  exists pg',
    ReasonForge.resume_challengeClaim settled pg = Done (Normal tt) pg' /\
    ReasonForge.challengeLoading pg' = false /\
    ReasonForge.isOpen (ReasonForge.challengeModal pg') = ReasonForge.isOpen (ReasonForge.challengeModal pg) /\
    ReasonForge.claim (ReasonForge.challengeModal pg') = ReasonForge.claim (ReasonForge.challengeModal pg) /\
    ReasonForge.run pg' = ReasonForge.run pg /\
    ReasonForge.view pg' = ReasonForge.view pg /\
    ReasonForge.searchQuery pg' = ReasonForge.searchQuery pg /\
    (ReasonForge.response (ReasonForge.challengeModal pg') = ReasonForge.response (ReasonForge.challengeModal pg) \/
     exists r,
       settled = Normal r /\
       ReasonForge.successful settled = Normal (Some r) /\
       ReasonForge.response (ReasonForge.challengeModal pg') = ReasonForge.payload r).
Proof.
  unfold ReasonForge.resume_challengeClaim.
  destruct (ReasonForge.successful settled) as [[r|]|e] eqn:E;
    eexists; (split; [reflexivity|]);
    cbn [ReasonForge.setChallengeLoading ReasonForge.setChallengeModal ReasonForge.challengeLoading
         ReasonForge.challengeModal ReasonForge.isOpen ReasonForge.claim ReasonForge.response ReasonForge.run ReasonForge.view
         ReasonForge.searchQuery];
    do 6 (split; [reflexivity|]); [|left; reflexivity ..].
  right. exists r. split; [|split; reflexivity].
  unfold ReasonForge.successful in E. destruct settled as [r'|]; [|discriminate].
  destruct (get_prop r' _) as [[ok|]|]; try discriminate.
  destruct (truthy ok); congruence.
Qed.

(** X25 (part_000): whatever the gateway does, [challengeClaim] completes
    normally after exactly one call, with the dialog open on the claim, the
    loading flag down and the run state untouched; the dialog holds [null],
    or, when the gateway resolved with a truthy [success], the payload of that
    response. *)
Theorem challengeClaim_settles (gateway : list value -> completion value)
  (claim : jsstring) (pg : ReasonForge.Page) :
  exists pg',
    perform gateway (ReasonForge.challengeClaim claim pg) =
    (Normal tt, pg', [ReasonForge.challenge_call claim]) /\
    ReasonForge.challengeLoading pg' = false /\
    ReasonForge.isOpen (ReasonForge.challengeModal pg') = true /\
    ReasonForge.claim (ReasonForge.challengeModal pg') = claim /\
    ReasonForge.run pg' = ReasonForge.run pg /\
    (ReasonForge.response (ReasonForge.challengeModal pg') = VNull \/
     exists r,
       gateway (ReasonForge.challenge_call claim) = Normal r /\
       ReasonForge.successful (Normal r) = Normal (Some r) /\
       ReasonForge.response (ReasonForge.challengeModal pg') = ReasonForge.payload r).
Proof.
  unfold ReasonForge.challengeClaim. cbn [perform].
  destruct (resume_challengeClaim_modal (gateway (ReasonForge.challenge_call claim))
              (ReasonForge.setChallengeModal
                 (fun _ => {| ReasonForge.isOpen := true; ReasonForge.claim := claim;
                              ReasonForge.response := VNull |})
                 (ReasonForge.setChallengeLoading true pg)))
    as (pg' & -> & Hl & Ho & Hc & Hr & _ & _ & Hresp).
  exists pg'. cbn [perform]. split; [reflexivity|]. split; [exact Hl|].
  split; [exact Ho|]. split; [exact Hc|]. split; [exact Hr|].
  destruct Hresp as [H | (r & E & Hs & H)]; [left; exact H|].
  right. exists r. rewrite <- E. auto.
Qed.

(** X26 (part_000): a response that arrives after the dialog was closed
    does not reopen it: the update of the response keeps the other fields of
    the dialog, so it stays closed, with the empty claim, and the loading
    flag goes down. *)
Theorem late_response_keeps_dialog_closed (claim : jsstring) (pg : ReasonForge.Page)
  (settled : completion value) :
  exists args pg1 k pg2,
    ReasonForge.challengeClaim claim pg = Await args pg1 k /\
    k settled (ReasonForge.closeChallenge pg1) = Done (Normal tt) pg2 /\
    ReasonForge.isOpen (ReasonForge.challengeModal pg2) = false /\
    ReasonForge.claim (ReasonForge.challengeModal pg2) = [] /\
    ReasonForge.challengeLoading pg2 = false.
Proof.
  unfold ReasonForge.challengeClaim. eexists _, _, _.
  destruct (resume_challengeClaim_modal settled
              (ReasonForge.closeChallenge
                 (ReasonForge.setChallengeModal
                    (fun _ => {| ReasonForge.isOpen := true; ReasonForge.claim := claim;
                                 ReasonForge.response := VNull |})
                    (ReasonForge.setChallengeLoading true pg))))
    as (pg2 & E & Hl & Ho & Hc & _).
  exists pg2. split; [reflexivity|]. split; [exact E|].
  split; [exact Ho|]. split; [exact Hc | exact Hl].
Qed.

(** X28 (part_000): [viewAnalysis] puts the problem of the stored record
    into the input, so a run started behind it submits that problem again
    under the id of the new run; the stored record stays in the history. *)
Theorem viewed_analysis_is_rerun_as_new (gateway : list value -> completion value)
  (now : Z) (iso : jsstring) (pg : ReasonForge.Page) (a : ReasonForge.AnalysisHistory) :
  In a (ReasonForge.history (ReasonForge.run pg)) ->
  truthy (VStr (trim (ReasonForge.problem a))) = true ->
  exists st' calls shown,
    perform gateway
      (ReasonForge.runAnalysis now iso (ReasonForge.run (ReasonForge.viewAnalysis a pg))) =
    (Normal tt, st', calls) /\
    ReasonForge.currentAnalysis st' = Some shown /\
    ReasonForge.id shown = Number_toString now /\
    ReasonForge.problem shown = ReasonForge.problem a /\
    In a (ReasonForge.history st').
Proof.
  intros Hin Ht.
  destruct (runAnalysis_outcome gateway now iso (ReasonForge.run (ReasonForge.viewAnalysis a pg)) Ht)
    as (st' & calls & shown & Hrun & _ & _ & _ & Hshown & Hid & Hp & _ & Hend).
  exists st', calls, shown. do 4 (split; [assumption|]).
  destruct Hend as [(_ & -> & _) | (_ & -> & _)]; [|right]; exact Hin.
Qed.

Lemma viewed_analysis_is_rerun_as_new_witness :
  In sample_run (ReasonForge.history (ReasonForge.run sample_variant_page)) /\
  truthy (VStr (trim (ReasonForge.problem sample_run))) = true /\
  exists st' calls shown,
    perform unsuccessful
      (ReasonForge.runAnalysis 1700000000001 []
         (ReasonForge.run (ReasonForge.viewAnalysis sample_run sample_variant_page))) =
    (Normal tt, st', calls) /\
    ReasonForge.currentAnalysis st' = Some shown /\
    ReasonForge.id shown = Number_toString 1700000000001 /\
    ReasonForge.problem shown = ReasonForge.problem sample_run /\
    In sample_run (ReasonForge.history st').
Proof.
  assert (H1 : In sample_run (ReasonForge.history (ReasonForge.run sample_variant_page)))
    by (left; reflexivity).
  assert (H2 : truthy (VStr (trim (ReasonForge.problem sample_run))) = true)
    by (vm_compute; reflexivity).
  split; [exact H1|]. split; [exact H2|].
  exact (viewed_analysis_is_rerun_as_new unsuccessful 1700000000001 []
           sample_variant_page sample_run H1 H2).
Defined.
